(** * Dual-priority thread pools of go-core: a small-step model

    This development embeds the two pools of [thread_pool/]:

    - [static_thread_pool.go]  (the "Fixed" pool, [StaticThreadPool]),
    - [dynamic_thread_pool.go] (the "Elastic" pool, [DynamicThreadPool]).

    Both are concurrent programs.  Every goroutine is a thread with a program
    counter that names the source statement it executes next; the shared
    fields of the pool struct form the shared state; one step of the system
    runs one statement of one goroutine.  Channels, [select], [sync.Once],
    [sync.WaitGroup] and the atomics follow the Go language specification:

    - a send on a closed channel and a close of a closed channel panic;
    - a receive from a closed channel drains the buffer and then yields the
      zero value with [ok = false];
    - a [select] picks ANY one of the cases that can proceed (the Go
      specification: "a single one that can proceed is chosen via a uniform
      pseudo-random selection"); the case taken is part of the step label;
    - a panic that nobody recovers stops the whole program.

    Every access to shared data in the two files goes through a channel,
    an atomic, [sync.Once] or [sync.WaitGroup] (the remaining fields are
    written once, before the pool is shared), so the interleavings of
    whole statements are all the behaviours there are.

    A value travels through a buffered channel in two steps, the send and
    the receive.  A channel without buffer transfers a value only when
    sender and receiver meet; this happens for a task queue whose
    capacity, computed on [uint32], wraps to zero, and is a step of its
    own (the hand-off).  The semaphores and the shutdown channel of the
    Fixed pool have a capacity of at least one.

    The WaitGroup of the Elastic pool is modelled with its waiters, as
    package [sync] implements it.  [Wait()] returns at once when the
    counter is zero and parks otherwise; the [Done()] that brings the
    counter to zero wakes the parked goroutines; a [Wait()] that resumes
    after the counter has been raised again panics ("WaitGroup is reused
    before previous Wait has returned").  Line 106 / 119 of a launcher
    can do that to line 185 of [Stop].  [Add], [Done] and each half of
    [Wait] are one step each; the further check [Add] makes against
    another [Add] that overlaps it inside the WaitGroup is outside the
    model.  In the Fixed pool only [Start] adds to the WaitGroup, and the
    model keeps its counter.

    The panic of [wg.Wait()] happens inside the function given to
    [stopOnce.Do], which marks the [Once] done on the way out.  A caller
    of [Stop] may recover from it, so the model keeps the state the
    program would go on with: the call is over, the [Once] is done.
    Every other panic of the two files leaves the shared state as it
    was, and the goroutine it ends is like one that never runs again; it
    ends the run of the model.

    Outside the model: [make] never fails for lack of memory.

    [Task.Execute] is caller code.  A task is identified by a number and its
    execution is an observable event of the run; it is assumed to return
    (a nil [Task], and an [Execute] that panics or never returns, are
    outside the model). *)

From stdpp Require Import base numbers list option.

Set Default Proof Using "Type".

(** ** Go runtime primitives *)

Inductive fault : Set :=
| SendOnClosedChannel
| CloseOfClosedChannel
| NegativeWaitGroupCounter
| WaitGroupMisuse
| WaitGroupReused
| NilDereference.

(** Outcome of one statement: it completes, it cannot proceed yet, or it
    panics. *)
Inductive result (A : Type) : Type :=
| Ok (a : A)
| Blocked
| Panic (f : fault).
Arguments Ok {A} a.
Arguments Blocked {A}.
Arguments Panic {A} f.

#[global] Instance result_ret : MRet result := fun A a => Ok a.
#[global] Instance result_bind : MBind result := fun A B k r =>
  match r with
  | Ok a => k a
  | Blocked => Blocked
  | Panic f => Panic f
  end.

(** [uint32] arithmetic wraps modulo 2^32. *)
Definition uint32_modulus : N := 4294967296.
Definition uint32 (x : N) : N := (x mod uint32_modulus)%N.
(** [^uint32(0)], the all-ones word. *)
Definition uint32_max : N := 4294967295.

(** A channel made by [make(chan A, cap)]: the buffered values, oldest
    first, the capacity and the closed flag. *)
Record chan (A : Type) : Type := mkChan {
  buf : list A;
  cap : N;
  closed : bool
}.
Arguments mkChan {A} buf cap closed.
Arguments buf {A} c.
Arguments cap {A} c.
Arguments closed {A} c.

Definition make_chan {A : Type} (size : N) : chan A := mkChan [] size false.

(** [c <- x] on its own or as a [select] case. *)
Definition chan_send {A : Type} (c : chan A) (x : A) : result (chan A) :=
  if closed c then Panic SendOnClosedChannel
  else if (N.of_nat (length (buf c)) <? cap c)%N
       then Ok (mkChan (buf c ++ [x]) (cap c) (closed c))
       else Blocked.

(** [x, ok := <-c]: [Some x] stands for [(x, true)], [None] for the zero
    value with [ok = false]. *)
Definition chan_recv {A : Type} (c : chan A) : result (option A * chan A) :=
  match buf c with
  | x :: rest => Ok (Some x, mkChan rest (cap c) (closed c))
  | [] => if closed c then Ok (None, c) else Blocked
  end.

(** [close(c)]. *)
Definition chan_close {A : Type} (c : chan A) : result (chan A) :=
  if closed c then Panic CloseOfClosedChannel
  else Ok (mkChan (buf c) (cap c) true).

(** [sync.WaitGroup] reduced to its counter, as the Fixed pool uses it:
    [Add(delta)] panics when the counter becomes negative; [Wait()]
    proceeds when the counter is zero. *)
Definition wg_add (counter delta : Z) : result Z :=
  if (counter + delta <? 0)%Z then Panic NegativeWaitGroupCounter
  else Ok (counter + delta)%Z.

(** [sync.WaitGroup] with its waiters, as package [sync] implements it:
    the counter, the number of goroutines parked in [Wait()], and the
    wake-ups posted for them on the runtime semaphore of the group. *)
Record WaitGroup : Set := mkWaitGroup {
  counter : Z;
  waiters : nat;
  sema : nat
}.

(** [wg.Add(delta)]; [wg.Done()] is [wg.Add(-1)].  It panics when the
    counter becomes negative, and when it raises the counter from zero
    while goroutines are parked in [Wait()]; when it brings the counter to
    zero it wakes all of them. *)
Definition WaitGroup_Add (w : WaitGroup) (delta : Z) : result WaitGroup :=
  let v := (counter w + delta)%Z in
  if (v <? 0)%Z then Panic NegativeWaitGroupCounter
  else if negb (waiters w =? 0) && (0 <? delta)%Z && (v =? delta)%Z
  then Panic WaitGroupMisuse
  else if (0 <? v)%Z || (waiters w =? 0)
  then Ok (mkWaitGroup v (waiters w) (sema w))
  else Ok (mkWaitGroup 0 0 (sema w + waiters w)).

(** [wg.Wait()], first half: with the counter at zero it returns at once
    ([None]); otherwise the caller registers as a waiter and parks. *)
Definition WaitGroup_Wait (w : WaitGroup) : option WaitGroup :=
  if (counter w =? 0)%Z then None
  else Some (mkWaitGroup (counter w) (S (waiters w)) (sema w)).

(** [wg.Wait()], second half: the parked caller takes a wake-up, then
    checks that the group is at rest; if it is not, [Wait] panics
    ("WaitGroup is reused before previous Wait has returned"). *)
Definition WaitGroup_resume (w : WaitGroup) : result WaitGroup :=
  match sema w with
  | O => Blocked
  | S n => Ok (mkWaitGroup (counter w) (waiters w) n)
  end.

Definition WaitGroup_at_rest (w : WaitGroup) : bool :=
  (counter w =? 0)%Z && (waiters w =? 0).

(** [sync.Once]. A caller of [Do] that arrives while the function runs waits
    for it to return.  A function that panics leaves the [Once] done: "if
    f panics, Do considers it to have returned; future calls of Do return
    without calling f". *)
Inductive Once : Set := OnceIdle | OnceRunning | OnceDone.

(** The case of a [select] a step takes, in source order. *)
Inductive choice : Set := Case1 | Case2 | Case3.

(** ** Tasks and the observable events of a run *)

(** [task.go]: a task is a value with an [Execute()] method.  The model
    keeps its identity. *)
Definition Task : Set := nat.

Inductive kind : Set :=
| Accept (urgent : bool) (item : Task)   (* a Schedule call enqueued [item] *)
| Dequeue (urgent : bool) (item : Task)  (* a worker received [item] *)
| Execute (item : Task)                  (* [item.Execute()] returned *)
| Release (urgent : bool)                (* a worker freed a semaphore slot *)
| CountDec                               (* a worker decremented workerCount *)
| Stopping.                              (* Stop marked the pool stopped *)

(** An event and the thread that produced it. *)
Record event : Set := Ev { ev_tid : nat; ev_kind : kind }.

Definition tag (tid : nat) (ks : list kind) : list event := map (Ev tid) ks.

(** The tasks accepted (resp. executed) in an event log. *)
Fixpoint accepted (evs : list event) : list Task :=
  match evs with
  | [] => []
  | Ev _ (Accept _ t) :: r => t :: accepted r
  | _ :: r => accepted r
  end.

Fixpoint executed (evs : list event) : list Task :=
  match evs with
  | [] => []
  | Ev _ (Execute t) :: r => t :: executed r
  | _ :: r => executed r
  end.

(** What thread [tid] did, most recent first. *)
Fixpoint history (tid : nat) (evs : list event) : list kind :=
  match evs with
  | [] => []
  | Ev i k :: r => if Nat.eqb i tid then k :: history tid r else history tid r
  end.

(** Number of occurrences of a task in a list. *)
Fixpoint occ (t : Task) (l : list Task) : nat :=
  match l with
  | [] => 0
  | x :: r => (if Nat.eqb x t then 1 else 0) + occ t r
  end.

(** Sum of a weight over the threads. *)
Fixpoint total {A : Type} (w : A -> nat) (l : list A) : nat :=
  match l with
  | [] => 0
  | x :: r => w x + total w r
  end.

(** The tasks of class [u] accepted in an event log, most recent
    first. *)
Fixpoint accepted_of (u : bool) (evs : list event) : list Task :=
  match evs with
  | [] => []
  | Ev _ (Accept v x) :: r =>
      if Bool.eqb v u then x :: accepted_of u r else accepted_of u r
  | _ :: r => accepted_of u r
  end.

(** The tasks of class [u] received by workers in an event log, most
    recent first. *)
Fixpoint dequeued_of (u : bool) (evs : list event) : list Task :=
  match evs with
  | [] => []
  | Ev _ (Dequeue v x) :: r =>
      if Bool.eqb v u then x :: dequeued_of u r else dequeued_of u r
  | _ :: r => dequeued_of u r
  end.

(** ** The Elastic pool: [dynamic_thread_pool.go] *)

Module Dynamic.

Record DynamicThreadPool : Type := mkPool {
  maxPriorityWorkers : N;
  maxNormalWorkers : N;
  priorityCh : chan Task;
  normalCh : chan Task;
  closeCh : chan unit;
  wg : WaitGroup;
  prioritySem : chan unit;
  normalSem : chan unit;
  workerCount : N;
  stopOnce : Once;
  isStopped : bool
}.

(** [NewDynamicThreadPool]; [None] is the [nil] pointer. *)
Definition NewDynamicThreadPool (maxPriorityWorkers maxNormalWorkers : N)
  : option DynamicThreadPool :=
  if (maxPriorityWorkers =? 0)%N then None
  else if (maxNormalWorkers =? 0)%N then None
  else Some {|
    maxPriorityWorkers := maxPriorityWorkers;
    maxNormalWorkers := maxNormalWorkers;
    priorityCh := make_chan (uint32 (maxPriorityWorkers * 2));
    normalCh := make_chan (uint32 (maxNormalWorkers * 10));
    closeCh := make_chan 0;
    wg := mkWaitGroup 0 0 0;
    prioritySem := make_chan maxPriorityWorkers;
    normalSem := make_chan maxNormalWorkers;
    workerCount := 0;
    stopOnce := OnceIdle;
    isStopped := false |}.

(** [GetActiveWorkers]. *)
Definition GetActiveWorkers (t : DynamicThreadPool) : N := workerCount t.

(** The two classes share their code up to the channel and the semaphore
    they use; [urgent = true] selects the priority ones. *)
Definition taskCh (urgent : bool) (t : DynamicThreadPool) : chan Task :=
  if urgent then priorityCh t else normalCh t.
Definition sem (urgent : bool) (t : DynamicThreadPool) : chan unit :=
  if urgent then prioritySem t else normalSem t.
Definition maxWorkers (urgent : bool) (t : DynamicThreadPool) : N :=
  if urgent then maxPriorityWorkers t else maxNormalWorkers t.

Definition set_taskCh (urgent : bool) (c : chan Task) (t : DynamicThreadPool)
  : DynamicThreadPool :=
  if urgent
  then mkPool (maxPriorityWorkers t) (maxNormalWorkers t) c (normalCh t)
         (closeCh t) (wg t) (prioritySem t) (normalSem t) (workerCount t)
         (stopOnce t) (isStopped t)
  else mkPool (maxPriorityWorkers t) (maxNormalWorkers t) (priorityCh t) c
         (closeCh t) (wg t) (prioritySem t) (normalSem t) (workerCount t)
         (stopOnce t) (isStopped t).
Definition set_sem (urgent : bool) (c : chan unit) (t : DynamicThreadPool)
  : DynamicThreadPool :=
  if urgent
  then mkPool (maxPriorityWorkers t) (maxNormalWorkers t) (priorityCh t)
         (normalCh t) (closeCh t) (wg t) c (normalSem t) (workerCount t)
         (stopOnce t) (isStopped t)
  else mkPool (maxPriorityWorkers t) (maxNormalWorkers t) (priorityCh t)
         (normalCh t) (closeCh t) (wg t) (prioritySem t) c (workerCount t)
         (stopOnce t) (isStopped t).
Definition set_closeCh (c : chan unit) (t : DynamicThreadPool)
  : DynamicThreadPool :=
  mkPool (maxPriorityWorkers t) (maxNormalWorkers t) (priorityCh t)
    (normalCh t) c (wg t) (prioritySem t) (normalSem t) (workerCount t)
    (stopOnce t) (isStopped t).
Definition set_wg (n : WaitGroup) (t : DynamicThreadPool)
  : DynamicThreadPool :=
  mkPool (maxPriorityWorkers t) (maxNormalWorkers t) (priorityCh t)
    (normalCh t) (closeCh t) n (prioritySem t) (normalSem t) (workerCount t)
    (stopOnce t) (isStopped t).
Definition set_workerCount (n : N) (t : DynamicThreadPool)
  : DynamicThreadPool :=
  mkPool (maxPriorityWorkers t) (maxNormalWorkers t) (priorityCh t)
    (normalCh t) (closeCh t) (wg t) (prioritySem t) (normalSem t) n
    (stopOnce t) (isStopped t).
Definition set_stopOnce (o : Once) (t : DynamicThreadPool)
  : DynamicThreadPool :=
  mkPool (maxPriorityWorkers t) (maxNormalWorkers t) (priorityCh t)
    (normalCh t) (closeCh t) (wg t) (prioritySem t) (normalSem t)
    (workerCount t) o (isStopped t).
Definition set_isStopped (b : bool) (t : DynamicThreadPool)
  : DynamicThreadPool :=
  mkPool (maxPriorityWorkers t) (maxNormalWorkers t) (priorityCh t)
    (normalCh t) (closeCh t) (wg t) (prioritySem t) (normalSem t)
    (workerCount t) (stopOnce t) b.

(** Program counters.  Each names the statement the goroutine runs next;
    the arguments are the live local variables. *)
Inductive pc : Set :=
(* Start, line 62 *)
| Start_log
| Start_ret
(* Schedule, lines 68-95 *)
| Schedule_load (urgent : bool) (item : Task)    (* 69: t.isStopped.Load() *)
| Schedule_select (urgent : bool) (item : Task)  (* 76 / 86: select *)
| Schedule_ret (ok : bool)
(* tryLaunchPriorityWorker / tryLaunchNormalWorker, lines 98-122 *)
| tryLaunch_load (urgent : bool)      (* 99 / 113: t.isStopped.Load() *)
| tryLaunch_acquire (urgent : bool)   (* 104 / 117: sem <- struct{}{} *)
| tryLaunch_count (urgent : bool)     (* 105 / 118: workerCount.Add(1) *)
| tryLaunch_wgAdd (urgent : bool)     (* 106 / 119: wg.Add(1) *)
| tryLaunch_go (urgent : bool)        (* 107 / 120: go worker *)
(* priorityWorkerTask / normalWorkerTask, lines 125-173 *)
| worker_select (urgent : bool)               (* 135 / 161: select *)
| worker_exec (urgent : bool) (task : Task)   (* 145 / 170: task.Execute() *)
| worker_release (urgent : bool)              (* 128 / 154: <-sem *)
| worker_dec (urgent : bool)         (* 129 / 155: Add(^uint32(0)) *)
| worker_wgDone (urgent : bool)      (* 130 / 156: wg.Done() *)
| worker_exit (urgent : bool)
(* Stop, lines 176-199 *)
| Stop_once               (* 177: stopOnce.Do *)
| Stop_store              (* 179: isStopped.Store(true) *)
| Stop_closeCh            (* 182: close(closeCh) *)
| Stop_wait               (* 185: wg.Wait() *)
| Stop_parked             (* 185: parked inside wg.Wait() *)
| Stop_panic              (* 185: wg.Wait() panicked; the call is over *)
| Stop_closePriorityCh    (* 190 *)
| Stop_closeNormalCh      (* 191 *)
| Stop_closePrioritySem   (* 194 *)
| Stop_closeNormalSem     (* 195 *)
| Stop_onceDone           (* the function given to Do returns *)
| Stop_ret.

(** What one statement does: the new pool, the next program counter, the
    events and the goroutines it starts. *)
Definition outcome : Type :=
  (DynamicThreadPool * pc * list kind * list pc)%type.

Definition next (t : DynamicThreadPool) (l : pc) : result outcome :=
  Ok (t, l, [], []).

(** [Schedule(urgent, item)].  Case 1 of its select is the send on the
    queue of the class, case 2 the receive from [closeCh], which has no
    buffer and on which nothing is ever sent: it proceeds exactly when
    [closeCh] is closed. *)
Definition Schedule (t : DynamicThreadPool) (c : choice) (urgent : bool)
  (item : Task) (l : pc) : result outcome :=
  match l with
  | Schedule_load _ _ =>
      if isStopped t then next t (Schedule_ret false)
      else next t (Schedule_select urgent item)
  | Schedule_select _ _ =>
      match c with
      | Case1 =>
          ch ← chan_send (taskCh urgent t) item;
          Ok (set_taskCh urgent ch t, tryLaunch_load urgent,
              [Accept urgent item], [])
      | Case2 =>
          if closed (closeCh t) then next t (Schedule_ret false)
          else Blocked
      | Case3 => Blocked
      end
  | _ => Blocked
  end.

(** [tryLaunchPriorityWorker] ([urgent = true]) and [tryLaunchNormalWorker]
    ([urgent = false]); on return [Schedule] returns [true]. *)
Definition tryLaunchWorker (t : DynamicThreadPool) (urgent : bool) (l : pc)
  : result outcome :=
  match l with
  | tryLaunch_load _ =>
      if isStopped t then next t (Schedule_ret true)
      else next t (tryLaunch_acquire urgent)
  | tryLaunch_acquire _ =>
      s ← chan_send (sem urgent t) ();
      next (set_sem urgent s t) (tryLaunch_count urgent)
  | tryLaunch_count _ =>
      next (set_workerCount (uint32 (workerCount t + 1)) t)
           (tryLaunch_wgAdd urgent)
  | tryLaunch_wgAdd _ =>
      w ← WaitGroup_Add (wg t) 1;
      next (set_wg w t) (tryLaunch_go urgent)
  | tryLaunch_go _ =>
      Ok (t, Schedule_ret true, [], [worker_select urgent])
  | _ => Blocked
  end.

Definition tryLaunchPriorityWorker (t : DynamicThreadPool) (l : pc)
  : result outcome := tryLaunchWorker t true l.
Definition tryLaunchNormalWorker (t : DynamicThreadPool) (l : pc)
  : result outcome := tryLaunchWorker t false l.

(** [priorityWorkerTask] ([urgent = true]) and [normalWorkerTask]
    ([urgent = false]).  Every [return] of the body continues with the
    deferred function: release, decrement, [wg.Done()].  Case 1 of the
    select is the receive from [closeCh], case 2 the receive from the
    queue of the class. *)
Definition workerTask (t : DynamicThreadPool) (c : choice) (urgent : bool)
  (l : pc) : result outcome :=
  match l with
  | worker_select _ =>
      match c with
      | Case1 =>
          if closed (closeCh t) then next t (worker_release urgent)
          else Blocked
      | Case2 =>
          '(got, ch) ← chan_recv (taskCh urgent t);
          match got with
          | Some task =>
              Ok (set_taskCh urgent ch t, worker_exec urgent task,
                  [Dequeue urgent task], [])
          | None => next (set_taskCh urgent ch t) (worker_release urgent)
          end
      | Case3 => Blocked
      end
  | worker_exec _ task =>
      Ok (t, worker_release urgent, [Execute task], [])
  | worker_release _ =>
      '(got, s) ← chan_recv (sem urgent t);
      Ok (set_sem urgent s t, worker_dec urgent,
          match got with Some _ => [Release urgent] | None => [] end, [])
  | worker_dec _ =>
      Ok (set_workerCount (uint32 (workerCount t + uint32_max)) t,
          worker_wgDone urgent, [CountDec], [])
  | worker_wgDone _ =>
      w ← WaitGroup_Add (wg t) (-1);
      next (set_wg w t) (worker_exit urgent)
  | _ => Blocked
  end.

Definition priorityWorkerTask (t : DynamicThreadPool) (c : choice) (l : pc)
  : result outcome := workerTask t c true l.
Definition normalWorkerTask (t : DynamicThreadPool) (c : choice) (l : pc)
  : result outcome := workerTask t c false l.

(** [Stop()].  [wg.Wait()] takes two statements when it has to park:
    the test of the counter with the registration as a waiter, and the
    resumption after the wake-up.  A panic at the resumption leaves the
    function given to [stopOnce.Do] and [Do] itself, which marks the
    [Once] done on its way out; the call is over ([Stop_panic]), and the
    run goes on from that state. *)
Definition Stop (t : DynamicThreadPool) (l : pc) : result outcome :=
  match l with
  | Stop_once =>
      match stopOnce t with
      | OnceDone => next t Stop_ret
      | OnceRunning => Blocked
      | OnceIdle => next (set_stopOnce OnceRunning t) Stop_store
      end
  | Stop_store =>
      Ok (set_isStopped true t, Stop_closeCh, [Stopping], [])
  | Stop_closeCh =>
      ch ← chan_close (closeCh t);
      next (set_closeCh ch t) Stop_wait
  | Stop_wait =>
      match WaitGroup_Wait (wg t) with
      | None => next t Stop_closePriorityCh
      | Some w => next (set_wg w t) Stop_parked
      end
  | Stop_parked =>
      w ← WaitGroup_resume (wg t);
      if WaitGroup_at_rest w then next (set_wg w t) Stop_closePriorityCh
      else next (set_stopOnce OnceDone (set_wg w t)) Stop_panic
  | Stop_closePriorityCh =>
      ch ← chan_close (priorityCh t);
      next (set_taskCh true ch t) Stop_closeNormalCh
  | Stop_closeNormalCh =>
      ch ← chan_close (normalCh t);
      next (set_taskCh false ch t) Stop_closePrioritySem
  | Stop_closePrioritySem =>
      s ← chan_close (prioritySem t);
      next (set_sem true s t) Stop_closeNormalSem
  | Stop_closeNormalSem =>
      s ← chan_close (normalSem t);
      next (set_sem false s t) Stop_onceDone
  | Stop_onceDone => next (set_stopOnce OnceDone t) Stop_ret
  | _ => Blocked
  end.

(** One statement of a goroutine at program counter [l]. *)
Definition thread_step (t : DynamicThreadPool) (c : choice) (l : pc)
  : result outcome :=
  match l with
  | Start_log => next t Start_ret
  | Schedule_load urgent item | Schedule_select urgent item =>
      Schedule t c urgent item l
  | tryLaunch_load urgent | tryLaunch_acquire urgent
  | tryLaunch_count urgent | tryLaunch_wgAdd urgent | tryLaunch_go urgent =>
      tryLaunchWorker t urgent l
  | worker_select urgent | worker_exec urgent _ | worker_release urgent
  | worker_dec urgent | worker_wgDone urgent =>
      workerTask t c urgent l
  | Stop_once | Stop_store | Stop_closeCh | Stop_wait | Stop_parked
  | Stop_closePriorityCh | Stop_closeNormalCh | Stop_closePrioritySem
  | Stop_closeNormalSem | Stop_onceDone => Stop t l
  | Start_ret | Schedule_ret _ | worker_exit _ | Stop_panic | Stop_ret =>
      Blocked
  end.

(** The system: the pool, the goroutines (a thread's identifier is its
    position; finished ones stay) and the events so far, most recent
    first. *)
Record State : Type := mkState {
  pool : DynamicThreadPool;
  threads : list pc;
  events : list event
}.

Definition initial (t : DynamicThreadPool) : State := mkState t [] [].

(** A call some goroutine of the client makes on the pool. *)
Inductive call : Set :=
| CallStart
| CallSchedule (urgent : bool) (item : Task)
| CallStop.

Definition entry (c : call) : pc :=
  match c with
  | CallStart => Start_log
  | CallSchedule urgent item => Schedule_load urgent item
  | CallStop => Stop_once
  end.

(** Labels of the steps: a client starts a call; thread [tid] runs its next
    statement; a sender parked in [Schedule]'s select hands its item to a
    worker parked in its select (the only way a channel without buffer
    transfers a value). *)
Inductive action : Set :=
| Invoke (c : call)
| Run (tid : nat) (c : choice)
| Handoff (sender receiver : nat).

Definition step (s : State) (a : action) : result State :=
  match a with
  | Invoke c => Ok (mkState (pool s) (threads s ++ [entry c]) (events s))
  | Run tid c =>
      match threads s !! tid with
      | None => Blocked
      | Some l =>
          '(t', l', ks, spawned) ← thread_step (pool s) c l;
          Ok (mkState t' (<[tid := l']> (threads s) ++ spawned)
                (tag tid ks ++ events s))
      end
  | Handoff i j =>
      match threads s !! i, threads s !! j with
      | Some (Schedule_select urgent item), Some (worker_select urgent') =>
          if bool_decide (urgent = urgent')
             && (cap (taskCh urgent (pool s)) =? 0)%N
             && negb (closed (taskCh urgent (pool s)))
          then Ok (mkState (pool s)
                     (<[j := worker_exec urgent item]>
                        (<[i := tryLaunch_load urgent]> (threads s)))
                     (Ev j (Dequeue urgent item)
                        :: Ev i (Accept urgent item) :: events s))
          else Blocked
      | _, _ => Blocked
      end
  end.

(** Running a schedule: a list of labels, first step first. *)
Fixpoint run (s : State) (acts : list action) : result State :=
  match acts with
  | [] => Ok s
  | a :: rest =>
      match step s a with
      | Ok s' => run s' rest
      | Blocked => Blocked
      | Panic f => Panic f
      end
  end.

(** *** Observations on a state *)

(** The goroutine holds a slot of the class's semaphore: it has sent on it
    (line 104 / 117) and the worker it stands for has not received from it
    yet (line 128 / 154). *)
Definition holds_slot (urgent : bool) (l : pc) : nat :=
  match l with
  | tryLaunch_count u | tryLaunch_wgAdd u | tryLaunch_go u
  | worker_select u | worker_exec u _ | worker_release u =>
      if Bool.eqb u urgent then 1 else 0
  | _ => 0
  end.

(** The goroutine is a worker of the class inside [task.Execute()]. *)
Definition executing (urgent : bool) (l : pc) : nat :=
  match l with
  | worker_exec u _ => if Bool.eqb u urgent then 1 else 0
  | _ => 0
  end.

(** The goroutine is inside [Execute()] of task [x]. *)
Definition running (x : Task) (l : pc) : nat :=
  match l with
  | worker_exec _ y => if Nat.eqb y x then 1 else 0
  | _ => 0
  end.

(** The goroutine accounts for one unit of the WaitGroup counter. *)
Definition in_wg (l : pc) : nat :=
  match l with
  | tryLaunch_go _ | worker_select _ | worker_exec _ _ | worker_release _
  | worker_dec _ | worker_wgDone _ => 1
  | _ => 0
  end.

(** The goroutine runs the function [Stop] gives to [stopOnce.Do]. *)
Definition in_stop_body (l : pc) : nat :=
  match l with
  | Stop_store | Stop_closeCh | Stop_wait | Stop_parked
  | Stop_closePriorityCh | Stop_closeNormalCh | Stop_closePrioritySem
  | Stop_closeNormalSem | Stop_onceDone => 1
  | _ => 0
  end.

(** The goroutine is parked inside [wg.Wait()]. *)
Definition parked (l : pc) : nat :=
  match l with
  | Stop_parked => 1
  | _ => 0
  end.

(** The goroutine is a [Stop] call that ended in the panic of
    [wg.Wait()]. *)
Definition stop_panicked (l : pc) : nat :=
  match l with
  | Stop_panic => 1
  | _ => 0
  end.

(** The goroutine is a worker of the class. *)
Definition is_worker (urgent : bool) (l : pc) : bool :=
  match l with
  | worker_select u | worker_exec u _ | worker_release u | worker_dec u
  | worker_wgDone u | worker_exit u => Bool.eqb u urgent
  | _ => false
  end.

(** Statements a worker has left before it exits. *)
Definition worker_rank (l : pc) : nat :=
  match l with
  | worker_select _ => 5
  | worker_exec _ _ => 4
  | worker_release _ => 3
  | worker_dec _ => 2
  | worker_wgDone _ => 1
  | _ => 0
  end.

(** Statements a launched worker has left before it has left the
    WaitGroup, counted from the [go] statement that starts it. *)
Definition pending (l : pc) : nat :=
  match l with
  | tryLaunch_go _ => 6
  | worker_select _ => 5
  | worker_exec _ _ => 4
  | worker_release _ => 3
  | worker_dec _ => 2
  | worker_wgDone _ => 1
  | _ => 0
  end.

(** Statements the function given to [stopOnce.Do] has left. *)
Definition body_rank (l : pc) : nat :=
  match l with
  | Stop_store => 9
  | Stop_closeCh => 8
  | Stop_wait => 7
  | Stop_parked => 6
  | Stop_closePriorityCh => 5
  | Stop_closeNormalCh => 4
  | Stop_closePrioritySem => 3
  | Stop_closeNormalSem => 2
  | Stop_onceDone => 1
  | _ => 0
  end.

(** The goroutine still carries task [x] towards a queue or through
    [Execute()]. *)
Definition carries (x : Task) (l : pc) : nat :=
  match l with
  | Schedule_select _ y | worker_exec _ y => if Nat.eqb y x then 1 else 0
  | _ => 0
  end.

(** Times the stopping transition of line 179 happened. *)
Fixpoint stoppings (evs : list event) : nat :=
  match evs with
  | [] => 0
  | Ev _ Stopping :: r => S (stoppings r)
  | _ :: r => stoppings r
  end.

(** Some call of [Stop] has returned. *)
Definition stop_returned (s : State) : Prop :=
  exists tid, threads s !! tid = Some Stop_ret.

(** [k] more calls of [Stop], one after the other, each run to its end by
    a fresh client goroutine. *)
Fixpoint stop_again (k : nat) (s : State) : result State :=
  match k with
  | O => Ok s
  | S k' =>
      s1 ← step s (Invoke CallStop);
      s2 ← step s1 (Run (length (threads s)) Case1);
      stop_again k' s2
  end.

(** *** Invariants of the reachable states *)

(** Every slot taken from a semaphore is held by exactly one goroutine, the
    slots taken never exceed the capacity, and the capacity is the ceiling
    the pool was made with. *)
Definition sem_inv (ceiling : bool -> N) (s : State) : Prop :=
  forall u : bool,
    total (holds_slot u) (threads s) = length (buf (sem u (pool s)))
    /\ (N.of_nat (length (buf (sem u (pool s)))) <= cap (sem u (pool s)))%N
    /\ cap (sem u (pool s)) = ceiling u.

(** The WaitGroup counter counts these goroutines; a goroutine parked in
    [Wait()] is registered as a waiter or has its wake-up posted; and
    while a waiter is registered the counter is not zero. *)
Definition wg_inv (s : State) : Prop :=
  counter (wg (pool s)) = Z.of_nat (total in_wg (threads s))
  /\ waiters (wg (pool s)) + sema (wg (pool s)) = total parked (threads s)
  /\ (waiters (wg (pool s)) <> 0 -> (0 < counter (wg (pool s)))%Z).

(** A task accepted by [Schedule] is in its queue, inside [Execute()] of
    one worker, or executed, as many times as it was accepted. *)
Definition task_inv (s : State) : Prop :=
  forall x : Task,
    occ x (accepted (events s))
    = occ x (buf (priorityCh (pool s))) + occ x (buf (normalCh (pool s)))
      + total (running x) (threads s) + occ x (executed (events s)).

(** The progress of [Stop]: the stopped flag and the closed flags of
    [closeCh], [priorityCh], [normalCh], [prioritySem], [normalSem]. *)
Definition flags (t : DynamicThreadPool) : list bool :=
  [isStopped t; closed (closeCh t); closed (priorityCh t);
   closed (normalCh t); closed (prioritySem t); closed (normalSem t)].

Definition all_open : list bool := [false; false; false; false; false; false].
Definition all_closed : list bool := [true; true; true; true; true; true].
(** The flags while [Stop] waits for the workers. *)
Definition waiting_flags : list bool :=
  [true; true; false; false; false; false].

(** The flags a goroutine inside [Stop] finds at its statement. *)
Definition stop_flags (l : pc) : option (list bool) :=
  match l with
  | Stop_store => Some all_open
  | Stop_closeCh => Some [true; false; false; false; false; false]
  | Stop_wait | Stop_parked | Stop_closePriorityCh => Some waiting_flags
  | Stop_closeNormalCh => Some [true; true; true; false; false; false]
  | Stop_closePrioritySem => Some [true; true; true; true; false; false]
  | Stop_closeNormalSem => Some [true; true; true; true; true; false]
  | Stop_onceDone => Some all_closed
  | _ => None
  end.

Definition thread_ok (t : DynamicThreadPool) (l : pc) : Prop :=
  match l with
  | Stop_ret | Stop_panic => stopOnce t = OnceDone
  | _ =>
      match stop_flags l with
      | Some f => stopOnce t = OnceRunning /\ flags t = f
      | None => True
      end
  end.

(** The [Once] against the goroutines inside the function given to it
    and the [Stop] calls that ended in a panic: the function has returned
    with everything closed, or it has panicked in [wg.Wait()], before the
    queues and the semaphores were closed. *)
Definition once_ok (t : DynamicThreadPool) (in_body panicked : nat) : Prop :=
  match stopOnce t with
  | OnceIdle => flags t = all_open /\ in_body = 0 /\ panicked = 0
  | OnceRunning => in_body = 1 /\ panicked = 0
  | OnceDone =>
      in_body = 0
      /\ ((panicked = 0 /\ flags t = all_closed)
          \/ (panicked = 1 /\ flags t = waiting_flags))
  end.

Definition stop_inv (s : State) : Prop :=
  once_ok (pool s) (total in_stop_body (threads s))
    (total stop_panicked (threads s))
  /\ (forall tid l, threads s !! tid = Some l -> thread_ok (pool s) l)
  /\ stoppings (events s) = (if isStopped (pool s) then 1 else 0).

(** What thread [tid] did, first event first. *)
Definition timeline (tid : nat) (evs : list event) : list kind :=
  rev (history tid evs).

(** The events a worker of class [u] has produced when it stands at [l]:
    it received at most one task, from the queue of its class, executed
    it, and then freed one slot of its class and decremented the counter
    once. *)
Definition worker_trace (l : pc) (h : list kind) : Prop :=
  match l with
  | worker_select _ => h = []
  | worker_exec u x => h = [Dequeue u x]
  | worker_release u => h = [] \/ exists x, h = [Dequeue u x; Execute x]
  | worker_dec u =>
      h = [Release u] \/ exists x, h = [Dequeue u x; Execute x; Release u]
  | worker_wgDone u | worker_exit u =>
      h = [Release u; CountDec]
      \/ exists x, h = [Dequeue u x; Execute x; Release u; CountDec]
  | _ => True
  end.

Definition hist_inv (s : State) : Prop :=
  forall tid : nat,
    match threads s !! tid with
    | Some l => worker_trace l (timeline tid (events s))
    | None => timeline tid (events s) = []
    end.

(** All of them. *)
Definition invariant (ceiling : bool -> N) (s : State) : Prop :=
  sem_inv ceiling s /\ wg_inv s /\ task_inv s /\ stop_inv s /\ hist_inv s.

(** The call [Schedule(urgent, x)] of thread [tid] was made on a stopped
    pool: the pool stays stopped, the call has not gone past line 69 and
    has produced no event. *)
Definition rejected (tid : nat) (urgent : bool) (x : Task) (s : State)
  : Prop :=
  isStopped (pool s) = true
  /\ (threads s !! tid = Some (Schedule_load urgent x)
      \/ threads s !! tid = Some (Schedule_ret false))
  /\ history tid (events s) = [].

(** Task [x] is nowhere in the pool: not queued, not carried by a
    goroutine, not executed. *)
Definition absent (x : Task) (s : State) : Prop :=
  occ x (buf (priorityCh (pool s))) = 0
  /\ occ x (buf (normalCh (pool s))) = 0
  /\ total (carries x) (threads s) = 0
  /\ occ x (executed (events s)) = 0.


(** *** Scenarios *)

(** The pool [NewDynamicThreadPool(1, 1)] of the test suite. *)
Definition pool_1_1 : DynamicThreadPool :=
  {| maxPriorityWorkers := 1; maxNormalWorkers := 1;
     priorityCh := make_chan 2; normalCh := make_chan 10;
     closeCh := make_chan 0; wg := mkWaitGroup 0 0 0;
     prioritySem := make_chan 1; normalSem := make_chan 1;
     workerCount := 0; stopOnce := OnceIdle; isStopped := false |}.

(** One [Schedule] call run to its end by thread [tid]: lines 69, 76,
    99, 104, 105, 106, 107. *)
Definition schedule_steps (tid : nat) : list action :=
  [Run tid Case1; Run tid Case1; Run tid Case1; Run tid Case1;
   Run tid Case1; Run tid Case1; Run tid Case1].

(** One [Stop] call run to its end by thread [tid], when no worker is
    left: lines 177, 179, 182, 185, 190, 191, 194, 195 and the return of
    the function given to [Do]. *)
Definition stop_steps (tid : nat) : list action :=
  [Run tid Case1; Run tid Case1; Run tid Case1; Run tid Case1;
   Run tid Case1; Run tid Case1; Run tid Case1; Run tid Case1;
   Run tid Case1].

(** *** Further invariants of the reachable states *)

(** The goroutine stands for a task that is in the queue of the class:
    a launcher, from the send of [Schedule] to its [go] statement, or a
    worker at its select. *)
Definition waiting (urgent : bool) (l : pc) : nat :=
  match l with
  | tryLaunch_load u | tryLaunch_acquire u | tryLaunch_count u
  | tryLaunch_wgAdd u | tryLaunch_go u | worker_select u =>
      if Bool.eqb u urgent then 1 else 0
  | _ => 0
  end.

(** The queue of a class holds, oldest first, the accepted tasks that no
    worker has received yet; it is within its capacity, which is the one
    it was made with; and every launcher and every worker at its select
    has a task of its class in the queue. *)
Definition queue_inv (capacity : bool -> N) (s : State) : Prop :=
  forall u : bool,
    accepted_of u (events s)
    = rev (buf (taskCh u (pool s))) ++ dequeued_of u (events s)
    /\ (N.of_nat (length (buf (taskCh u (pool s))))
        <= cap (taskCh u (pool s)))%N
    /\ cap (taskCh u (pool s)) = capacity u
    /\ total (waiting u) (threads s) <= length (buf (taskCh u (pool s))).

(** The goroutine accounts for one unit of [workerCount]: from line 105
    / 118 to line 129 / 155. *)
Definition counted (l : pc) : nat :=
  match l with
  | tryLaunch_wgAdd _ | tryLaunch_go _ | worker_select _ | worker_exec _ _
  | worker_release _ | worker_dec _ => 1
  | _ => 0
  end.

(** [workerCount] counts these goroutines, on [uint32]. *)
Definition count_inv (s : State) : Prop :=
  workerCount (pool s) = uint32 (N.of_nat (total counted (threads s))).

(** The events of a caller of [Schedule] at [l]: none before the send,
    the one [Accept] after it; a call that returned [false] has none. *)
Definition caller_trace (l : pc) (h : list kind) : Prop :=
  match l with
  | Schedule_load _ _ | Schedule_select _ _ | Schedule_ret false => h = []
  | tryLaunch_load u | tryLaunch_acquire u | tryLaunch_count u
  | tryLaunch_wgAdd u | tryLaunch_go u => exists x, h = [Accept u x]
  | Schedule_ret true => exists u x, h = [Accept u x]
  | _ => True
  end.

Definition caller_inv (s : State) : Prop :=
  forall tid l, threads s !! tid = Some l ->
    caller_trace l (timeline tid (events s)).

(** [closeCh] is closed only on a pool marked stopped, and a [Schedule]
    call has returned [false] only on such a pool. *)
Definition gate_inv (s : State) : Prop :=
  (closed (closeCh (pool s)) = true -> isStopped (pool s) = true)
  /\ forall tid, threads s !! tid = Some (Schedule_ret false) ->
       isStopped (pool s) = true.

(** All of these. *)
Definition more_inv (capacity : bool -> N) (s : State) : Prop :=
  queue_inv capacity s /\ count_inv s /\ caller_inv s /\ gate_inv s.

(** The goroutine is a launcher or a worker: it exists because a task
    was accepted. *)
Definition launched (l : pc) : nat :=
  match l with
  | tryLaunch_load _ | tryLaunch_acquire _ | tryLaunch_count _
  | tryLaunch_wgAdd _ | tryLaunch_go _
  | worker_select _ | worker_exec _ _ | worker_release _ | worker_dec _
  | worker_wgDone _ | worker_exit _ => 1
  | _ => 0
  end.

(** The goroutine was started by the [go] of line 107 / 120. *)
Definition spawned (l : pc) : nat :=
  match l with
  | worker_select _ | worker_exec _ _ | worker_release _ | worker_dec _
  | worker_wgDone _ | worker_exit _ => 1
  | _ => 0
  end.

Definition launch_inv (s : State) : Prop :=
  total launched (threads s) <= length (accepted (events s)).

End Dynamic.

(** ** The Fixed pool: [static_thread_pool.go] *)

Module Static.

Record StaticThreadPool : Type := mkPool {
  worker : N;
  close : chan Z;
  wg : Z;
  priorityCh : chan Task;
  normalCh : chan Task
}.

(** [NewStaticThreadPool]; [None] is the [nil] pointer. *)
Definition NewStaticThreadPool (count : N) : option StaticThreadPool :=
  if (count =? 0)%N then None
  else Some {|
    worker := count;
    close := make_chan count;
    wg := 0;
    priorityCh := make_chan (uint32 (count * 2));
    normalCh := make_chan (uint32 (count * 5000)) |}.

(** Line 42 of [Start]: [highPriority := (t.worker * 10) / 100], computed
    on [uint32]. *)
Definition highPriority (t : StaticThreadPool) : N :=
  (uint32 (worker t * 10) / 100)%N.

Definition taskCh (urgent : bool) (t : StaticThreadPool) : chan Task :=
  if urgent then priorityCh t else normalCh t.

Definition set_taskCh (urgent : bool) (c : chan Task) (t : StaticThreadPool)
  : StaticThreadPool :=
  if urgent then mkPool (worker t) (close t) (wg t) c (normalCh t)
  else mkPool (worker t) (close t) (wg t) (priorityCh t) c.
Definition set_close (c : chan Z) (t : StaticThreadPool) : StaticThreadPool :=
  mkPool (worker t) c (wg t) (priorityCh t) (normalCh t).
Definition set_wg (n : Z) (t : StaticThreadPool) : StaticThreadPool :=
  mkPool (worker t) (close t) n (priorityCh t) (normalCh t).

Inductive pc : Set :=
(* Start, lines 40-48 *)
| Start_init                            (* 42: highPriority := ... *)
| Start_loop (highPriority i : N)       (* 44: i < t.worker *)
| Start_wgAdd (highPriority i : N)      (* 45: t.wg.Add(1) *)
| Start_go (highPriority i : N)         (* 46: go t.Do(i < highPriority) *)
| Start_ret
(* Stop, lines 51-61 *)
| Stop_loop (i : N)                     (* 52: i < t.worker *)
| Stop_send (i : N)                     (* 53: t.close <- 1 *)
| Stop_wait                             (* 56: t.wg.Wait() *)
| Stop_closeClose                       (* 58 *)
| Stop_closePriorityCh                  (* 59 *)
| Stop_closeNormalCh                    (* 60 *)
| Stop_ret
(* Schedule, lines 64-72 *)
| Schedule_send (urgent : bool) (item : Task)
| Schedule_ret
(* Do, lines 75-101 *)
| Do_select (priority : bool)                        (* 81 / 91: select *)
| Do_exec (priority : bool) (item : option Task)     (* item.Execute() *)
| Do_wgDone (priority : bool)                        (* 76: deferred *)
| Do_exit (priority : bool).

Definition outcome : Type :=
  (StaticThreadPool * pc * list kind * list pc)%type.

Definition next (t : StaticThreadPool) (l : pc) : result outcome :=
  Ok (t, l, [], []).

(** [Start()]. *)
Definition Start (t : StaticThreadPool) (l : pc) : result outcome :=
  match l with
  | Start_init => next t (Start_loop (highPriority t) 0)
  | Start_loop hp i =>
      if (i <? worker t)%N then next t (Start_wgAdd hp i)
      else next t Start_ret
  | Start_wgAdd hp i =>
      n ← wg_add (wg t) 1;
      next (set_wg n t) (Start_go hp i)
  | Start_go hp i =>
      Ok (t, Start_loop hp (uint32 (i + 1)), [], [Do_select (i <? hp)%N])
  | _ => Blocked
  end.

(** [Stop()]. *)
Definition Stop (t : StaticThreadPool) (l : pc) : result outcome :=
  match l with
  | Stop_loop i =>
      if (i <? worker t)%N then next t (Stop_send i) else next t Stop_wait
  | Stop_send i =>
      ch ← chan_send (close t) 1%Z;
      next (set_close ch t) (Stop_loop (uint32 (i + 1)))
  | Stop_wait =>
      if (wg t =? 0)%Z then next t Stop_closeClose else Blocked
  | Stop_closeClose =>
      ch ← chan_close (close t);
      next (set_close ch t) Stop_closePriorityCh
  | Stop_closePriorityCh =>
      ch ← chan_close (priorityCh t);
      next (set_taskCh true ch t) Stop_closeNormalCh
  | Stop_closeNormalCh =>
      ch ← chan_close (normalCh t);
      next (set_taskCh false ch t) Stop_ret
  | _ => Blocked
  end.

(** [Schedule(urgent, item)]. *)
Definition Schedule (t : StaticThreadPool) (urgent : bool) (item : Task)
  : result outcome :=
  ch ← chan_send (taskCh urgent t) item;
  Ok (set_taskCh urgent ch t, Schedule_ret, [Accept urgent item], []).

(** The receive [item := <-ch] of [Do]: it has no [ok], so that a closed
    and empty channel yields the nil task. *)
Definition Do_receive (t : StaticThreadPool) (priority urgent : bool)
  : result outcome :=
  '(item, ch) ← chan_recv (taskCh urgent t);
  Ok (set_taskCh urgent ch t, Do_exec priority item,
      match item with Some x => [Dequeue urgent x] | None => [] end, []).

Definition Do_close (t : StaticThreadPool) (priority : bool)
  : result outcome :=
  '(_, ch) ← chan_recv (close t);
  next (set_close ch t) (Do_wgDone priority).

(** [Do(priority)]. *)
Definition Do (t : StaticThreadPool) (c : choice) (priority : bool) (l : pc)
  : result outcome :=
  match l with
  | Do_select _ =>
      if priority then
        match c with
        | Case1 => Do_receive t priority true
        | Case2 => Do_close t priority
        | Case3 => Blocked
        end
      else
        match c with
        | Case1 => Do_receive t priority true
        | Case2 => Do_receive t priority false
        | Case3 => Do_close t priority
        end
  | Do_exec _ (Some item) => Ok (t, Do_select priority, [Execute item], [])
  | Do_exec _ None => Panic NilDereference
  | Do_wgDone _ =>
      n ← wg_add (wg t) (-1);
      next (set_wg n t) (Do_exit priority)
  | _ => Blocked
  end.

Definition thread_step (t : StaticThreadPool) (c : choice) (l : pc)
  : result outcome :=
  match l with
  | Start_init | Start_loop _ _ | Start_wgAdd _ _ | Start_go _ _ => Start t l
  | Stop_loop _ | Stop_send _ | Stop_wait | Stop_closeClose
  | Stop_closePriorityCh | Stop_closeNormalCh => Stop t l
  | Schedule_send urgent item => Schedule t urgent item
  | Do_select priority | Do_exec priority _ | Do_wgDone priority =>
      Do t c priority l
  | Start_ret | Stop_ret | Schedule_ret | Do_exit _ => Blocked
  end.

Record State : Type := mkState {
  pool : StaticThreadPool;
  threads : list pc;
  events : list event
}.

Definition initial (t : StaticThreadPool) : State := mkState t [] [].

Inductive call : Set :=
| CallStart
| CallSchedule (urgent : bool) (item : Task)
| CallStop.

Definition entry (c : call) : pc :=
  match c with
  | CallStart => Start_init
  | CallSchedule urgent item => Schedule_send urgent item
  | CallStop => Stop_loop 0
  end.

(** Labels as for the Elastic pool.  A worker in urgent-only mode takes a
    hand-off from the priority channel only. *)
Inductive action : Set :=
| Invoke (c : call)
| Run (tid : nat) (c : choice)
| Handoff (sender receiver : nat).

Definition step (s : State) (a : action) : result State :=
  match a with
  | Invoke c => Ok (mkState (pool s) (threads s ++ [entry c]) (events s))
  | Run tid c =>
      match threads s !! tid with
      | None => Blocked
      | Some l =>
          '(t', l', ks, spawned) ← thread_step (pool s) c l;
          Ok (mkState t' (<[tid := l']> (threads s) ++ spawned)
                (tag tid ks ++ events s))
      end
  | Handoff i j =>
      match threads s !! i, threads s !! j with
      | Some (Schedule_send urgent item), Some (Do_select priority) =>
          if (urgent || negb priority)
             && (cap (taskCh urgent (pool s)) =? 0)%N
             && negb (closed (taskCh urgent (pool s)))
          then Ok (mkState (pool s)
                     (<[j := Do_exec priority (Some item)]>
                        (<[i := Schedule_ret]> (threads s)))
                     (Ev j (Dequeue urgent item)
                        :: Ev i (Accept urgent item) :: events s))
          else Blocked
      | _, _ => Blocked
      end
  end.

Fixpoint run (s : State) (acts : list action) : result State :=
  match acts with
  | [] => Ok s
  | a :: rest =>
      match step s a with
      | Ok s' => run s' rest
      | Blocked => Blocked
      | Panic f => Panic f
      end
  end.

(** *** Observations on a state *)

(** The goroutine is inside [Execute()] of task [x]. *)
Definition running (x : Task) (l : pc) : nat :=
  match l with
  | Do_exec _ (Some y) => if Nat.eqb y x then 1 else 0
  | _ => 0
  end.

(** Some call of [Stop] has returned. *)
Definition stop_returned (s : State) : Prop :=
  exists tid, threads s !! tid = Some Stop_ret.

(** The mode [Start] gives to the worker it spawns in iteration [i]:
    [true] is urgent-only, [false] is mixed. *)
Definition spawned_mode (t : StaticThreadPool) (i : N) : bool :=
  (i <? highPriority t)%N.

(** *** Invariants of the reachable states *)

(** A task accepted by [Schedule] is in its queue, inside [Execute()] of
    one worker, or executed, as many times as it was accepted. *)
Definition task_inv (s : State) : Prop :=
  forall x : Task,
    occ x (accepted (events s))
    = occ x (buf (priorityCh (pool s))) + occ x (buf (normalCh (pool s)))
      + total (running x) (threads s) + occ x (executed (events s)).

(** What [Stop] has closed before each of its last statements. *)
Definition close_ok (t : StaticThreadPool) (l : pc) : Prop :=
  match l with
  | Stop_closePriorityCh => closed (close t) = true
  | Stop_closeNormalCh =>
      closed (close t) = true /\ closed (priorityCh t) = true
  | Stop_ret =>
      closed (close t) = true /\ closed (priorityCh t) = true
      /\ closed (normalCh t) = true
  | _ => True
  end.

Definition closed_inv (count : N) (s : State) : Prop :=
  worker (pool s) = count
  /\ forall tid l, threads s !! tid = Some l -> close_ok (pool s) l.

(** *** Scenarios *)

(** [NewStaticThreadPool(1)] of the test suite: one worker, in mixed
    mode. *)
Definition pool_1 : StaticThreadPool :=
  {| worker := 1; close := make_chan 1; wg := 0;
     priorityCh := make_chan 2; normalCh := make_chan 5000 |}.

(** [Start()] on [pool_1], run to its end by thread [tid]: lines 42, 44,
    45, 46, 44. *)
Definition start_steps (tid : nat) : list action :=
  [Run tid Case1; Run tid Case1; Run tid Case1; Run tid Case1;
   Run tid Case1].

(** [Stop()] on [pool_1], run to its end by thread [tid], with the one
    worker [w] taking the shutdown signal in its select and returning. *)
Definition stop_steps (tid w : nat) : list action :=
  [Run tid Case1; Run tid Case1; Run tid Case1;
   Run w Case3; Run w Case1;
   Run tid Case1; Run tid Case1; Run tid Case1; Run tid Case1].

(** The least worker count at which [t.worker * 10] leaves [uint32]. *)
Definition pool_big : StaticThreadPool :=
  {| worker := 429496730; close := make_chan 429496730; wg := 0;
     priorityCh := make_chan 858993460; normalCh := make_chan 2000 |}.

(** *** Further invariants and scenarios *)

(** The queue of a class holds, oldest first, the accepted tasks that no
    worker has received yet, within the capacity it was made with. *)
Definition queue_inv (capacity : bool -> N) (s : State) : Prop :=
  forall u : bool,
    accepted_of u (events s)
    = rev (buf (taskCh u (pool s))) ++ dequeued_of u (events s)
    /\ (N.of_nat (length (buf (taskCh u (pool s))))
        <= cap (taskCh u (pool s)))%N
    /\ cap (taskCh u (pool s)) = capacity u.

(** The goroutine accounts for one unit of the WaitGroup counter: from
    line 45 to the deferred [wg.Done()]. *)
Definition in_wg (l : pc) : nat :=
  match l with
  | Start_go _ _ | Do_select _ | Do_exec _ _ | Do_wgDone _ => 1
  | _ => 0
  end.

Definition wg_inv (s : State) : Prop :=
  wg (pool s) = Z.of_nat (total in_wg (threads s)).

(** The events of a worker between two selects, most recent first:
    tasks received and executed, one after the other; a worker in
    urgent-only mode received them from the priority queue. *)
Fixpoint served (priority : bool) (h : list kind) : Prop :=
  match h with
  | [] => True
  | Execute y :: Dequeue u x :: r =>
      x = y /\ (priority = true -> u = true) /\ served priority r
  | _ => False
  end.

(** The events of a worker at [l]: as above, with the task it is about
    to execute received last. *)
Definition worker_log (l : pc) (h : list kind) : Prop :=
  match l with
  | Do_select p | Do_exec p None | Do_wgDone p | Do_exit p => served p h
  | Do_exec p (Some x) =>
      exists u r,
        h = Dequeue u x :: r /\ (p = true -> u = true) /\ served p r
  | _ => True
  end.

Definition log_inv (s : State) : Prop :=
  forall tid : nat,
    match threads s !! tid with
    | Some l => worker_log l (history tid (events s))
    | None => history tid (events s) = []
    end.

(** The goroutine runs [Do(priority)]. *)
Definition is_do (priority : bool) (l : pc) : bool :=
  match l with
  | Do_select p | Do_exec p _ | Do_wgDone p | Do_exit p =>
      Bool.eqb p priority
  | _ => false
  end.

(** All of these. *)
Definition more_inv (capacity : bool -> N) (s : State) : Prop :=
  queue_inv capacity s /\ wg_inv s /\ log_inv s.

(** [Start()] called on a fresh pool and run on its own for [k]
    iterations of its loop: line 42, then lines 44, 45, 46 [k] times. *)
Fixpoint start_run (k : nat) : list action :=
  match k with
  | O => [Invoke CallStart; Run 0 Case1]
  | S k' => start_run k' ++ [Run 0 Case1; Run 0 Case1; Run 0 Case1]
  end.

(** The workers its first [k] iterations start. *)
Definition workers_started (t : StaticThreadPool) (k : nat) : list pc :=
  map (fun i => Do_select (spawned_mode t (N.of_nat i))) (seq 0 k).

(** [NewStaticThreadPool(10)] of [TestPrioritySchedule]. *)
Definition pool_10 : StaticThreadPool :=
  {| worker := 10; close := make_chan 10; wg := 0;
     priorityCh := make_chan 20; normalCh := make_chan 50000 |}.

End Static.

(** * Proof tactics *)

Ltac to_prop :=
  repeat match goal with
    | H : (_ <? _)%N = true |- _ => apply N.ltb_lt in H
    | H : (_ <? _)%N = false |- _ => apply N.ltb_ge in H
    | H : (_ <? _)%Z = true |- _ => apply Z.ltb_lt in H
    | H : (_ <? _)%Z = false |- _ => apply Z.ltb_ge in H
    | H : (_ =? _)%Z = true |- _ => apply Z.eqb_eq in H
    | H : (_ =? _)%Z = false |- _ => apply Z.eqb_neq in H
    end.

Ltac use_bufs :=
  repeat match goal with
    | H : buf _ = _ |- _ => rewrite H in *; clear H
    end.

Ltac split_ifs :=
  repeat match goal with
    | |- context [if ?b then _ else _] => destruct b eqn:?
    | H : context [if ?b then _ else _] |- _ => destruct b eqn:?
    end.

(** Case analysis on what a step tested, in the hypothesis that it
    succeeded. *)
Ltac split_matches H :=
  repeat (first
            [ match type of H with
              | context [match ?x with _ => _ end] => destruct x eqn:?
              end
            | match type of H with
              | context [mbind _ ?x] => destruct x eqn:?
              end ];
          simpl in H; try discriminate H);
  simplify_eq.

Ltac dynamic_cases H :=
  unfold Dynamic.thread_step, Dynamic.Schedule, Dynamic.tryLaunchWorker,
    Dynamic.workerTask, Dynamic.Stop, Dynamic.next,
    chan_send, chan_recv, chan_close in H;
  simpl in H; split_matches H.

Ltac static_cases H :=
  unfold Static.thread_step, Static.Start, Static.Stop, Static.Schedule,
    Static.Do, Static.Do_receive, Static.Do_close, Static.next,
    chan_send, chan_recv, chan_close, wg_add in H;
  simpl in H; split_matches H.

Ltac flags_tac :=
  unfold Dynamic.thread_ok, Dynamic.once_ok, Dynamic.flags,
    Dynamic.stop_flags, Dynamic.all_open, Dynamic.all_closed,
    Dynamic.waiting_flags in *;
  simpl in *;
  repeat match goal with
    | H : context [match Dynamic.stopOnce ?t with _ => _ end] |- _ =>
        destruct (Dynamic.stopOnce t) eqn:?
    | |- context [match Dynamic.stopOnce ?t with _ => _ end] =>
        destruct (Dynamic.stopOnce t) eqn:?
    end;
  repeat match goal with
    | H : _ /\ _ |- _ => destruct H
    | H : _ \/ _ |- _ => destruct H
    end;
  simplify_eq; simpl in *.

(** * Facts *)

(** ** Lists of threads and event logs *)

Section ListFacts.
Context {A : Type} (w : A -> nat).

Lemma total_app (l1 l2 : list A) :
    total w (l1 ++ l2) = total w l1 + total w l2.
Proof. induction l1 as [|x l1 IH]; simpl; lia. Qed.

Lemma total_insert (l : list A) (i : nat) (x y : A) :
    l !! i = Some x -> total w (<[i := y]> l) + w x = total w l + w y.
Proof.
    revert i. induction l as [|z l IH]; intros [|i] H; simpl in *;
      try discriminate.
    - injection H as ->. lia.
    - specialize (IH _ H). lia.
Qed.

Lemma total_lookup_le (l : list A) (i : nat) (x : A) :
    l !! i = Some x -> w x <= total w l.
Proof.
    revert i. induction l as [|z l IH]; intros [|i] H; simpl in *;
      try discriminate.
    - injection H as ->. lia.
    - specialize (IH _ H). lia.
Qed.

(** Two distinct threads both count. *)
Lemma total_lookup_two (l : list A) (i j : nat) (x y : A) :
    i <> j -> l !! i = Some x -> l !! j = Some y -> w x + w y <= total w l.
Proof.
    revert i j. induction l as [|z l IH]; intros [|i] [|j] Hne Hi Hj;
      simpl in *; try discriminate; try congruence.
    - injection Hi as ->. pose proof (total_lookup_le _ _ _ Hj). lia.
    - injection Hj as ->. pose proof (total_lookup_le _ _ _ Hi). lia.
    - assert (i <> j) by congruence.
      pose proof (IH _ _ H Hi Hj). lia.
Qed.

Lemma total_le (v : A -> nat) (l : list A) :
    (forall x, w x <= v x) -> total w l <= total v l.
Proof. intros H. induction l as [|x l IH]; simpl; [lia|]. specialize (H x). lia. Qed.

(** A positive sum has a positive term. *)
Lemma total_pos (l : list A) :
    0 < total w l -> exists i x, l !! i = Some x /\ 0 < w x.
Proof.
    induction l as [|z l IH]; simpl; [lia|]. intros H.
    destruct (decide (0 < w z)) as [Hz|Hz].
    - exists 0, z. split; [reflexivity|assumption].
    - destruct IH as (i & x & Hi & Hx); [lia|].
      exists (S i), x. split; assumption.
Qed.
End ListFacts.

Lemma occ_app (x : Task) (l1 l2 : list Task) :
  occ x (l1 ++ l2) = occ x l1 + occ x l2.
Proof. induction l1 as [|y l1 IH]; simpl; lia. Qed.

Lemma occ_In (x : Task) (l : list Task) : In x l <-> 0 < occ x l.
Proof.
  induction l as [|y l IH]; simpl; [split; [tauto|lia]|].
  destruct (Nat.eqb_spec y x) as [E|E]; split; intros H;
    try lia; try tauto.
Qed.

Lemma history_tag (tid i : nat) (ks : list kind) (evs : list event) :
  history tid (tag i ks ++ evs)
  = (if Nat.eqb i tid then ks else []) ++ history tid evs.
Proof.
  induction ks as [|k ks IH]; simpl.
  - destruct (Nat.eqb i tid); reflexivity.
  - rewrite IH. destruct (Nat.eqb i tid); reflexivity.
Qed.

(** Where a thread of the next state comes from: it is the one that
    stepped, an untouched one, or a spawned one. *)
Lemma lookup_stepped {A : Type} (l sp : list A) (i j : nat) (y z : A) :
  i < length l ->
  (<[i := y]> l ++ sp) !! j = Some z ->
  (j = i /\ z = y) \/ (j <> i /\ l !! j = Some z)
  \/ (length l <= j /\ sp !! (j - length l) = Some z).
Proof.
  intros Hi H.
  destruct (decide (j < length l)) as [Hj|Hj].
  - rewrite lookup_app_l in H by (rewrite length_insert; lia).
    destruct (decide (j = i)) as [->|Hne].
    + rewrite list_lookup_insert_eq in H by lia. left. split; congruence.
    + rewrite list_lookup_insert_ne in H by congruence. right. left. auto.
  - rewrite lookup_app_r in H by (rewrite length_insert; lia).
    rewrite length_insert in H. right. right. split; [lia|assumption].
Qed.

(** ** The WaitGroup *)

Lemma WaitGroup_Add_Ok (w w' : WaitGroup) (delta : Z) :
  WaitGroup_Add w delta = Ok w' ->
  (0 <= counter w + delta)%Z
  /\ ((counter w' = (counter w + delta)%Z /\ waiters w' = waiters w
       /\ sema w' = sema w
       /\ ((0 < counter w + delta)%Z \/ waiters w = 0))
      \/ ((counter w + delta)%Z = 0%Z /\ waiters w <> 0
          /\ counter w' = 0%Z /\ waiters w' = 0
          /\ sema w' = sema w + waiters w)).
Proof.
  unfold WaitGroup_Add.
  destruct (Z.ltb_spec (counter w + delta) 0); [discriminate|].
  destruct (negb (waiters w =? 0) && (0 <? delta)%Z
            && (counter w + delta =? delta)%Z); [discriminate|].
  destruct (Z.ltb_spec 0 (counter w + delta));
    destruct (Nat.eqb_spec (waiters w) 0); simpl; intros [= <-]; simpl;
    (split; [lia|]); try (left; repeat split; auto; lia).
  right. repeat split; auto; lia.
Qed.

(** An [Add(1)] on a group whose waiters wait for a positive counter. *)
Lemma WaitGroup_Add_one (w : WaitGroup) :
  (0 <= counter w)%Z -> (waiters w <> 0 -> (0 < counter w)%Z) ->
  WaitGroup_Add w 1 = Ok (mkWaitGroup (counter w + 1) (waiters w) (sema w)).
Proof.
  intros H0 Hw. unfold WaitGroup_Add.
  destruct (Z.ltb_spec (counter w + 1) 0); [lia|].
  destruct (Nat.eqb_spec (waiters w) 0) as [E|E]; simpl.
  - destruct (0 <? counter w + 1)%Z; reflexivity.
  - specialize (Hw E).
    destruct (Z.eqb_spec (counter w + 1) 1); [lia|].
    destruct (Z.ltb_spec 0 (counter w + 1)); [reflexivity|lia].
Qed.

(** A [Done()] on a positive counter does not panic. *)
Lemma WaitGroup_Done_Ok (w : WaitGroup) :
  (0 < counter w)%Z -> exists w', WaitGroup_Add w (-1) = Ok w'.
Proof.
  intros H. unfold WaitGroup_Add.
  destruct (Z.ltb_spec (counter w + -1) 0); [lia|].
  rewrite Bool.andb_false_r. simpl.
  destruct (_ || _); eauto.
Qed.

Lemma WaitGroup_Wait_Some (w w' : WaitGroup) :
  WaitGroup_Wait w = Some w' ->
  counter w <> 0%Z /\ counter w' = counter w
  /\ waiters w' = S (waiters w) /\ sema w' = sema w.
Proof.
  unfold WaitGroup_Wait. destruct (Z.eqb_spec (counter w) 0);
    [discriminate|]. intros [= <-]. auto.
Qed.

Lemma WaitGroup_Wait_None (w : WaitGroup) :
  WaitGroup_Wait w = None -> counter w = 0%Z.
Proof.
  unfold WaitGroup_Wait. destruct (Z.eqb_spec (counter w) 0);
    [auto|discriminate].
Qed.

Lemma WaitGroup_resume_Ok (w w' : WaitGroup) :
  WaitGroup_resume w = Ok w' ->
  counter w' = counter w /\ waiters w' = waiters w
  /\ sema w = S (sema w').
Proof.
  unfold WaitGroup_resume. destruct (sema w); [discriminate|].
  intros [= <-]. auto.
Qed.

Lemma WaitGroup_at_rest_true (w : WaitGroup) :
  WaitGroup_at_rest w = true -> counter w = 0%Z /\ waiters w = 0.
Proof.
  unfold WaitGroup_at_rest. intros H.
  apply andb_prop in H as [H1 H2].
  apply Z.eqb_eq in H1. apply Nat.eqb_eq in H2. auto.
Qed.

(** What a step did to the WaitGroup. *)
Ltac wg_facts :=
  repeat match goal with
    | H : WaitGroup_Add _ _ = Ok _ |- _ =>
        apply WaitGroup_Add_Ok in H;
        destruct H as (? & [(? & ? & ? & ?)|(? & ? & ? & ? & ?)])
    | H : WaitGroup_Wait _ = Some _ |- _ =>
        apply WaitGroup_Wait_Some in H; destruct H as (? & ? & ? & ?)
    | H : WaitGroup_Wait _ = None |- _ => apply WaitGroup_Wait_None in H
    | H : WaitGroup_resume _ = Ok _ |- _ =>
        apply WaitGroup_resume_Ok in H; destruct H as (? & ? & ?)
    | H : WaitGroup_at_rest _ = true |- _ =>
        apply WaitGroup_at_rest_true in H; destruct H as (? & ?)
    end.

(** ** Construction *)

(** C5. A zero concurrency parameter yields no pool: [NewStaticThreadPool 0]
    is nil and [NewDynamicThreadPool p n] is nil exactly when [p] or [n] is
    zero; strictly positive parameters yield a pool. *)
Theorem zero_ceiling_rejection :
  Static.NewStaticThreadPool 0 = None
  /\ (forall p n : N,
        Dynamic.NewDynamicThreadPool p n = None <-> p = 0%N \/ n = 0%N)
  /\ (forall count : N,
        (0 < count)%N -> is_Some (Static.NewStaticThreadPool count))
  /\ (forall p n : N,
        (0 < p)%N -> (0 < n)%N -> is_Some (Dynamic.NewDynamicThreadPool p n)).
Proof.
  split; [reflexivity|]. split; [|split].
  - intros p n. unfold Dynamic.NewDynamicThreadPool.
    destruct (N.eqb_spec p 0) as [Hp|Hp]; [tauto|].
    destruct (N.eqb_spec n 0) as [Hn|Hn]; [tauto|].
    split; [discriminate|]. intros [?|?]; contradiction.
  - intros count H. unfold Static.NewStaticThreadPool.
    destruct (N.eqb_spec count 0) as [Hc|Hc]; [lia|]. eexists; reflexivity.
  - intros p n Hp Hn. unfold Dynamic.NewDynamicThreadPool.
    destruct (N.eqb_spec p 0) as [Hp0|Hp0]; [lia|].
    destruct (N.eqb_spec n 0) as [Hn0|Hn0]; [lia|]. eexists; reflexivity.
Qed.

(** The constructions of the test suites: [NewDynamicThreadPool(0, 5)],
    [(5, 0)] and [(2, 3)], [NewStaticThreadPool(1)]. *)
Lemma zero_ceiling_rejection_witness :
  Dynamic.NewDynamicThreadPool 0 5 = None
  /\ Dynamic.NewDynamicThreadPool 5 0 = None
  /\ is_Some (Dynamic.NewDynamicThreadPool 2 3)
  /\ is_Some (Static.NewStaticThreadPool 1).
Proof.
  destruct zero_ceiling_rejection as (_ & Hd & Hs & Hp).
  split; [apply Hd; left; reflexivity|].
  split; [apply Hd; right; reflexivity|].
  split; [apply Hp; reflexivity|apply Hs; reflexivity].
Defined.

(** ** The Elastic pool *)

Module DynamicFacts.
Import Dynamic.

(** *** Reading a step backwards *)

Lemma step_Invoke (s s' : State) (c : call) :
  step s (Invoke c) = Ok s' ->
  s' = mkState (pool s) (threads s ++ [entry c]) (events s).
Proof. simpl. congruence. Qed.

Lemma step_Run (s s' : State) (tid : nat) (c : choice) :
  step s (Run tid c) = Ok s' ->
  exists l t' l' ks sp,
    threads s !! tid = Some l
    /\ thread_step (pool s) c l = Ok (t', l', ks, sp)
    /\ s' = mkState t' (<[tid := l']> (threads s) ++ sp)
              (tag tid ks ++ events s).
Proof.
  unfold step. destruct (threads s !! tid) as [l|] eqn:E; [|discriminate].
  destruct (thread_step (pool s) c l) as [[[[t' l'] ks] sp]| |] eqn:T;
    simpl; try discriminate.
  intros [= <-]. eauto 10.
Qed.

Lemma step_Handoff (s s' : State) (i j : nat) :
  step s (Handoff i j) = Ok s' ->
  exists urgent item,
    threads s !! i = Some (Schedule_select urgent item)
    /\ threads s !! j = Some (worker_select urgent)
    /\ i <> j
    /\ cap (taskCh urgent (pool s)) = 0%N
    /\ closed (taskCh urgent (pool s)) = false
    /\ s' = mkState (pool s)
              (<[j := worker_exec urgent item]>
                 (<[i := tryLaunch_load urgent]> (threads s)))
              (Ev j (Dequeue urgent item)
                 :: Ev i (Accept urgent item) :: events s).
Proof.
  unfold step.
  destruct (threads s !! i) as [[]|] eqn:Ei; try discriminate.
  destruct (threads s !! j) as [[]|] eqn:Ej; try discriminate.
  destruct (bool_decide _) eqn:Eu; simpl; [|discriminate].
  apply bool_decide_eq_true in Eu. subst.
  destruct (N.eqb_spec (cap (taskCh urgent0 (pool s))) 0); simpl;
    [|discriminate].
  destruct (closed (taskCh urgent0 (pool s))) eqn:Ec; simpl; [discriminate|].
  intros [= <-]. exists urgent0, item. repeat split; try assumption.
  intros ->. congruence.
Qed.

(** *** Semaphore slots and the WaitGroup counter *)


Lemma sem_local (t t' : DynamicThreadPool) (c : choice) (l l' : pc)
  (ks : list kind) (sp : list pc) (u : bool) :
  thread_step t c l = Ok (t', l', ks, sp) ->
  holds_slot u l <= length (buf (sem u t)) ->
  (N.of_nat (length (buf (sem u t))) <= cap (sem u t))%N ->
  length (buf (sem u t')) + holds_slot u l
  = length (buf (sem u t)) + holds_slot u l' + total (holds_slot u) sp
  /\ (N.of_nat (length (buf (sem u t'))) <= cap (sem u t'))%N
  /\ cap (sem u t') = cap (sem u t).
Proof.
  intros H Hle Hcap.
  destruct l; dynamic_cases H; to_prop.
  all: try (destruct urgent); destruct u; simpl in *; use_bufs;
    try rewrite length_app; simpl in *;
    (split; [lia|]); split; solve [lia | reflexivity].
Qed.

Lemma sem_inv_step (ceiling : bool -> N) (s s' : State) (a : action) :
  sem_inv ceiling s -> step s a = Ok s' -> sem_inv ceiling s'.
Proof.
  intros I H u. destruct (I u) as (Itot & Icap & Iceil).
  destruct a as [c|tid c|i j].
  - apply step_Invoke in H as ->. simpl. rewrite total_app. simpl.
    destruct c; simpl; (split; [lia|]); split; assumption.
  - apply step_Run in H as (l & t' & l' & ks & sp & Hl & Hstep & ->).
    simpl. rewrite total_app.
    pose proof (total_insert (holds_slot u) _ _ _ l' Hl) as Hins.
    pose proof (total_lookup_le (holds_slot u) _ _ _ Hl) as Hle.
    destruct (sem_local _ _ _ _ _ _ _ u Hstep ltac:(lia) ltac:(lia))
      as (E & C & K).
    split; [lia|]. split; [assumption|congruence].
  - apply step_Handoff in H
      as (urgent & item & Hi & Hj & Hne & _ & _ & ->). simpl.
    assert (Hj' : <[i := tryLaunch_load urgent]> (threads s) !! j
                  = Some (worker_select urgent))
      by (rewrite list_lookup_insert_ne by assumption; assumption).
    pose proof (total_insert (holds_slot u) _ _ _
                  (worker_exec urgent item) Hj') as E1.
    pose proof (total_insert (holds_slot u) _ _ _
                  (tryLaunch_load urgent) Hi) as E2.
    simpl in E1, E2. split; [lia|]. split; assumption.
Qed.

Lemma wg_inv_step (s s' : State) (a : action) :
  wg_inv s -> step s a = Ok s' -> wg_inv s'.
Proof.
  unfold wg_inv. intros (Ic & Iw & Ip) H. destruct a as [c|tid c|i j].
  - apply step_Invoke in H as ->. simpl. rewrite !total_app. simpl.
    destruct c; simpl; (split; [lia|]); (split; [lia|assumption]).
  - apply step_Run in H as (l & t' & l' & ks & sp & Hl & Hstep & ->).
    simpl. rewrite !total_app.
    pose proof (total_insert in_wg _ _ _ l' Hl) as Hins.
    pose proof (total_insert parked _ _ _ l' Hl) as Hpk.
    pose proof (total_lookup_le in_wg _ _ _ Hl) as Hle.
    pose proof (total_lookup_le parked _ _ _ Hl) as Hlp.
    destruct l; dynamic_cases Hstep; wg_facts;
      try (destruct urgent); simpl in *; (split; [lia|]);
      (split; [lia|]); try assumption; intros; lia.
  - apply step_Handoff in H
      as (urgent & item & Hi & Hj & Hne & _ & _ & ->). simpl.
    assert (Hj' : <[i := tryLaunch_load urgent]> (threads s) !! j
                  = Some (worker_select urgent))
      by (rewrite list_lookup_insert_ne by assumption; assumption).
    pose proof (total_insert in_wg _ _ _ (worker_exec urgent item) Hj').
    pose proof (total_insert in_wg _ _ _ (tryLaunch_load urgent) Hi).
    pose proof (total_insert parked _ _ _ (worker_exec urgent item) Hj').
    pose proof (total_insert parked _ _ _ (tryLaunch_load urgent) Hi).
    simpl in *. (split; [lia|]); (split; [lia|assumption]).
Qed.

(** *** Every accepted task is in one place *)


Lemma task_inv_step (s s' : State) (a : action) :
  task_inv s -> step s a = Ok s' -> task_inv s'.
Proof.
  intros I H x. specialize (I x). destruct a as [c|tid c|i j].
  - apply step_Invoke in H as ->. simpl. rewrite total_app. simpl.
    destruct c; simpl; lia.
  - apply step_Run in H as (l & t' & l' & ks & sp & Hl & Hstep & ->).
    simpl. rewrite total_app.
    pose proof (total_insert (running x) _ _ _ l' Hl) as Hins.
    destruct l; dynamic_cases Hstep;
      try (destruct urgent); unfold tag; simpl in *; use_bufs;
      rewrite ?occ_app; simpl in *; split_ifs; lia.
  - apply step_Handoff in H
      as (urgent & item & Hi & Hj & Hne & _ & _ & ->). simpl.
    assert (Hj' : <[i := tryLaunch_load urgent]> (threads s) !! j
                  = Some (worker_select urgent))
      by (rewrite list_lookup_insert_ne by assumption; assumption).
    pose proof (total_insert (running x) _ _ _
                  (worker_exec urgent item) Hj').
    pose proof (total_insert (running x) _ _ _
                  (tryLaunch_load urgent) Hi).
    simpl in *. split_ifs; lia.
Qed.

(** *** The progress of Stop *)

Lemma stop_local_me (t t' : DynamicThreadPool) (c : choice) (l l' : pc)
  (ks : list kind) (sp : list pc) (B P : nat) :
  thread_step t c l = Ok (t', l', ks, sp) ->
  thread_ok t l ->
  once_ok t B P ->
  in_stop_body l <= B ->
  stop_panicked l <= P ->
  thread_ok t' l'
  /\ once_ok t' (B + in_stop_body l' - in_stop_body l)
       (P + stop_panicked l' - stop_panicked l)
  /\ (forall l0, In l0 sp ->
        thread_ok t' l0 /\ in_stop_body l0 = 0 /\ stop_panicked l0 = 0).
Proof.
  intros H Hme Honce HB HP.
  destruct l; dynamic_cases H; try (destruct urgent).
  all: split; [|split; [|intros l0 Hin; simpl in Hin; intuition (subst; done)]].
  all: flags_tac; try done; repeat split; try congruence; try lia.
  all: try solve [left; split; [lia|congruence]].
  all: try solve [right; split; [lia|congruence]].
Qed.

Lemma stop_local_others (t t' : DynamicThreadPool) (c : choice) (l l' : pc)
  (ks : list kind) (sp : list pc) (B P : nat) (l0 : pc) :
  thread_step t c l = Ok (t', l', ks, sp) ->
  thread_ok t l ->
  once_ok t B P ->
  thread_ok t l0 ->
  in_stop_body l + in_stop_body l0 <= B ->
  thread_ok t' l0.
Proof.
  intros H Hme Honce H0 HB.
  destruct l0; try exact I.
  all: destruct l; dynamic_cases H; try (destruct urgent).
  all: flags_tac; try done; try lia; try (split; congruence).
Qed.

Lemma stop_local_log (t t' : DynamicThreadPool) (c : choice) (l l' : pc)
  (ks : list kind) (sp : list pc) (tid : nat) (evs : list event) :
  thread_step t c l = Ok (t', l', ks, sp) ->
  thread_ok t l ->
  stoppings (tag tid ks ++ evs) + (if isStopped t then 1 else 0)
  = stoppings evs + (if isStopped t' then 1 else 0).
Proof.
  intros H Hme.
  destruct l; dynamic_cases H; try (destruct urgent).
  all: unfold tag; flags_tac; split_ifs; try done; try lia; try congruence.
Qed.

Lemma stop_inv_step (s s' : State) (a : action) :
  stop_inv s -> step s a = Ok s' -> stop_inv s'.
Proof.
  intros (Ionce & Iok & Ilog) H. destruct a as [c|tid c|i j].
  - apply step_Invoke in H as ->. unfold stop_inv in *. simpl.
    rewrite !total_app. simpl. split; [|split; [|assumption]].
    + destruct c; simpl; rewrite !Nat.add_0_r; assumption.
    + intros tid l Hlk. apply lookup_app_Some in Hlk as [Hlk|[_ Hlk]];
        [eauto|].
      apply list_lookup_singleton_Some in Hlk as [_ <-].
      destruct c; exact I.
  - apply step_Run in H as (l & t' & l' & ks & sp & Hl & Hstep & ->).
    pose proof (Iok _ _ Hl) as Hme.
    pose proof (total_insert in_stop_body _ _ _ l' Hl) as Hins.
    pose proof (total_lookup_le in_stop_body _ _ _ Hl) as Hle.
    pose proof (total_insert stop_panicked _ _ _ l' Hl) as Hins'.
    pose proof (total_lookup_le stop_panicked _ _ _ Hl) as Hle'.
    destruct (stop_local_me _ _ _ _ _ _ _ _ _ Hstep Hme Ionce Hle Hle')
      as (Hme' & Honce' & Hsp).
    unfold stop_inv. simpl. split; [|split].
    + rewrite !total_app.
      replace (total in_stop_body sp) with 0.
      * replace (total stop_panicked sp) with 0.
        -- replace (total in_stop_body (<[tid:=l']> (threads s)) + 0)
             with (total in_stop_body (threads s) + in_stop_body l'
                   - in_stop_body l) by lia.
           replace (total stop_panicked (<[tid:=l']> (threads s)) + 0)
             with (total stop_panicked (threads s) + stop_panicked l'
                   - stop_panicked l) by lia.
           assumption.
        -- clear - Hsp. induction sp as [|x sp IH]; [reflexivity|]. simpl.
           destruct (Hsp x (or_introl eq_refl)) as (_ & _ & ->).
           apply IH. intros l0 Hin. apply Hsp. right. assumption.
      * clear - Hsp. induction sp as [|x sp IH]; [reflexivity|]. simpl.
        destruct (Hsp x (or_introl eq_refl)) as (_ & -> & _).
        apply IH. intros l0 Hin. apply Hsp. right. assumption.
    + intros j l0 Hlk.
      apply lookup_stepped in Hlk
        as [(-> & ->)|[(Hne & Hold)|(Hge & Hnew)]];
        [assumption| |apply Hsp; apply list_elem_of_In; eapply list_elem_of_lookup_2; eassumption|eapply lookup_lt_Some; eassumption].
      eapply stop_local_others; [exact Hstep|exact Hme|exact Ionce|eauto|].
      apply (total_lookup_two in_stop_body _ tid j); auto.
    + pose proof (stop_local_log _ _ _ _ _ _ _ tid (events s) Hstep Hme).
      destruct (isStopped (pool s)), (isStopped t'); lia.
  - apply step_Handoff in H
      as (urgent & item & Hi & Hj & Hne & _ & _ & ->).
    unfold stop_inv. simpl. split; [|split; [|assumption]].
    + assert (Hj' : <[i := tryLaunch_load urgent]> (threads s) !! j
                  = Some (worker_select urgent))
        by (rewrite list_lookup_insert_ne by assumption; assumption).
      pose proof (total_insert in_stop_body _ _ _
                    (worker_exec urgent item) Hj') as E1.
      pose proof (total_insert in_stop_body _ _ _
                    (tryLaunch_load urgent) Hi) as E2.
      pose proof (total_insert stop_panicked _ _ _
                    (worker_exec urgent item) Hj') as E3.
      pose proof (total_insert stop_panicked _ _ _
                    (tryLaunch_load urgent) Hi) as E4.
      simpl in E1, E2, E3, E4.
      replace (total in_stop_body
                 (<[j:=worker_exec urgent item]>
                    (<[i:=tryLaunch_load urgent]> (threads s))))
        with (total in_stop_body (threads s)) by lia.
      replace (total stop_panicked
                 (<[j:=worker_exec urgent item]>
                    (<[i:=tryLaunch_load urgent]> (threads s))))
        with (total stop_panicked (threads s)) by lia.
      assumption.
    + intros k l0 Hlk.
      destruct (decide (k = j)) as [->|Hkj].
      * rewrite list_lookup_insert_eq in Hlk
          by (rewrite length_insert; eapply lookup_lt_Some; eassumption).
        injection Hlk as <-. exact I.
      * rewrite list_lookup_insert_ne in Hlk by congruence.
        destruct (decide (k = i)) as [->|Hki].
        -- rewrite list_lookup_insert_eq in Hlk
             by (eapply lookup_lt_Some; eassumption).
           injection Hlk as <-. exact I.
        -- rewrite list_lookup_insert_ne in Hlk by congruence. eauto.
Qed.


(** *** What a worker did *)

Lemma timeline_tag (tid i : nat) (ks : list kind) (evs : list event) :
  timeline tid (tag i ks ++ evs)
  = timeline tid evs ++ (if Nat.eqb i tid then rev ks else []).
Proof.
  unfold timeline. rewrite history_tag, rev_app_distr.
  destruct (Nat.eqb i tid); reflexivity.
Qed.

Lemma hist_local_me (t t' : DynamicThreadPool) (c : choice) (l l' : pc)
  (ks : list kind) (sp : list pc) (h : list kind) :
  thread_step t c l = Ok (t', l', ks, sp) ->
  (forall u, holds_slot u l <= length (buf (sem u t))) ->
  worker_trace l h ->
  worker_trace l' (h ++ rev ks).
Proof.
  intros H Hslot Hh.
  destruct l; dynamic_cases H; try (destruct urgent).
  all: simpl in *; try done.
  all: try (pose proof (Hslot true) as Ht; pose proof (Hslot false) as Hf;
            simpl in Ht, Hf; use_bufs; simpl in *; lia).
  all: try subst h; try (destruct Hh as [->|[x ->]]); simpl; eauto.
Qed.

Lemma hist_local_spawn (t t' : DynamicThreadPool) (c : choice) (l l' : pc)
  (ks : list kind) (sp : list pc) (l0 : pc) :
  thread_step t c l = Ok (t', l', ks, sp) ->
  In l0 sp -> worker_trace l0 [].
Proof.
  intros H Hin.
  destruct l; dynamic_cases H; simpl in Hin; intuition (subst; done).
Qed.

Lemma hist_inv_step (ceiling : bool -> N) (s s' : State) (a : action) :
  hist_inv s -> sem_inv ceiling s -> step s a = Ok s' -> hist_inv s'.
Proof.
  intros Hinv Isem H tid0. destruct a as [c|tid c|i j].
  - apply step_Invoke in H as ->. simpl. specialize (Hinv tid0).
    destruct (decide (tid0 < length (threads s))) as [Hlt|Hge].
    + rewrite lookup_app_l by assumption. assumption.
    + rewrite lookup_ge_None_2 in Hinv by lia.
      rewrite lookup_app_r by lia. rewrite Hinv.
      destruct (tid0 - length (threads s)) as [|k]; simpl.
      * destruct c; exact I.
      * reflexivity.
  - apply step_Run in H as (l & t' & l' & ks & sp & Hl & Hstep & ->).
    simpl. rewrite timeline_tag.
    assert (Hslot : forall u, holds_slot u l <= length (buf (sem u (pool s)))).
    { intros u. destruct (Isem u) as (<- & _).
      eapply total_lookup_le. eassumption. }
    pose proof (lookup_lt_Some _ _ _ Hl) as Hlen.
    destruct (Nat.eqb_spec tid tid0) as [<-|Hne].
    + rewrite lookup_app_l by (rewrite length_insert; assumption).
      rewrite list_lookup_insert_eq by assumption.
      pose proof (Hinv tid) as Itid. rewrite Hl in Itid.
      eapply hist_local_me; eauto.
    + rewrite app_nil_r. specialize (Hinv tid0).
      destruct (decide (tid0 < length (threads s))) as [Hlt|Hge].
      * rewrite lookup_app_l by (rewrite length_insert; assumption).
        rewrite list_lookup_insert_ne by assumption. assumption.
      * rewrite lookup_ge_None_2 in Hinv by lia.
        rewrite lookup_app_r by (rewrite length_insert; lia). rewrite Hinv.
        destruct (sp !! _) as [l0|] eqn:Hsp; [|reflexivity].
        eapply hist_local_spawn; [exact Hstep|].
        apply list_elem_of_In. eapply list_elem_of_lookup_2. eassumption.
  - apply step_Handoff in H
      as (urgent & item & Hi & Hj & Hne & _ & _ & ->).
    pose proof (Hinv tid0) as It. unfold timeline in *. simpl.
    destruct (Nat.eqb_spec j tid0) as [<-|Hj0].
    + rewrite list_lookup_insert_eq
        by (rewrite length_insert; eapply lookup_lt_Some; eassumption).
      destruct (Nat.eqb_spec i j) as [|_]; [congruence|].
      rewrite Hj in It. simpl in *. rewrite It. reflexivity.
    + rewrite list_lookup_insert_ne by assumption.
      destruct (Nat.eqb_spec i tid0) as [<-|Hi0].
      * rewrite list_lookup_insert_eq
          by (eapply lookup_lt_Some; eassumption).
        exact I.
      * rewrite list_lookup_insert_ne by assumption. assumption.
Qed.


(** *** A stopped pool takes no new task *)

Lemma stopped_local (t t' : DynamicThreadPool) (c : choice) (l l' : pc)
  (ks : list kind) (sp : list pc) :
  thread_step t c l = Ok (t', l', ks, sp) ->
  isStopped t = true -> isStopped t' = true.
Proof.
  intros H Hs. destruct l; dynamic_cases H; try (destruct urgent);
    simpl; congruence.
Qed.

Lemma stopped_step (s s' : State) (a : action) :
  isStopped (pool s) = true -> step s a = Ok s' ->
  isStopped (pool s') = true.
Proof.
  intros Hs H. destruct a as [c|tid c|i j].
  - apply step_Invoke in H as ->. assumption.
  - apply step_Run in H as (l & t' & l' & ks & sp & Hl & Hstep & ->).
    simpl. eapply stopped_local; eassumption.
  - apply step_Handoff in H as (? & ? & _ & _ & _ & _ & _ & ->). assumption.
Qed.

Lemma rejected_step (tid : nat) (u : bool) (x : Task) (s s' : State)
  (a : action) :
  rejected tid u x s -> step s a = Ok s' -> rejected tid u x s'.
Proof.
  intros (Hs & Hat & Hh) H.
  split; [eapply stopped_step; eassumption|].
  assert (Hlt : tid < length (threads s))
    by (destruct Hat as [Hat|Hat]; eapply lookup_lt_Some; eassumption).
  destruct a as [c|i c|i j].
  - apply step_Invoke in H as ->. simpl.
    rewrite lookup_app_l by assumption. auto.
  - apply step_Run in H as (l & t' & l' & ks & sp & Hl & Hstep & ->).
    simpl. rewrite history_tag, Hh, app_nil_r.
    rewrite lookup_app_l by (rewrite length_insert; assumption).
    destruct (Nat.eqb_spec i tid) as [->|Hne].
    + rewrite list_lookup_insert_eq by assumption.
      destruct Hat as [Hat|Hat]; rewrite Hat in Hl; injection Hl as <-;
        dynamic_cases Hstep; auto.
    + rewrite list_lookup_insert_ne by assumption. auto.
  - apply step_Handoff in H
      as (urgent & item & Hi & Hj & Hne & _ & _ & ->). simpl.
    assert (i <> tid) by (intros ->; destruct Hat; congruence).
    assert (j <> tid) by (intros ->; destruct Hat; congruence).
    destruct (Nat.eqb_spec j tid); [congruence|].
    destruct (Nat.eqb_spec i tid); [congruence|].
    rewrite !list_lookup_insert_ne by assumption. auto.
Qed.

Lemma absent_step (x : Task) (s s' : State) (a : action) :
  isStopped (pool s) = true -> absent x s -> step s a = Ok s' ->
  absent x s'.
Proof.
  intros Hs (Hp & Hn & Hc & He) H. unfold absent.
  destruct a as [c|i c|i j].
  - apply step_Invoke in H as ->. simpl. rewrite total_app. simpl.
    destruct c; simpl; repeat split; lia.
  - apply step_Run in H as (l & t' & l' & ks & sp & Hl & Hstep & ->).
    simpl. rewrite total_app.
    pose proof (total_insert (carries x) _ _ _ l' Hl) as Hins.
    destruct l; dynamic_cases Hstep;
      try (destruct urgent); unfold tag; simpl in *; use_bufs;
      rewrite ?occ_app; simpl in *; split_ifs;
      repeat split; try lia; try congruence.
  - apply step_Handoff in H
      as (urgent & item & Hi & Hj & Hne & _ & _ & ->). simpl.
    assert (Hj' : <[i := tryLaunch_load urgent]> (threads s) !! j
                  = Some (worker_select urgent))
      by (rewrite list_lookup_insert_ne by assumption; assumption).
    pose proof (total_insert (carries x) _ _ _
                  (worker_exec urgent item) Hj').
    pose proof (total_insert (carries x) _ _ _
                  (tryLaunch_load urgent) Hi).
    simpl in *. split_ifs; repeat split; lia.
Qed.

(** *** The invariants hold in every reachable state *)

Lemma invariant_initial (p n : N) (t0 : DynamicThreadPool) :
  NewDynamicThreadPool p n = Some t0 ->
  invariant (fun u : bool => if u then p else n) (initial t0).
Proof.
  unfold NewDynamicThreadPool. intros H.
  destruct (p =? 0)%N; [discriminate|].
  destruct (n =? 0)%N; [discriminate|].
  injection H as <-.
  split; [|split; [|split; [|split]]].
  - intros [|]; simpl; (split; [reflexivity|]); split; solve [lia|reflexivity].
  - split; [reflexivity|]. split; [reflexivity|]. simpl. intros; lia.
  - intros x. reflexivity.
  - split; [repeat split|]. split; [|reflexivity].
    intros tid l Hl. simpl in Hl. destruct tid; discriminate.
  - intros tid. reflexivity.
Qed.

Lemma invariant_step (ceiling : bool -> N) (s s' : State) (a : action) :
  invariant ceiling s -> step s a = Ok s' -> invariant ceiling s'.
Proof.
  intros (Hsem & Hwg & Htask & Hstop & Hhist) H.
  split; [eapply sem_inv_step; eassumption|].
  split; [eapply wg_inv_step; eassumption|].
  split; [eapply task_inv_step; eassumption|].
  split; [eapply stop_inv_step; eassumption|].
  eapply hist_inv_step; eassumption.
Qed.

(** A property every step keeps holds along a run. *)
Lemma run_preserves (P : State -> Prop) :
  (forall s s' a, P s -> step s a = Ok s' -> P s') ->
  forall acts s s', P s -> run s acts = Ok s' -> P s'.
Proof.
  intros Hstep acts. induction acts as [|a acts IH]; intros s s' HP H;
    simpl in H.
  - injection H as <-. assumption.
  - destruct (step s a) as [s1| |] eqn:E; try discriminate.
    eapply IH; [|eassumption]. eapply Hstep; eassumption.
Qed.

Lemma invariant_run (p n : N) (t0 : DynamicThreadPool)
  (acts : list action) (s : State) :
  NewDynamicThreadPool p n = Some t0 ->
  run (initial t0) acts = Ok s ->
  invariant (fun u : bool => if u then p else n) s.
Proof.
  intros Hnew H.
  eapply (run_preserves (invariant _)); [|eapply invariant_initial|];
    eauto using invariant_step.
Qed.

(** *** Capacity and materialization *)

Lemma executing_le_holds (u : bool) (l : pc) : executing u l <= holds_slot u l.
Proof. destruct l; simpl; lia. Qed.

(** C1. Elastic pool: in every state of every run, the workers inside
    [Execute()] of a class are at most the ceiling of the class.  They are
    among the goroutines that hold a slot of the class's semaphore, these
    are as many as the slots taken, and the slots taken never exceed the
    capacity, which is the ceiling. *)
Theorem capacity_bound (maxP maxN : N) (t0 : DynamicThreadPool)
  (acts : list action) (s : State) (urgent : bool) :
  NewDynamicThreadPool maxP maxN = Some t0 ->
  run (initial t0) acts = Ok s ->
  (N.of_nat (total (executing urgent) (threads s))
   <= (if urgent then maxP else maxN))%N
  /\ total (executing urgent) (threads s)
     <= total (holds_slot urgent) (threads s)
  /\ total (holds_slot urgent) (threads s)
     = length (buf (sem urgent (pool s)))
  /\ (N.of_nat (length (buf (sem urgent (pool s))))
      <= cap (sem urgent (pool s)))%N
  /\ cap (sem urgent (pool s)) = (if urgent then maxP else maxN).
Proof.
  intros Hnew Hrun.
  destruct (invariant_run _ _ _ _ _ Hnew Hrun) as (Hsem & _).
  destruct (Hsem urgent) as (Htot & Hcap & Hceil).
  pose proof (total_le (executing urgent) (holds_slot urgent) (threads s)
                (executing_le_holds urgent)) as Hle.
  split; [|split; [|split; [|split]]]; try assumption. lia.
Qed.

(** An urgent task is scheduled on a pool with ceilings (1, 1) and its
    worker is inside [Execute()]. *)
Lemma capacity_bound_witness :
  exists s,
    NewDynamicThreadPool 1 1 = Some pool_1_1
    /\ run (initial pool_1_1)
         (Invoke (CallSchedule true 7) :: schedule_steps 0
            ++ [Run 1 Case2]) = Ok s
    /\ total (executing true) (threads s) = 1
    /\ (N.of_nat (total (executing true) (threads s)) <= 1)%N.
Proof.
  eexists.
  assert (Hnew : NewDynamicThreadPool 1 1 = Some pool_1_1) by reflexivity.
  split; [exact Hnew|].
  match goal with |- ?R /\ _ => assert (Hrun : R) by (vm_compute; reflexivity) end.
  split; [exact Hrun|]. split; [reflexivity|].
  exact (proj1 (capacity_bound 1 1 _ _ _ true Hnew Hrun)).
Defined.

(** A step forwards. *)
Lemma step_Run_eq (s : State) (tid : nat) (c : choice) (l l' : pc)
  (t' : DynamicThreadPool) (ks : list kind) (sp : list pc) :
  threads s !! tid = Some l ->
  thread_step (pool s) c l = Ok (t', l', ks, sp) ->
  step s (Run tid c)
  = Ok (mkState t' (<[tid := l']> (threads s) ++ sp)
          (tag tid ks ++ events s)).
Proof. intros Hl H. unfold step. rewrite Hl, H. reflexivity. Qed.

Lemma run_cons (s s1 : State) (a : action) (rest : list action) :
  step s a = Ok s1 -> run s (a :: rest) = run s1 rest.
Proof. intros H. simpl. rewrite H. reflexivity. Qed.

(** Until line 179 has run nothing is closed. *)
Lemma open_while_running (s : State) :
  stop_inv s -> isStopped (pool s) = false -> flags (pool s) = all_open.
Proof.
  intros (Honce & Hok & _) Hs. unfold once_ok in Honce.
  destruct (stopOnce (pool s)) eqn:E.
  - apply Honce.
  - destruct Honce as (Hb & _).
    destruct (total_pos in_stop_body (threads s)) as (i & l & Hl & Hpos);
      [lia|].
    specialize (Hok _ _ Hl).
    destruct l; simpl in Hpos; try lia; flags_tac; congruence.
  - destruct Honce as (_ & [(_ & Hf)|(_ & Hf)]);
      unfold flags, all_closed, waiting_flags in Hf; congruence.
Qed.

(** A launcher that passes its check and finds a free slot, run without
    interruption: lines 99, 104, 105, 106, 107 (resp. 113-120). *)
Lemma launcher_run (s : State) (tid : nat) (urgent : bool) (c : choice) :
  threads s !! tid = Some (tryLaunch_load urgent) ->
  isStopped (pool s) = false ->
  closed (sem urgent (pool s)) = false ->
  (N.of_nat (length (buf (sem urgent (pool s))))
   < cap (sem urgent (pool s)))%N ->
  (0 <= counter (wg (pool s)))%Z ->
  (waiters (wg (pool s)) <> 0 -> (0 < counter (wg (pool s)))%Z) ->
  run s [Run tid c; Run tid c; Run tid c; Run tid c; Run tid c]
  = Ok (mkState
          (set_wg
             (mkWaitGroup (counter (wg (pool s)) + 1)
                (waiters (wg (pool s))) (sema (wg (pool s))))
             (set_workerCount (uint32 (workerCount (pool s) + 1))
                (set_sem urgent
                   (mkChan (buf (sem urgent (pool s)) ++ [()])
                      (cap (sem urgent (pool s))) false)
                   (pool s))))
          (<[tid := Schedule_ret true]> (threads s)
             ++ [worker_select urgent])
          (events s)).
Proof.
  intros Hl Hs Hc Hlt Hw0 Hww.
  pose proof (lookup_lt_Some _ _ _ Hl) as Hlen.
  assert (Hat : forall (l0 : list pc) (x : pc),
             length l0 = length (threads s) ->
             (<[tid := x]> l0 ++ []) !! tid = Some x).
  { intros l0 x Hl0. rewrite app_nil_r.
    apply list_lookup_insert_eq. lia. }
  assert (Hlen' : forall (l0 : list pc) (x : pc),
             length l0 = length (threads s) ->
             length (<[tid := x]> l0 ++ []) = length (threads s)).
  { intros l0 x Hl0. rewrite app_nil_r, length_insert. assumption. }
  apply N.ltb_lt in Hlt.
  erewrite run_cons;
    [|eapply step_Run_eq;
      [exact Hl|simpl; unfold tryLaunchWorker; rewrite Hs; reflexivity]].
  erewrite run_cons;
    [|eapply step_Run_eq;
      [apply Hat; reflexivity
      |simpl; unfold chan_send; simpl; rewrite Hc, Hlt; reflexivity]].
  erewrite run_cons;
    [|eapply step_Run_eq; [apply Hat, Hlen'; reflexivity|reflexivity]].
  erewrite run_cons;
    [|eapply step_Run_eq;
      [apply Hat, Hlen', Hlen'; reflexivity
      |simpl;
       replace (wg (set_sem urgent _ (pool s))) with (wg (pool s))
         by (destruct urgent; reflexivity);
       rewrite WaitGroup_Add_one by assumption; reflexivity]].
  erewrite run_cons;
    [|eapply step_Run_eq;
      [apply Hat, Hlen', Hlen', Hlen'; reflexivity|reflexivity]].
  simpl. rewrite !app_nil_r, !list_insert_insert_eq.
  destruct urgent; reflexivity.
Qed.

(** C8. Elastic pool, worker materialization (lines 98-122).  A launcher
    that finds the pool stopped at its check returns without any effect:
    the pool (so both semaphores) and the events are as before and no
    goroutine is added.  Otherwise it goes on to the send on the
    semaphore of its class.  The goroutines that hold a slot of the class
    are never more than its ceiling; the send panics on a closed
    semaphore, waits while the holders are as many as the ceiling, and
    otherwise completes, appending exactly one slot: the holders are one
    more and still within the ceiling, and the other semaphore is
    untouched.  Only the [go] statement adds the one worker of the
    class.  A launcher that finds the pool not stopped and the holders
    below the ceiling, run without interruption, ends having taken one
    slot, counted one worker in [workerCount] and in the WaitGroup and
    started one worker of its class. *)
Theorem materialization (maxP maxN : N) (t0 : DynamicThreadPool)
  (acts : list action) (s : State) (tid : nat) (urgent : bool)
  (c : choice) :
  NewDynamicThreadPool maxP maxN = Some t0 ->
  run (initial t0) acts = Ok s ->
  (threads s !! tid = Some (tryLaunch_load urgent) ->
   isStopped (pool s) = true ->
   step s (Run tid c)
   = Ok (mkState (pool s) (<[tid := Schedule_ret true]> (threads s) ++ [])
           (events s)))
  /\ (threads s !! tid = Some (tryLaunch_load urgent) ->
      isStopped (pool s) = false ->
      step s (Run tid c)
      = Ok (mkState (pool s)
              (<[tid := tryLaunch_acquire urgent]> (threads s) ++ [])
              (events s)))
  /\ (N.of_nat (total (holds_slot urgent) (threads s))
      <= (if urgent then maxP else maxN))%N
  /\ (threads s !! tid = Some (tryLaunch_acquire urgent) ->
      step s (Run tid c)
      = if closed (sem urgent (pool s)) then Panic SendOnClosedChannel
        else if (N.of_nat (total (holds_slot urgent) (threads s))
                 <? (if urgent then maxP else maxN))%N
        then Ok (mkState
                   (set_sem urgent
                      (mkChan (buf (sem urgent (pool s)) ++ [()])
                         (if urgent then maxP else maxN) false)
                      (pool s))
                   (<[tid := tryLaunch_count urgent]> (threads s) ++ [])
                   (events s))
        else Blocked)
  /\ (threads s !! tid = Some (tryLaunch_acquire urgent) ->
      forall s', step s (Run tid c) = Ok s' ->
        buf (sem urgent (pool s')) = buf (sem urgent (pool s)) ++ [()]
        /\ total (holds_slot urgent) (threads s')
           = S (total (holds_slot urgent) (threads s))
        /\ (N.of_nat (length (buf (sem urgent (pool s'))))
            <= (if urgent then maxP else maxN))%N
        /\ sem (negb urgent) (pool s') = sem (negb urgent) (pool s)
        /\ threads s'
           = <[tid := tryLaunch_count urgent]> (threads s) ++ [])
  /\ (threads s !! tid = Some (tryLaunch_go urgent) ->
      step s (Run tid c)
      = Ok (mkState (pool s)
              (<[tid := Schedule_ret true]> (threads s)
                 ++ [worker_select urgent])
              (events s)))
  /\ (threads s !! tid = Some (tryLaunch_load urgent) ->
      isStopped (pool s) = false ->
      (N.of_nat (total (holds_slot urgent) (threads s))
       < (if urgent then maxP else maxN))%N ->
      exists s',
        run s [Run tid c; Run tid c; Run tid c; Run tid c; Run tid c]
        = Ok s'
        /\ threads s'
           = <[tid := Schedule_ret true]> (threads s)
               ++ [worker_select urgent]
        /\ buf (sem urgent (pool s')) = buf (sem urgent (pool s)) ++ [()]
        /\ sem (negb urgent) (pool s') = sem (negb urgent) (pool s)
        /\ workerCount (pool s') = uint32 (workerCount (pool s) + 1)
        /\ counter (wg (pool s')) = (counter (wg (pool s)) + 1)%Z
        /\ events s' = events s).
Proof.
  intros Hnew Hrun.
  pose proof (invariant_run _ _ _ _ _ Hnew Hrun)
    as (Hsem & (Hwc & _ & Hww) & _ & Hstop & _).
  destruct (Hsem urgent) as (Htot & Hcap & Hceil).
  assert (Hsend : threads s !! tid = Some (tryLaunch_acquire urgent) ->
    step s (Run tid c)
    = if closed (sem urgent (pool s)) then Panic SendOnClosedChannel
      else if (N.of_nat (total (holds_slot urgent) (threads s))
               <? (if urgent then maxP else maxN))%N
      then Ok (mkState
                 (set_sem urgent
                    (mkChan (buf (sem urgent (pool s)) ++ [()])
                       (if urgent then maxP else maxN) false)
                    (pool s))
                 (<[tid := tryLaunch_count urgent]> (threads s) ++ [])
                 (events s))
      else Blocked).
  { intros Hl. unfold step. rewrite Hl. simpl. unfold chan_send.
    rewrite Htot, Hceil.
    destruct (closed (sem urgent (pool s))) eqn:Hc; [reflexivity|].
    destruct (_ <? _)%N; reflexivity. }
  split; [|split; [|split; [|split; [|split; [|split]]]]].
  - intros Hl Hs. unfold step. rewrite Hl. simpl.
    unfold tryLaunchWorker. rewrite Hs. reflexivity.
  - intros Hl Hs. unfold step. rewrite Hl. simpl.
    unfold tryLaunchWorker. rewrite Hs. reflexivity.
  - lia.
  - exact Hsend.
  - intros Hl s' Hstep. rewrite (Hsend Hl) in Hstep.
    destruct (closed (sem urgent (pool s))); [discriminate|].
    destruct (N.ltb_spec (N.of_nat (total (holds_slot urgent) (threads s)))
                (if urgent then maxP else maxN)); [|discriminate].
    injection Hstep as <-. simpl.
    pose proof (total_insert (holds_slot urgent) _ _ _
                  (tryLaunch_count urgent) Hl) as Hins.
    rewrite total_app. simpl in Hins. rewrite Bool.eqb_reflx in Hins.
    clear Hsend.
    destruct urgent; simpl in *; rewrite ?length_app; simpl;
      repeat split; lia.
  - intros Hl. unfold step. rewrite Hl. reflexivity.
  - intros Hl Hs Hlt.
    pose proof (open_while_running _ Hstop Hs) as Hopen.
    assert (Hc : closed (sem urgent (pool s)) = false).
    { unfold flags, all_open in Hopen. destruct urgent; simpl; congruence. }
    pose proof (lookup_lt_Some _ _ _ Hl) as Hlen.
    assert (Hat : forall (l0 : list pc) (x : pc),
               length l0 = length (threads s) ->
               (<[tid := x]> l0 ++ []) !! tid = Some x).
    { intros l0 x Hl0. rewrite app_nil_r.
      apply list_lookup_insert_eq. lia. }
    assert (Hlen' : forall (l0 : list pc) (x : pc),
               length l0 = length (threads s) ->
               length (<[tid := x]> l0 ++ []) = length (threads s)).
    { intros l0 x Hl0. rewrite app_nil_r, length_insert. assumption. }
    eexists. split.
    + apply (launcher_run s tid urgent c Hl Hs Hc);
        [rewrite <- Htot, Hceil; exact Hlt|lia|assumption].
    + simpl. destruct urgent; repeat split.
Qed.

(** On a pool with ceilings (1, 1).  The launcher of an urgent task finds
    the pool running and no slot taken: it takes the one slot and starts
    the one worker.  A launcher that finds the pool stopped (the task was
    enqueued, then [Stop] marked the pool stopped) leaves the semaphore
    and the goroutines as they were. *)
Lemma materialization_witness :
  (exists s,
     run (initial pool_1_1)
       [Invoke (CallSchedule true 7); Run 0 Case1; Run 0 Case1] = Ok s
     /\ threads s !! 0 = Some (tryLaunch_load true)
     /\ isStopped (pool s) = false
     /\ (N.of_nat (total (holds_slot true) (threads s)) < 1)%N
     /\ exists s',
         run s [Run 0 Case1; Run 0 Case1; Run 0 Case1; Run 0 Case1;
                Run 0 Case1] = Ok s'
         /\ threads s'
            = <[0 := Schedule_ret true]> (threads s) ++ [worker_select true]
         /\ buf (sem true (pool s')) = buf (sem true (pool s)) ++ [()]
         /\ sem (negb true) (pool s') = sem (negb true) (pool s)
         /\ workerCount (pool s') = uint32 (workerCount (pool s) + 1)
         /\ counter (wg (pool s')) = (counter (wg (pool s)) + 1)%Z
         /\ events s' = events s)
  /\ (exists s s',
        run (initial pool_1_1)
          [Invoke (CallSchedule true 7); Run 0 Case1; Run 0 Case1;
           Invoke CallStop; Run 1 Case1; Run 1 Case1] = Ok s
        /\ threads s !! 0 = Some (tryLaunch_load true)
        /\ isStopped (pool s) = true
        /\ step s (Run 0 Case1) = Ok s'
        /\ prioritySem (pool s') = prioritySem (pool s)
        /\ length (threads s') = length (threads s)).
Proof.
  assert (Hnew : NewDynamicThreadPool 1 1 = Some pool_1_1) by reflexivity.
  split.
  - eexists.
    match goal with
    | |- ?R /\ _ => assert (Hrun : R) by (vm_compute; reflexivity)
    end.
    split; [exact Hrun|].
    match goal with |- ?R /\ _ => assert (Hl : R) by reflexivity end.
    split; [exact Hl|].
    match goal with |- ?R /\ _ => assert (Hs : R) by reflexivity end.
    split; [exact Hs|].
    match goal with |- ?R /\ _ => assert (Hlt : R) by reflexivity end.
    split; [exact Hlt|].
    exact (proj2 (proj2 (proj2 (proj2 (proj2 (proj2
             (materialization 1 1 _ _ _ 0 true Case1 Hnew Hrun))))))
             Hl Hs Hlt).
  - eexists. eexists.
    match goal with
    | |- ?R /\ _ => assert (Hrun : R) by (vm_compute; reflexivity)
    end.
    split; [exact Hrun|].
    match goal with |- ?R /\ _ => assert (Hl : R) by reflexivity end.
    split; [exact Hl|].
    match goal with |- ?R /\ _ => assert (Hs : R) by reflexivity end.
    split; [exact Hs|].
    split; [exact (proj1 (materialization 1 1 _ _ _ 0 true Case1 Hnew Hrun)
                     Hl Hs)|].
    split; reflexivity.
Defined.

(** *** Workers, rejection after Stop, idempotent Stop *)

(** [Add(^uint32(0))] on a counter that is not zero subtracts one. *)
Lemma uint32_dec (n : N) :
  (0 < n < uint32_modulus)%N -> uint32 (n + uint32_max) = (n - 1)%N.
Proof.
  unfold uint32, uint32_modulus, uint32_max. intros H.
  replace (n + 4294967295)%N with ((n - 1) + 1 * 4294967296)%N by lia.
  rewrite N.Div0.mod_add. apply N.mod_small. lia.
Qed.

(** C6. Elastic pool: a worker of class [u] receives at most one task,
    from the queue of its class only, executes it, and on every exit path
    frees exactly one slot of the semaphore of its class and decrements
    [workerCount] exactly once.  Every statement it runs brings it closer
    to its exit: it never returns to its [select]. *)
Theorem worker_one_task (maxP maxN : N) (t0 : DynamicThreadPool)
  (acts : list action) (s : State) (tid : nat) (l : pc) (u : bool) :
  NewDynamicThreadPool maxP maxN = Some t0 ->
  run (initial t0) acts = Ok s ->
  threads s !! tid = Some l ->
  is_worker u l = true ->
  worker_trace l (timeline tid (events s))
  /\ (l = worker_exit u ->
      timeline tid (events s) = [Release u; CountDec]
      \/ exists x,
          timeline tid (events s)
          = [Dequeue u x; Execute x; Release u; CountDec])
  /\ (forall c s', step s (Run tid c) = Ok s' ->
      exists l',
        threads s' !! tid = Some l'
        /\ is_worker u l' = true
        /\ worker_rank l' < worker_rank l
        /\ (l = worker_select u \/ taskCh u (pool s') = taskCh u (pool s))
        /\ taskCh (negb u) (pool s') = taskCh (negb u) (pool s)
        /\ sem (negb u) (pool s') = sem (negb u) (pool s)
        /\ (l = worker_release u ->
            () :: buf (sem u (pool s')) = buf (sem u (pool s)))
        /\ (l <> worker_release u -> sem u (pool s') = sem u (pool s))
        /\ (l = worker_dec u ->
            workerCount (pool s')
            = uint32 (workerCount (pool s) + uint32_max))
        /\ (l <> worker_dec u ->
            workerCount (pool s') = workerCount (pool s))).
Proof.
  intros Hnew Hrun Hl Hw.
  destruct (invariant_run _ _ _ _ _ Hnew Hrun)
    as (Hsem & _ & _ & _ & Hhist).
  pose proof (Hhist tid) as Ht. rewrite Hl in Ht.
  split; [assumption|]. split.
  - intros ->. exact Ht.
  - intros c s' Hstep.
    apply step_Run in Hstep as (l0 & t' & l' & ks & sp & Hl' & Hst & ->).
    rewrite Hl in Hl'. injection Hl' as <-.
    pose proof (lookup_lt_Some _ _ _ Hl) as Hlen.
    assert (Hslot : holds_slot u l <= length (buf (sem u (pool s)))).
    { destruct (Hsem u) as (<- & _). eapply total_lookup_le. eassumption. }
    exists l'. simpl.
    rewrite lookup_app_l by (rewrite length_insert; assumption).
    rewrite list_lookup_insert_eq by assumption.
    split; [reflexivity|].
    destruct l; try discriminate Hw; simpl in Hw;
      apply Bool.eqb_prop in Hw; subst; dynamic_cases Hst;
      destruct u; simpl in *; use_bufs; simpl in *;
      repeat match goal with x : unit |- _ => destruct x end;
      repeat split; auto; try lia; try congruence.
Qed.

(** A worker of the priority class ran to its exit on a pool with
    ceilings (1, 1): it received task 7, executed it, freed its slot and
    decremented the counter. *)
Lemma worker_one_task_witness :
  exists s,
    run (initial pool_1_1)
      (Invoke (CallSchedule true 7) :: schedule_steps 0
         ++ [Run 1 Case2; Run 1 Case1; Run 1 Case1; Run 1 Case1;
             Run 1 Case1]) = Ok s
    /\ threads s !! 1 = Some (worker_exit true)
    /\ timeline 1 (events s)
       = [Dequeue true 7; Execute 7; Release true; CountDec]
    /\ worker_trace (worker_exit true) (timeline 1 (events s)).
Proof.
  eexists.
  assert (Hnew : NewDynamicThreadPool 1 1 = Some pool_1_1) by reflexivity.
  match goal with
  | |- ?R /\ _ => assert (Hrun : R) by (vm_compute; reflexivity)
  end.
  split; [exact Hrun|].
  match goal with |- ?R /\ _ => assert (Hl : R) by reflexivity end.
  split; [exact Hl|]. split; [reflexivity|].
  exact (proj1 (worker_one_task 1 1 _ _ _ 1 _ true Hnew Hrun Hl eq_refl)).
Defined.

Lemma stop_returned_stopped (s : State) :
  stop_inv s -> stop_returned s ->
  stopOnce (pool s) = OnceDone /\ isStopped (pool s) = true.
Proof.
  intros (Honce & Hok & _) (tid & Htid).
  pose proof (Hok _ _ Htid) as Hd. simpl in Hd.
  split; [assumption|].
  unfold once_ok in Honce. rewrite Hd in Honce.
  destruct Honce as (_ & [(_ & Hf)|(_ & Hf)]);
    unfold flags, all_closed, waiting_flags in Hf; congruence.
Qed.

(** C3. Elastic pool: a [Schedule] call made on a stopped pool (the
    stopped flag is set; in particular some [Stop] call has returned)
    can only return [false]: however the run goes on, the caller is
    at its first statement or has returned [false], its one statement
    changes neither the pool nor the events, it has enqueued nothing,
    and a task that was nowhere in the pool when the call was made is
    never queued and never executed. *)
Theorem post_stop_rejection (maxP maxN : N) (t0 : DynamicThreadPool)
  (acts : list action) (s : State) (urgent : bool) (x : Task)
  (acts' : list action) (s' : State) :
  NewDynamicThreadPool maxP maxN = Some t0 ->
  run (initial t0) acts = Ok s ->
  isStopped (pool s) = true \/ stop_returned s ->
  run s (Invoke (CallSchedule urgent x) :: acts') = Ok s' ->
  isStopped (pool s') = true
  /\ (threads s' !! length (threads s) = Some (Schedule_load urgent x)
      \/ threads s' !! length (threads s) = Some (Schedule_ret false))
  /\ (forall c, threads s' !! length (threads s)
                = Some (Schedule_load urgent x) ->
        step s' (Run (length (threads s)) c)
        = Ok (mkState (pool s')
                (<[length (threads s) := Schedule_ret false]> (threads s')
                   ++ [])
                (events s')))
  /\ history (length (threads s)) (events s') = []
  /\ (absent x s ->
      ~ In x (buf (priorityCh (pool s')))
      /\ ~ In x (buf (normalCh (pool s')))
      /\ ~ In x (executed (events s'))).
Proof.
  intros Hnew Hrun Hstopped Hrun'.
  destruct (invariant_run _ _ _ _ _ Hnew Hrun)
    as (_ & _ & _ & Hstop & Hhist).
  assert (Hs : isStopped (pool s) = true).
  { destruct Hstopped as [|Hret]; [assumption|].
    eapply stop_returned_stopped; eassumption. }
  simpl in Hrun'.
  set (s1 := mkState (pool s) (threads s ++ [Schedule_load urgent x])
               (events s)) in *.
  assert (Hrej : rejected (length (threads s)) urgent x s1).
  { split; [assumption|]. split.
    - left. unfold s1. simpl. rewrite lookup_app_r by lia.
      rewrite Nat.sub_diag. reflexivity.
    - pose proof (Hhist (length (threads s))) as Hh.
      rewrite lookup_ge_None_2 in Hh by lia.
      unfold timeline in Hh. unfold s1. simpl.
      rewrite <- (rev_involutive (history _ _)). rewrite Hh. reflexivity. }
  assert (Hrej' : rejected (length (threads s)) urgent x s').
  { eapply (run_preserves (rejected _ _ _)); [|exact Hrej|exact Hrun'].
    intros. eapply rejected_step; eassumption. }
  destruct Hrej' as (Hs' & Hat' & Hh').
  split; [assumption|]. split; [assumption|].
  split; [|split; [assumption|]].
  - intros c Hl. unfold step. rewrite Hl. simpl. unfold Schedule. simpl.
    rewrite Hs'. reflexivity.
  - intros Habs.
    assert (Habs1 : isStopped (pool s1) = true /\ absent x s1).
    { split; [assumption|]. destruct Habs as (Hp & Hn & Hc & He).
      unfold absent, s1. simpl. rewrite total_app. simpl.
      repeat split; try assumption. lia. }
    assert (Habs' : isStopped (pool s') = true /\ absent x s').
    { eapply (run_preserves (fun s => isStopped (pool s) = true
                                      /\ absent x s));
        [|exact Habs1|exact Hrun'].
      intros ? ? ? [? ?] ?. split;
        [eapply stopped_step|eapply absent_step]; eassumption. }
    destruct Habs' as (_ & Hp & Hn & _ & He).
    rewrite !occ_In. lia.
Qed.

(** The scenario of [TestScheduleAfterStop]: [Stop()] returns on a fresh
    pool, then [Schedule(true, task1)] returns [false] and the task is
    never executed. *)
Lemma post_stop_rejection_witness :
  exists s s',
    run (initial pool_1_1) (Invoke CallStop :: stop_steps 0) = Ok s
    /\ stop_returned s
    /\ run s [Invoke (CallSchedule true 1); Run 1 Case1] = Ok s'
    /\ absent 1 s
    /\ threads s' !! 1 = Some (Schedule_ret false)
    /\ ~ In 1 (executed (events s')).
Proof.
  eexists. eexists.
  assert (Hnew : NewDynamicThreadPool 1 1 = Some pool_1_1) by reflexivity.
  match goal with
  | |- ?R /\ _ => assert (Hrun : R) by (vm_compute; reflexivity)
  end.
  split; [exact Hrun|].
  match goal with
  | |- ?R /\ _ => assert (Hret : R) by (exists 0; reflexivity)
  end.
  split; [exact Hret|].
  match goal with
  | |- ?R /\ _ => assert (Hrun' : R) by (vm_compute; reflexivity)
  end.
  split; [exact Hrun'|].
  match goal with
  | |- ?R /\ _ => assert (Habs : R) by (repeat split)
  end.
  split; [exact Habs|]. split; [reflexivity|].
  pose proof (post_stop_rejection 1 1 _ _ _ true 1 _ _ Hnew Hrun
                (or_intror Hret) Hrun') as (_ & _ & _ & _ & Hnever).
  exact (proj2 (proj2 (Hnever Habs))).
Defined.

Lemma stop_again_done (k : nat) (s : State) :
  stopOnce (pool s) = OnceDone ->
  exists s',
    stop_again k s = Ok s' /\ pool s' = pool s /\ events s' = events s
    /\ threads s' = threads s ++ repeat Stop_ret k.
Proof.
  revert s. induction k as [|k IH]; intros s Hd; simpl.
  - exists s. rewrite app_nil_r. auto.
  - rewrite lookup_app_r by lia. rewrite Nat.sub_diag. simpl.
    rewrite Hd. simpl.
    match goal with
    | |- exists s', stop_again k ?s2 = _ /\ _ =>
        destruct (IH s2 Hd) as (s' & Hr & Hp & He & Hth)
    end.
    exists s'. simpl in *. split; [assumption|]. split; [assumption|].
    split; [assumption|].
    rewrite Hth, app_nil_r, insert_app_r_alt by lia.
    rewrite Nat.sub_diag. simpl. rewrite <- app_assoc. reflexivity.
Qed.

(** No statement of [Stop] ends the program in a panic: each channel is
    closed once. *)
Lemma stop_never_faults (t : DynamicThreadPool) (c : choice) (l : pc)
  (f : fault) :
  thread_ok t l -> in_stop_body l = 1 \/ l = Stop_once ->
  thread_step t c l <> Panic f.
Proof.
  intros Hok Hl.
  destruct l; simpl in Hl; try (destruct Hl; discriminate || lia).
  all: flags_tac; unfold Stop, chan_close, next; simpl;
    repeat match goal with H : _ = _ |- _ => rewrite H end; simpl;
    try discriminate.
  - destruct (WaitGroup_Wait (wg t)); discriminate.
  - unfold WaitGroup_resume. destruct (sema (wg t)); simpl; [discriminate|].
    destruct (WaitGroup_at_rest _); discriminate.
Qed.

(** A [Stop] call ends in a panic only out of [wg.Wait()]. *)
Lemma stop_panic_origin (t t' : DynamicThreadPool) (c : choice) (l : pc)
  (ks : list kind) (sp : list pc) :
  thread_step t c l = Ok (t', Stop_panic, ks, sp) -> l = Stop_parked.
Proof. intros H. destruct l; dynamic_cases H; reflexivity. Qed.

Lemma run_app_Ok (s s1 : State) (acts1 acts2 : list action) :
  run s acts1 = Ok s1 -> run s (acts1 ++ acts2) = run s1 acts2.
Proof.
  revert s. induction acts1 as [|a acts1 IH]; intros s H; simpl in *.
  - injection H as <-. reflexivity.
  - destruct (step s a) as [s2| |]; try discriminate. auto.
Qed.

Lemma lookup_other {A : Type} (l sp : list A) (i j : nat) (x y : A) :
  j <> i -> l !! j = Some x -> (<[i := y]> l ++ sp) !! j = Some x.
Proof.
  intros Hne Hj. pose proof (lookup_lt_Some _ _ _ Hj).
  rewrite lookup_app_l by (rewrite length_insert; assumption).
  rewrite list_lookup_insert_ne by congruence. assumption.
Qed.

(** *** Stop can always be brought to its end *)

(** A launched worker can always run its next statement once [closeCh]
    is closed, and comes closer to its [wg.Done()]. *)
Lemma drain_local (t : DynamicThreadPool) (l : pc) :
  0 < pending l ->
  closed (closeCh t) = true ->
  (forall u, holds_slot u l <= length (buf (sem u t))) ->
  (Z.of_nat (in_wg l) <= counter (wg t))%Z ->
  exists c t' l' ks sp,
    thread_step t c l = Ok (t', l', ks, sp)
    /\ pending l' + total pending sp < pending l
    /\ closed (closeCh t') = true
    /\ stopOnce t' = stopOnce t.
Proof.
  intros Hp Hc Hslot Hwg. exists Case1.
  destruct l; simpl in Hp; try lia; simpl.
  - eexists _, _, _, _. split; [reflexivity|]. simpl. repeat split; auto.
  - rewrite Hc. eexists _, _, _, _. split; [reflexivity|]. simpl.
    repeat split; auto.
  - eexists _, _, _, _. split; [reflexivity|]. simpl. repeat split; auto.
  - specialize (Hslot urgent). simpl in Hslot.
    rewrite Bool.eqb_reflx in Hslot. unfold chan_recv.
    destruct (buf (sem urgent t)) as [|x rest] eqn:E; simpl in Hslot; [lia|].
    simpl. eexists _, _, _, _. split; [reflexivity|].
    destruct urgent; simpl; repeat split; auto.
  - eexists _, _, _, _. split; [reflexivity|]. simpl. repeat split; auto.
  - destruct (WaitGroup_Done_Ok (wg t)) as (w' & Hw); [simpl in Hwg; lia|].
    rewrite Hw. simpl. eexists _, _, _, _. split; [reflexivity|]. simpl.
    repeat split; auto.
Qed.

Lemma drain_step (ceiling : bool -> N) (s : State) :
  invariant ceiling s ->
  closed (closeCh (pool s)) = true ->
  0 < total pending (threads s) ->
  exists tid c s',
    step s (Run tid c) = Ok s'
    /\ total pending (threads s') < total pending (threads s)
    /\ closed (closeCh (pool s')) = true
    /\ stopOnce (pool s') = stopOnce (pool s)
    /\ (forall j l, threads s !! j = Some l -> pending l = 0 ->
          threads s' !! j = Some l).
Proof.
  intros (Hsem & (Hwc & _) & _) Hc Hpos.
  destruct (total_pos pending _ Hpos) as (tid & l & Hl & Hp).
  destruct (drain_local (pool s) l Hp Hc)
    as (c & t' & l' & ks & sp & Hstep & Hless & Hc' & Ho').
  { intros u. destruct (Hsem u) as (<- & _).
    eapply total_lookup_le. eassumption. }
  { pose proof (total_lookup_le in_wg _ _ _ Hl). lia. }
  exists tid, c. eexists. split; [eapply step_Run_eq; eassumption|].
  simpl. rewrite total_app.
  pose proof (total_insert pending _ _ _ l' Hl).
  split; [lia|]. split; [assumption|]. split; [assumption|].
  intros j l0 Hj H0. apply lookup_other; [|assumption].
  intros ->. rewrite Hl in Hj. injection Hj as ->. lia.
Qed.

Lemma drain (ceiling : bool -> N) (n : nat) (s : State) :
  total pending (threads s) <= n ->
  invariant ceiling s ->
  closed (closeCh (pool s)) = true ->
  exists acts s',
    run s acts = Ok s'
    /\ invariant ceiling s'
    /\ total pending (threads s') = 0
    /\ stopOnce (pool s') = stopOnce (pool s)
    /\ (forall j l, threads s !! j = Some l -> pending l = 0 ->
          threads s' !! j = Some l).
Proof.
  revert s. induction n as [|n IH]; intros s Hn Hinv Hc.
  - exists [], s. split; [reflexivity|]. split; [assumption|].
    split; [lia|]. split; [reflexivity|]. auto.
  - destruct (decide (total pending (threads s) = 0)) as [Hz|Hz].
    { exists [], s. split; [reflexivity|]. split; [assumption|].
      split; [assumption|]. split; [reflexivity|]. auto. }
    destruct (drain_step ceiling s Hinv Hc ltac:(lia))
      as (tid & c & s1 & Hstep & Hlt & Hc1 & Ho1 & Hk1).
    destruct (IH s1 ltac:(lia)
                (invariant_step _ _ _ _ Hinv Hstep) Hc1)
      as (acts & s' & Hrun & Hinv' & Hz' & Ho' & Hk').
    exists (Run tid c :: acts), s'.
    split; [erewrite run_cons; eassumption|].
    split; [assumption|]. split; [assumption|].
    split; [congruence|]. eauto.
Qed.

Lemma in_wg_le_pending (l : pc) : in_wg l <= pending l.
Proof. destruct l; simpl; lia. Qed.

(** The function given to [stopOnce.Do] can always run its next
    statement, after the workers have run to their end where it waits
    for them. *)
Lemma body_progress (ceiling : bool -> N) (s : State) (b : nat) (l : pc) :
  invariant ceiling s ->
  threads s !! b = Some l ->
  in_stop_body l = 1 ->
  exists acts s',
    run s acts = Ok s'
    /\ invariant ceiling s'
    /\ (forall j, threads s !! j = Some Stop_once ->
          threads s' !! j = Some Stop_once)
    /\ (stopOnce (pool s') = OnceDone
        \/ exists l',
            threads s' !! b = Some l' /\ in_stop_body l' = 1
            /\ body_rank l' < body_rank l).
Proof.
  intros Hinv Hl Hbody.
  pose proof (lookup_lt_Some _ _ _ Hl) as Hlen.
  assert (Hone : forall s0 t' l' ks sp,
    invariant ceiling s0 ->
    threads s0 !! b = Some l ->
    thread_step (pool s0) Case1 l = Ok (t', l', ks, sp) ->
    (stopOnce t' = OnceDone
     \/ (in_stop_body l' = 1 /\ body_rank l' < body_rank l)) ->
    exists s',
      run s0 [Run b Case1] = Ok s'
      /\ invariant ceiling s'
      /\ (forall j, threads s0 !! j = Some Stop_once ->
            threads s' !! j = Some Stop_once)
      /\ (stopOnce (pool s') = OnceDone
          \/ exists l',
              threads s' !! b = Some l' /\ in_stop_body l' = 1
              /\ body_rank l' < body_rank l)).
  { intros s0 t' l' ks sp Hinv0 Hl0 Hst Hres.
    pose proof (step_Run_eq _ _ _ _ _ _ _ _ Hl0 Hst) as Hstep.
    eexists. split; [rewrite (run_cons _ _ _ _ Hstep); reflexivity|].
    split; [eapply invariant_step; eassumption|].
    split.
    - intros j Hj. simpl. apply lookup_other; [|assumption].
      intros ->. rewrite Hl0 in Hj. injection Hj as ->. discriminate.
    - destruct Hres as [Hd|(Hb' & Hr')]; [left; exact Hd|].
      right. exists l'. simpl.
      rewrite lookup_app_l
        by (rewrite length_insert; eapply lookup_lt_Some; eassumption).
      rewrite list_lookup_insert_eq
        by (eapply lookup_lt_Some; eassumption).
      auto. }
  assert (Hdrain : closed (closeCh (pool s)) = true ->
    pending l = 0 ->
    exists acts s1,
      run s acts = Ok s1
      /\ invariant ceiling s1
      /\ threads s1 !! b = Some l
      /\ counter (wg (pool s1)) = 0%Z
      /\ (forall j, threads s !! j = Some Stop_once ->
            threads s1 !! j = Some Stop_once)).
  { intros Hc Hp.
    destruct (drain ceiling _ s (Nat.le_refl _) Hinv Hc)
      as (acts & s1 & Hrun & Hinv1 & Hz & _ & Hk).
    exists acts, s1. split; [assumption|]. split; [assumption|].
    split; [auto|]. split.
    - destruct Hinv1 as (_ & (Hwc & _) & _).
      pose proof (total_le in_wg pending (threads s1) in_wg_le_pending).
      lia.
    - intros j Hj. apply Hk; [assumption|reflexivity]. }
  assert (Hafter : forall acts s1,
    run s acts = Ok s1 ->
    (forall j, threads s !! j = Some Stop_once ->
          threads s1 !! j = Some Stop_once) ->
    (exists s',
      run s1 [Run b Case1] = Ok s'
      /\ invariant ceiling s'
      /\ (forall j, threads s1 !! j = Some Stop_once ->
            threads s' !! j = Some Stop_once)
      /\ (stopOnce (pool s') = OnceDone
          \/ exists l',
              threads s' !! b = Some l' /\ in_stop_body l' = 1
              /\ body_rank l' < body_rank l)) ->
    exists acts' s',
      run s acts' = Ok s'
      /\ invariant ceiling s'
      /\ (forall j, threads s !! j = Some Stop_once ->
            threads s' !! j = Some Stop_once)
      /\ (stopOnce (pool s') = OnceDone
          \/ exists l',
              threads s' !! b = Some l' /\ in_stop_body l' = 1
              /\ body_rank l' < body_rank l)).
  { intros acts s1 Hrun Hk (s' & Hrun' & Hinv' & Hk' & Hres).
    exists (acts ++ [Run b Case1]), s'.
    split; [rewrite (run_app_Ok _ _ _ _ Hrun); assumption|].
    split; [assumption|]. split; [auto|assumption]. }
  pose proof Hinv as (_ & _ & _ & (_ & Hok & _) & _).
  pose proof (Hok _ _ Hl) as Hme.
  destruct l; simpl in Hbody; try lia.
  - (* Stop_store *)
    apply (Hafter [] s eq_refl (fun _ H => H)).
    eapply Hone; [assumption|exact Hl|reflexivity|].
    right. simpl. split; [reflexivity|lia].
  - (* Stop_closeCh *)
    apply (Hafter [] s eq_refl (fun _ H => H)).
    eapply Hone; [assumption|exact Hl| |].
    + simpl. unfold chan_close. flags_tac.
      match goal with H : closed (closeCh _) = _ |- _ => rewrite H end.
      reflexivity.
    + right. simpl. split; [reflexivity|lia].
  - (* Stop_wait *)
    destruct Hdrain as (acts & s1 & Hrun & Hinv1 & Hl1 & Hz & Hk);
      [flags_tac; assumption|reflexivity|].
    apply (Hafter acts s1 Hrun Hk).
    eapply Hone; [assumption|exact Hl1| |].
    + simpl. unfold WaitGroup_Wait. rewrite Hz. reflexivity.
    + right. simpl. split; [reflexivity|lia].
  - (* Stop_parked *)
    destruct Hdrain as (acts & s1 & Hrun & Hinv1 & Hl1 & Hz & Hk);
      [flags_tac; assumption|reflexivity|].
    apply (Hafter acts s1 Hrun Hk).
    pose proof Hinv1 as (_ & (_ & Hpk & Hww) & _).
    pose proof (total_lookup_le parked _ _ _ Hl1) as Hb. simpl in Hb.
    assert (Hw0 : waiters (wg (pool s1)) = 0).
    { destruct (decide (waiters (wg (pool s1)) = 0)) as [|Hne];
        [assumption|]. specialize (Hww Hne). lia. }
    destruct (sema (wg (pool s1))) as [|k] eqn:Hs; [lia|].
    eapply Hone; [assumption|exact Hl1| |].
    + simpl. unfold WaitGroup_resume. rewrite Hs. simpl.
      unfold WaitGroup_at_rest. simpl. rewrite Hz, Hw0. reflexivity.
    + right. simpl. split; [reflexivity|lia].
  - (* Stop_closePriorityCh *)
    apply (Hafter [] s eq_refl (fun _ H => H)).
    eapply Hone; [assumption|exact Hl| |].
    + simpl. unfold chan_close. flags_tac.
      match goal with H : closed (priorityCh _) = _ |- _ => rewrite H end.
      reflexivity.
    + right. simpl. split; [reflexivity|lia].
  - (* Stop_closeNormalCh *)
    apply (Hafter [] s eq_refl (fun _ H => H)).
    eapply Hone; [assumption|exact Hl| |].
    + simpl. unfold chan_close. flags_tac.
      match goal with H : closed (normalCh _) = _ |- _ => rewrite H end.
      reflexivity.
    + right. simpl. split; [reflexivity|lia].
  - (* Stop_closePrioritySem *)
    apply (Hafter [] s eq_refl (fun _ H => H)).
    eapply Hone; [assumption|exact Hl| |].
    + simpl. unfold chan_close. flags_tac.
      match goal with H : closed (prioritySem _) = _ |- _ => rewrite H end.
      reflexivity.
    + right. simpl. split; [reflexivity|lia].
  - (* Stop_closeNormalSem *)
    apply (Hafter [] s eq_refl (fun _ H => H)).
    eapply Hone; [assumption|exact Hl| |].
    + simpl. unfold chan_close. flags_tac.
      match goal with H : closed (normalSem _) = _ |- _ => rewrite H end.
      reflexivity.
    + right. simpl. split; [reflexivity|lia].
  - (* Stop_onceDone *)
    apply (Hafter [] s eq_refl (fun _ H => H)).
    eapply Hone; [assumption|exact Hl|reflexivity|].
    left. reflexivity.
Qed.

Lemma body_exit (ceiling : bool -> N) (n : nat) (s : State) (b : nat)
  (l : pc) :
  body_rank l <= n ->
  invariant ceiling s ->
  threads s !! b = Some l ->
  in_stop_body l = 1 ->
  exists acts s',
    run s acts = Ok s'
    /\ invariant ceiling s'
    /\ (forall j, threads s !! j = Some Stop_once ->
          threads s' !! j = Some Stop_once)
    /\ stopOnce (pool s') = OnceDone.
Proof.
  revert s l. induction n as [|n IH]; intros s l Hn Hinv Hl Hbody.
  - destruct l; simpl in *; lia.
  - destruct (body_progress ceiling s b l Hinv Hl Hbody)
      as (acts & s1 & Hrun & Hinv1 & Hk & [Hd|(l' & Hl' & Hb' & Hr')]).
    + exists acts, s1. auto.
    + destruct (IH s1 l' ltac:(lia) Hinv1 Hl' Hb')
        as (acts' & s' & Hrun' & Hinv' & Hk' & Hd).
      exists (acts ++ acts'), s'.
      split; [rewrite (run_app_Ok _ _ _ _ Hrun); assumption|].
      split; [assumption|]. split; [auto|assumption].
Qed.

(** A [Stop] call other than the one that runs the function given to
    [stopOnce.Do] can always be brought to its return. *)
Lemma stop_call_returns (ceiling : bool -> N) (s : State) (tid : nat) :
  invariant ceiling s ->
  threads s !! tid = Some Stop_once ->
  stopOnce (pool s) <> OnceIdle ->
  exists acts s',
    run s acts = Ok s' /\ threads s' !! tid = Some Stop_ret.
Proof.
  intros Hinv Hl Hidle.
  assert (Hlast : forall s1,
    threads s1 !! tid = Some Stop_once ->
    stopOnce (pool s1) = OnceDone ->
    exists s', run s1 [Run tid Case1] = Ok s'
               /\ threads s' !! tid = Some Stop_ret).
  { intros s1 Hl1 Hd. eexists. split.
    - erewrite run_cons; [reflexivity|].
      eapply step_Run_eq; [exact Hl1|]. simpl. rewrite Hd. reflexivity.
    - simpl. rewrite app_nil_r. apply list_lookup_insert_eq.
      eapply lookup_lt_Some. eassumption. }
  destruct (stopOnce (pool s)) eqn:E; [congruence| |].
  - pose proof Hinv as (_ & _ & _ & (Honce & _ & _) & _).
    unfold once_ok in Honce. rewrite E in Honce. destruct Honce as (Hb & _).
    destruct (total_pos in_stop_body (threads s)) as (b & l & Hlb & Hpos);
      [lia|].
    assert (Hbody : in_stop_body l = 1) by (destruct l; simpl in *; lia).
    destruct (body_exit ceiling _ s b l (Nat.le_refl _) Hinv Hlb Hbody)
      as (acts & s1 & Hrun & _ & Hk & Hd).
    destruct (Hlast s1 (Hk _ Hl) Hd) as (s' & Hrun' & Hret).
    exists (acts ++ [Run tid Case1]), s'.
    split; [rewrite (run_app_Ok _ _ _ _ Hrun); assumption|assumption].
  - destruct (Hlast s Hl E) as (s' & Hrun' & Hret).
    exists [Run tid Case1], s'. auto.
Qed.

(** [Stop()] of the Elastic pool is idempotent.  In every state of every
    run the stopping transition of line 179 has happened at most once and
    at most one goroutine is inside the function given to [stopOnce.Do].
    A call at its first statement enters that function only if no call
    has entered it before; otherwise it waits while the function runs
    and returns, leaving the pool and the events as they are, once the
    function has been left.  No statement of [Stop] ends the program in
    a panic (each channel is closed once); a call ends in a panic only
    out of [wg.Wait()], so only the call that runs the function.  Once
    the function has been left, any number of further calls return at
    their first statement and change nothing.  And every call other
    than the one that runs the function can always be brought to its
    return (the tasks inside [Execute()] returning): it does not wait
    forever. *)
Lemma elastic_stop_idempotent (maxP maxN : N) (t0 : DynamicThreadPool)
  (acts : list action) (s : State) :
  NewDynamicThreadPool maxP maxN = Some t0 ->
  run (initial t0) acts = Ok s ->
  stoppings (events s) <= 1
  /\ total in_stop_body (threads s) <= 1
  /\ (forall tid c,
        threads s !! tid = Some Stop_once ->
        step s (Run tid c)
        = match stopOnce (pool s) with
          | OnceIdle =>
              Ok (mkState (set_stopOnce OnceRunning (pool s))
                    (<[tid := Stop_store]> (threads s) ++ []) (events s))
          | OnceRunning => Blocked
          | OnceDone =>
              Ok (mkState (pool s) (<[tid := Stop_ret]> (threads s) ++ [])
                    (events s))
          end)
  /\ (forall tid l c f,
        threads s !! tid = Some l ->
        in_stop_body l = 1 \/ l = Stop_once ->
        step s (Run tid c) <> Panic f)
  /\ (forall tid l c s',
        threads s !! tid = Some l ->
        step s (Run tid c) = Ok s' ->
        threads s' !! tid = Some Stop_panic ->
        l = Stop_parked)
  /\ (stopOnce (pool s) = OnceDone ->
      forall k, exists s',
        stop_again k s = Ok s'
        /\ pool s' = pool s /\ events s' = events s
        /\ threads s' = threads s ++ repeat Stop_ret k)
  /\ (forall tid,
        threads s !! tid = Some Stop_once ->
        stopOnce (pool s) <> OnceIdle ->
        exists acts' s',
          run s acts' = Ok s' /\ threads s' !! tid = Some Stop_ret).
Proof.
  intros Hnew Hrun.
  pose proof (invariant_run _ _ _ _ _ Hnew Hrun) as Hinv.
  pose proof Hinv as (_ & _ & _ & Hstop & _).
  pose proof Hstop as (Honce & Hok & Hlog).
  split; [destruct (isStopped (pool s)); lia|].
  split; [unfold once_ok in Honce; destruct (stopOnce (pool s)); lia|].
  split; [|split; [|split; [|split]]].
  - intros tid c Hl. unfold step. rewrite Hl. simpl.
    destruct (stopOnce (pool s)); reflexivity.
  - intros tid l c f Hl Hbody. unfold step. rewrite Hl.
    pose proof (stop_never_faults (pool s) c l f (Hok _ _ Hl) Hbody) as Hn.
    destruct (thread_step (pool s) c l) as [[[[? ?] ?] ?]| |]; simpl;
      congruence.
  - intros tid l c s' Hl Hstep Hp.
    apply step_Run in Hstep as (l0 & t' & l' & ks & sp & Hl0 & Hst & ->).
    rewrite Hl in Hl0. injection Hl0 as <-.
    simpl in Hp.
    rewrite lookup_app_l in Hp
      by (rewrite length_insert; eapply lookup_lt_Some; eassumption).
    rewrite list_lookup_insert_eq in Hp
      by (eapply lookup_lt_Some; eassumption).
    injection Hp as ->. eapply stop_panic_origin. eassumption.
  - intros Hd k. apply stop_again_done. assumption.
  - intros tid Hl Hidle. eapply stop_call_returns; eassumption.
Qed.


(** *** The select of a worker *)

(** C9 on a pool with ceilings (1, 1).  An urgent task is accepted and
    its worker spawned, then [Stop] closes [closeCh].  The worker's select
    now has both cases ready.  It may take the shutdown case; it may as
    well take the task and execute it. *)
Theorem worker_select_may_take_task :
  exists s s',
    run (initial pool_1_1)
      (Invoke (CallSchedule true 7) :: schedule_steps 0
         ++ [Invoke CallStop; Run 2 Case1; Run 2 Case1; Run 2 Case1])
    = Ok s
    /\ threads s !! 1 = Some (worker_select true)
    /\ closed (closeCh (pool s)) = true
    /\ buf (priorityCh (pool s)) = [7]
    /\ workerTask (pool s) Case1 true (worker_select true)
       = Ok (pool s, worker_release true, [], [])
    /\ run s [Run 1 Case2; Run 1 Case1] = Ok s'
    /\ executed (events s') = [7].
Proof.
  eexists. eexists.
  split; [vm_compute; reflexivity|].
  split; [reflexivity|]. split; [reflexivity|]. split; [reflexivity|].
  split; [reflexivity|]. split; [vm_compute; reflexivity|]. reflexivity.
Qed.

End DynamicFacts.

(** ** The Fixed pool *)

Module StaticFacts.
Import Static.

Lemma fixed_step_Invoke (s s' : State) (c : call) :
  step s (Invoke c) = Ok s' ->
  s' = mkState (pool s) (threads s ++ [entry c]) (events s).
Proof. simpl. congruence. Qed.

Lemma fixed_step_Run (s s' : State) (tid : nat) (c : choice) :
  step s (Run tid c) = Ok s' ->
  exists l t' l' ks sp,
    threads s !! tid = Some l
    /\ thread_step (pool s) c l = Ok (t', l', ks, sp)
    /\ s' = mkState t' (<[tid := l']> (threads s) ++ sp)
              (tag tid ks ++ events s).
Proof.
  unfold step. destruct (threads s !! tid) as [l|] eqn:E; [|discriminate].
  destruct (thread_step (pool s) c l) as [[[[t' l'] ks] sp]| |] eqn:T;
    simpl; try discriminate.
  intros [= <-]. eauto 10.
Qed.

Lemma fixed_step_Handoff (s s' : State) (i j : nat) :
  step s (Handoff i j) = Ok s' ->
  exists urgent item priority,
    threads s !! i = Some (Schedule_send urgent item)
    /\ threads s !! j = Some (Do_select priority)
    /\ i <> j
    /\ s' = mkState (pool s)
              (<[j := Do_exec priority (Some item)]>
                 (<[i := Schedule_ret]> (threads s)))
              (Ev j (Dequeue urgent item)
                 :: Ev i (Accept urgent item) :: events s).
Proof.
  unfold step.
  destruct (threads s !! i) as [[]|] eqn:Ei; try discriminate.
  destruct (threads s !! j) as [[]|] eqn:Ej; try discriminate.
  match goal with |- (if ?b then _ else _) = _ -> _ => destruct b end;
    [|discriminate].
  intros [= <-]. eexists _, _, _. repeat split; try eassumption.
  intros ->. congruence.
Qed.

Lemma fixed_task_inv_step (s s' : State) (a : action) :
  task_inv s -> step s a = Ok s' -> task_inv s'.
Proof.
  intros Hinv H x. specialize (Hinv x). destruct a as [c|tid c|i j].
  - apply fixed_step_Invoke in H as ->. simpl. rewrite total_app. simpl.
    destruct c; simpl; lia.
  - apply fixed_step_Run in H as (l & t' & l' & ks & sp & Hl & Hstep & ->).
    simpl. rewrite total_app.
    pose proof (total_insert (running x) _ _ _ l' Hl) as Hins.
    destruct l; static_cases Hstep;
      try (destruct urgent); unfold tag; simpl in *; use_bufs;
      rewrite ?occ_app; simpl in *; split_ifs; lia.
  - apply fixed_step_Handoff in H
      as (urgent & item & priority & Hi & Hj & Hne & ->). simpl.
    assert (Hj' : <[i := Schedule_ret]> (threads s) !! j
                  = Some (Do_select priority))
      by (rewrite list_lookup_insert_ne by assumption; assumption).
    pose proof (total_insert (running x) _ _ _
                  (Do_exec priority (Some item)) Hj').
    pose proof (total_insert (running x) _ _ _ Schedule_ret Hi).
    simpl in *. split_ifs; lia.
Qed.

Lemma fixed_closed_local (t t' : StaticThreadPool) (c : choice) (l l' : pc)
  (ks : list kind) (sp : list pc) :
  thread_step t c l = Ok (t', l', ks, sp) ->
  close_ok t l ->
  worker t' = worker t
  /\ close_ok t' l'
  /\ (forall l0, In l0 sp -> close_ok t' l0)
  /\ (forall l0, close_ok t l0 -> close_ok t' l0).
Proof.
  intros H Hok.
  destruct l; static_cases H; try (destruct urgent);
    try (destruct priority).
  all: split; [reflexivity|].
  all: split; [simpl in *; intuition congruence|].
  all: split; [intros l0 Hin; simpl in Hin; intuition (subst; exact I)|].
  all: intros l0 H0; destruct l0; simpl in *; intuition congruence.
Qed.

Lemma fixed_closed_inv_step (count : N) (s s' : State) (a : action) :
  closed_inv count s -> step s a = Ok s' -> closed_inv count s'.
Proof.
  intros (Hw & Hok) H. destruct a as [c|tid c|i j].
  - apply fixed_step_Invoke in H as ->. split; [assumption|]. simpl.
    intros tid l Hlk. apply lookup_app_Some in Hlk as [Hlk|[_ Hlk]];
      [eauto|].
    apply list_lookup_singleton_Some in Hlk as [_ <-].
    destruct c; exact I.
  - apply fixed_step_Run in H as (l & t' & l' & ks & sp & Hl & Hstep & ->).
    destruct (fixed_closed_local _ _ _ _ _ _ _ Hstep (Hok _ _ Hl))
      as (Hw' & Hme & Hsp & Hmono).
    split; [simpl; congruence|]. simpl. intros j l0 Hlk.
    apply lookup_stepped in Hlk
      as [(-> & ->)|[(Hne & Hold)|(Hge & Hnew)]];
      [assumption|eauto| |eapply lookup_lt_Some; eassumption].
    apply Hsp. apply list_elem_of_In.
    eapply list_elem_of_lookup_2. eassumption.
  - apply fixed_step_Handoff in H
      as (urgent & item & priority & Hi & Hj & Hne & ->).
    split; [assumption|]. simpl. intros k l0 Hlk.
    destruct (decide (k = j)) as [->|Hkj].
    + rewrite list_lookup_insert_eq in Hlk
        by (rewrite length_insert; eapply lookup_lt_Some; eassumption).
      injection Hlk as <-. exact I.
    + rewrite list_lookup_insert_ne in Hlk by congruence.
      destruct (decide (k = i)) as [->|Hki].
      * rewrite list_lookup_insert_eq in Hlk
          by (eapply lookup_lt_Some; eassumption).
        injection Hlk as <-. exact I.
      * rewrite list_lookup_insert_ne in Hlk by congruence. eauto.
Qed.

Lemma fixed_run_preserves (P : State -> Prop) :
  (forall s s' a, P s -> step s a = Ok s' -> P s') ->
  forall acts s s', P s -> run s acts = Ok s' -> P s'.
Proof.
  intros Hstep acts. induction acts as [|a acts IH]; intros s s' HP H;
    simpl in H.
  - injection H as <-. assumption.
  - destruct (step s a) as [s1| |] eqn:E; try discriminate.
    eapply IH; [|eassumption]. eapply Hstep; eassumption.
Qed.

Lemma fixed_invariant_run (count : N) (t0 : StaticThreadPool)
  (acts : list action) (s : State) :
  NewStaticThreadPool count = Some t0 ->
  run (initial t0) acts = Ok s ->
  task_inv s /\ closed_inv count s /\ count <> 0%N.
Proof.
  unfold NewStaticThreadPool. intros Hnew Hrun.
  destruct (N.eqb_spec count 0) as [|Hc]; [discriminate|].
  injection Hnew as <-.
  split; [|split; [|assumption]].
  - eapply (fixed_run_preserves task_inv); [|
      |exact Hrun]; eauto using fixed_task_inv_step.
    intros x. reflexivity.
  - eapply (fixed_run_preserves (closed_inv count)); [|
      |exact Hrun]; eauto using fixed_closed_inv_step.
    split; [reflexivity|]. intros tid l Hl. destruct tid; discriminate.
Qed.

(** C10. Fixed pool: once a [Stop()] call has returned, both queues are
    closed, so the send of any [Schedule(urgent, item)] call, of either
    class, panics: the statement of a caller already at its send, and
    that of a call made afterwards. *)
Theorem schedule_after_stop_panics (count : N) (t0 : StaticThreadPool)
  (acts : list action) (s : State) (urgent : bool) (item : Task)
  (c : choice) :
  NewStaticThreadPool count = Some t0 ->
  run (initial t0) acts = Ok s ->
  stop_returned s ->
  closed (priorityCh (pool s)) = true
  /\ closed (normalCh (pool s)) = true
  /\ (forall tid, threads s !! tid = Some (Schedule_send urgent item) ->
      step s (Run tid c) = Panic SendOnClosedChannel)
  /\ run s [Invoke (CallSchedule urgent item); Run (length (threads s)) c]
     = Panic SendOnClosedChannel.
Proof.
  intros Hnew Hrun (tid0 & Hret).
  destruct (fixed_invariant_run _ _ _ _ Hnew Hrun)
    as (_ & (_ & Hok) & _).
  pose proof (Hok _ _ Hret) as (_ & Hp & Hn). simpl in Hp, Hn.
  assert (Hch : closed (taskCh urgent (pool s)) = true)
    by (destruct urgent; assumption).
  split; [assumption|]. split; [assumption|]. split.
  - intros tid Hl. unfold step. rewrite Hl. simpl.
    unfold Schedule, chan_send. rewrite Hch. reflexivity.
  - simpl. rewrite lookup_app_r by lia. rewrite Nat.sub_diag. simpl.
    unfold Schedule, chan_send. rewrite Hch. reflexivity.
Qed.

(** The first send of a [Stop()] call made after a [Stop()] call has
    returned finds the shutdown channel closed. *)
Lemma fixed_second_stop_panics (count : N) (t0 : StaticThreadPool)
  (acts : list action) (s : State) (c c' : choice) :
  NewStaticThreadPool count = Some t0 ->
  run (initial t0) acts = Ok s ->
  stop_returned s ->
  run s [Invoke CallStop; Run (length (threads s)) c;
         Run (length (threads s)) c']
  = Panic SendOnClosedChannel.
Proof.
  intros Hnew Hrun (tid0 & Hret).
  destruct (fixed_invariant_run _ _ _ _ Hnew Hrun)
    as (_ & (Hw & Hok) & Hc).
  pose proof (Hok _ _ Hret) as (Hcl & _). simpl in Hcl.
  simpl. rewrite lookup_app_r by lia. rewrite Nat.sub_diag. simpl.
  rewrite Hw. destruct (N.ltb_spec 0 count) as [_|]; [|lia]. simpl.
  rewrite app_nil_r.
  rewrite list_lookup_insert_eq by (rewrite length_app; simpl; lia).
  simpl. unfold chan_send. rewrite Hcl. reflexivity.
Qed.

(** [Stop()] has returned on a started pool with one worker; then
    [Schedule(true, 4)] panics. *)
Lemma schedule_after_stop_panics_witness :
  exists s,
    run (initial pool_1)
      (Invoke CallStart :: start_steps 0
         ++ Invoke CallStop :: stop_steps 2 1) = Ok s
    /\ stop_returned s
    /\ run s [Invoke (CallSchedule true 4); Run (length (threads s)) Case1]
       = Panic SendOnClosedChannel.
Proof.
  eexists.
  assert (Hnew : NewStaticThreadPool 1 = Some pool_1) by reflexivity.
  match goal with
  | |- ?R /\ _ => assert (Hrun : R) by (vm_compute; reflexivity)
  end.
  split; [exact Hrun|].
  match goal with
  | |- ?R /\ _ => assert (Hret : R) by (exists 2; reflexivity)
  end.
  split; [exact Hret|].
  exact (proj2 (proj2 (proj2
    (schedule_after_stop_panics 1 _ _ _ true 4 Case1 Hnew Hrun Hret)))).
Defined.

(** While [t.worker * 10] stays within [uint32], line 42 computes the
    floor of a tenth of the worker count. *)
Lemma highPriority_in_range (t : StaticThreadPool) :
  (worker t <= 429496729)%N -> highPriority t = (worker t / 10)%N.
Proof.
  intros H. unfold highPriority, uint32, uint32_modulus.
  rewrite N.mod_small by lia.
  change 100%N with (10 * 10)%N. apply N.Div0.div_mul_cancel_r. lia.
Qed.

(** C7 at the worker count 429496730.  [t.worker * 10] wraps to 4, so that
    line 42 computes [highPriority = 0] where a tenth of the worker count
    is 42949673, and the first worker [Start] spawns runs in mixed
    mode. *)
Theorem start_high_priority_overflow :
  NewStaticThreadPool 429496730 = Some pool_big
  /\ uint32 (worker pool_big * 10) = 4%N
  /\ highPriority pool_big = 0%N
  /\ (worker pool_big * 10 / 100 = 42949673)%N
  /\ spawned_mode pool_big 0 = false
  /\ exists s,
      run (initial pool_big)
        [Invoke CallStart; Run 0 Case1; Run 0 Case1; Run 0 Case1;
         Run 0 Case1] = Ok s
      /\ threads s = [Start_loop 0 1; Do_select false].
Proof.
  split; [reflexivity|]. split; [reflexivity|]. split; [reflexivity|].
  split; [reflexivity|]. split; [reflexivity|].
  eexists. split; vm_compute; reflexivity.
Qed.

End StaticFacts.

(** ** Both pools *)

(** C2 as stated fails on both pools: a task is accepted, the workers take
    the shutdown signal, [Stop()] returns, and the task is still in its
    queue, never executed. *)
Lemma completion_counterexample :
  (exists s,
     Dynamic.NewDynamicThreadPool 1 1 = Some Dynamic.pool_1_1
     /\ Dynamic.run (Dynamic.initial Dynamic.pool_1_1)
          (Dynamic.Invoke (Dynamic.CallSchedule true 7)
             :: Dynamic.schedule_steps 0
             ++ Dynamic.Invoke Dynamic.CallStop
             :: [Dynamic.Run 2 Case1; Dynamic.Run 2 Case1;
                 Dynamic.Run 2 Case1;
                 Dynamic.Run 1 Case1; Dynamic.Run 1 Case1;
                 Dynamic.Run 1 Case1; Dynamic.Run 1 Case1;
                 Dynamic.Run 2 Case1; Dynamic.Run 2 Case1;
                 Dynamic.Run 2 Case1; Dynamic.Run 2 Case1;
                 Dynamic.Run 2 Case1; Dynamic.Run 2 Case1]) = Ok s
     /\ Dynamic.threads s
        = [Dynamic.Schedule_ret true; Dynamic.worker_exit true;
           Dynamic.Stop_ret]
     /\ accepted (Dynamic.events s) = [7]
     /\ executed (Dynamic.events s) = []
     /\ buf (Dynamic.priorityCh (Dynamic.pool s)) = [7])
  /\ (exists s,
        Static.NewStaticThreadPool 1 = Some Static.pool_1
        /\ Static.run (Static.initial Static.pool_1)
             (Static.Invoke Static.CallStart :: Static.start_steps 0
                ++ [Static.Invoke (Static.CallSchedule false 7);
                    Static.Run 2 Case1]
                ++ Static.Invoke Static.CallStop
                :: Static.stop_steps 3 1) = Ok s
        /\ Static.threads s
           = [Static.Start_ret; Static.Do_exit false; Static.Schedule_ret;
              Static.Stop_ret]
        /\ accepted (Static.events s) = [7]
        /\ executed (Static.events s) = []
        /\ buf (Static.normalCh (Static.pool s)) = [7]).
Proof.
  split; eexists; (split; [reflexivity|]);
    (split; [vm_compute; reflexivity|]); repeat split.
Qed.

(** C2, amended.  On both pools, in every state of every run, a task is
    executed at most as many times as it was accepted: every accepted
    task is in its queue, inside [Execute()] of one worker, or
    executed. *)
Theorem accepted_at_most_once :
  (forall (maxP maxN : N) (t0 : Dynamic.DynamicThreadPool)
     (acts : list Dynamic.action) (s : Dynamic.State) (x : Task),
      Dynamic.NewDynamicThreadPool maxP maxN = Some t0 ->
      Dynamic.run (Dynamic.initial t0) acts = Ok s ->
      occ x (executed (Dynamic.events s))
      <= occ x (accepted (Dynamic.events s))
      /\ occ x (accepted (Dynamic.events s))
         = occ x (buf (Dynamic.priorityCh (Dynamic.pool s)))
           + occ x (buf (Dynamic.normalCh (Dynamic.pool s)))
           + total (Dynamic.running x) (Dynamic.threads s)
           + occ x (executed (Dynamic.events s)))
  /\ (forall (count : N) (t0 : Static.StaticThreadPool)
        (acts : list Static.action) (s : Static.State) (x : Task),
         Static.NewStaticThreadPool count = Some t0 ->
         Static.run (Static.initial t0) acts = Ok s ->
         occ x (executed (Static.events s))
         <= occ x (accepted (Static.events s))
         /\ occ x (accepted (Static.events s))
            = occ x (buf (Static.priorityCh (Static.pool s)))
              + occ x (buf (Static.normalCh (Static.pool s)))
              + total (Static.running x) (Static.threads s)
              + occ x (executed (Static.events s))).
Proof.
  split.
  - intros maxP maxN t0 acts s x Hnew Hrun.
    destruct (DynamicFacts.invariant_run _ _ _ _ _ Hnew Hrun)
      as (_ & _ & Htask & _).
    specialize (Htask x). split; [lia|assumption].
  - intros count t0 acts s x Hnew Hrun.
    destruct (StaticFacts.fixed_invariant_run _ _ _ _ Hnew Hrun)
      as (Htask & _).
    specialize (Htask x). split; [lia|assumption].
Qed.

(** The scenario of [TestScheduleSimple]: both tasks are accepted and
    executed, each once. *)
Lemma accepted_at_most_once_witness :
  exists s,
    Dynamic.run (Dynamic.initial Dynamic.pool_1_1)
      (Dynamic.Invoke (Dynamic.CallSchedule true 1)
         :: Dynamic.schedule_steps 0
         ++ Dynamic.Invoke (Dynamic.CallSchedule false 2)
         :: Dynamic.schedule_steps 2
         ++ [Dynamic.Run 1 Case2; Dynamic.Run 3 Case2;
             Dynamic.Run 1 Case1; Dynamic.Run 3 Case1]) = Ok s
    /\ occ 1 (executed (Dynamic.events s)) = 1
    /\ occ 2 (executed (Dynamic.events s)) = 1
    /\ occ 1 (executed (Dynamic.events s))
       <= occ 1 (accepted (Dynamic.events s)).
Proof.
  eexists.
  assert (Hnew : Dynamic.NewDynamicThreadPool 1 1
                 = Some Dynamic.pool_1_1) by reflexivity.
  match goal with
  | |- ?R /\ _ => assert (Hrun : R) by (vm_compute; reflexivity)
  end.
  split; [exact Hrun|]. split; [reflexivity|]. split; [reflexivity|].
  exact (proj1 (proj1 accepted_at_most_once 1%N 1%N _ _ _ 1 Hnew Hrun)).
Defined.

(** C4 as stated fails on the Fixed pool: [Stop()] returns, and the next
    [Stop()] call panics at its send on the closed shutdown channel. *)
Lemma stop_twice_counterexample :
  exists s,
    Static.NewStaticThreadPool 1 = Some Static.pool_1
    /\ Static.run (Static.initial Static.pool_1)
         (Static.Invoke Static.CallStart :: Static.start_steps 0
            ++ Static.Invoke Static.CallStop :: Static.stop_steps 2 1)
       = Ok s
    /\ Static.stop_returned s
    /\ Static.run s
         [Static.Invoke Static.CallStop; Static.Run 3 Case1;
          Static.Run 3 Case1]
       = Panic SendOnClosedChannel.
Proof.
  eexists. split; [reflexivity|]. split; [vm_compute; reflexivity|].
  split; [exists 2; reflexivity|]. vm_compute. reflexivity.
Qed.

(** C4, amended.  [Stop()] of the Elastic pool is idempotent.  In every
    state of every run the stopping transition has happened at most once
    and at most one goroutine is inside the function given to
    [stopOnce.Do].  A call at its first statement enters that function
    only if no call has entered it before; otherwise it waits while the
    function runs and returns, leaving the pool and the events as they
    are, once the function has been left.  No statement of [Stop] ends
    the program in a panic (each channel is closed once); a call ends in
    a panic only out of [wg.Wait()], so only the call that runs the
    function.  Once the function has been left, any number of further
    calls return at their first statement and change nothing.  Every
    call other than the one that runs the function can always be brought
    to its return (the tasks inside [Execute()] returning): it does not
    wait forever.  [Stop()] of the Fixed pool
    has no such guard: a call made after one has returned panics at its
    first send. *)
Theorem stop_idempotence :
  (forall (maxP maxN : N) (t0 : Dynamic.DynamicThreadPool)
     (acts : list Dynamic.action) (s : Dynamic.State),
      Dynamic.NewDynamicThreadPool maxP maxN = Some t0 ->
      Dynamic.run (Dynamic.initial t0) acts = Ok s ->
      Dynamic.stoppings (Dynamic.events s) <= 1
      /\ total Dynamic.in_stop_body (Dynamic.threads s) <= 1
      /\ (forall tid c,
            Dynamic.threads s !! tid = Some Dynamic.Stop_once ->
            Dynamic.step s (Dynamic.Run tid c)
            = match Dynamic.stopOnce (Dynamic.pool s) with
              | OnceIdle =>
                  Ok (Dynamic.mkState
                        (Dynamic.set_stopOnce OnceRunning (Dynamic.pool s))
                        (<[tid := Dynamic.Stop_store]> (Dynamic.threads s)
                           ++ [])
                        (Dynamic.events s))
              | OnceRunning => Blocked
              | OnceDone =>
                  Ok (Dynamic.mkState (Dynamic.pool s)
                        (<[tid := Dynamic.Stop_ret]> (Dynamic.threads s)
                           ++ [])
                        (Dynamic.events s))
              end)
      /\ (forall tid l c f,
            Dynamic.threads s !! tid = Some l ->
            Dynamic.in_stop_body l = 1 \/ l = Dynamic.Stop_once ->
            Dynamic.step s (Dynamic.Run tid c) <> Panic f)
      /\ (forall tid l c s',
            Dynamic.threads s !! tid = Some l ->
            Dynamic.step s (Dynamic.Run tid c) = Ok s' ->
            Dynamic.threads s' !! tid = Some Dynamic.Stop_panic ->
            l = Dynamic.Stop_parked)
      /\ (Dynamic.stopOnce (Dynamic.pool s) = OnceDone ->
          forall k, exists s',
            Dynamic.stop_again k s = Ok s'
            /\ Dynamic.pool s' = Dynamic.pool s
            /\ Dynamic.events s' = Dynamic.events s
            /\ Dynamic.threads s'
               = Dynamic.threads s ++ repeat Dynamic.Stop_ret k)
      /\ (forall tid,
            Dynamic.threads s !! tid = Some Dynamic.Stop_once ->
            Dynamic.stopOnce (Dynamic.pool s) <> OnceIdle ->
            exists acts' s',
              Dynamic.run s acts' = Ok s'
              /\ Dynamic.threads s' !! tid = Some Dynamic.Stop_ret))
  /\ (forall (count : N) (t0 : Static.StaticThreadPool)
        (acts : list Static.action) (s : Static.State) (c c' : choice),
         Static.NewStaticThreadPool count = Some t0 ->
         Static.run (Static.initial t0) acts = Ok s ->
         Static.stop_returned s ->
         Static.run s
           [Static.Invoke Static.CallStop;
            Static.Run (length (Static.threads s)) c;
            Static.Run (length (Static.threads s)) c']
         = Panic SendOnClosedChannel).
Proof.
  split.
  - apply DynamicFacts.elastic_stop_idempotent.
  - apply StaticFacts.fixed_second_stop_panics.
Qed.

(** The scenario of [TestStartStop]: [Stop()] returns, and two more
    [Stop()] calls return and change nothing.  And two concurrent calls
    while a worker is alive: the second call finds the first one inside
    the function given to [stopOnce.Do], waits, and can be brought to its
    return. *)
Lemma stop_idempotence_witness :
  (exists s,
     Dynamic.run (Dynamic.initial Dynamic.pool_1_1)
       (Dynamic.Invoke Dynamic.CallStop :: Dynamic.stop_steps 0) = Ok s
     /\ Dynamic.stopOnce (Dynamic.pool s) = OnceDone
     /\ exists s',
         Dynamic.stop_again 2 s = Ok s'
         /\ Dynamic.pool s' = Dynamic.pool s
         /\ Dynamic.events s' = Dynamic.events s
         /\ Dynamic.threads s'
            = Dynamic.threads s ++ repeat Dynamic.Stop_ret 2)
  /\ (exists s,
        Dynamic.run (Dynamic.initial Dynamic.pool_1_1)
          (Dynamic.Invoke (Dynamic.CallSchedule true 7)
             :: Dynamic.schedule_steps 0
             ++ [Dynamic.Invoke Dynamic.CallStop; Dynamic.Run 2 Case1;
                 Dynamic.Invoke Dynamic.CallStop]) = Ok s
        /\ Dynamic.threads s !! 3 = Some Dynamic.Stop_once
        /\ Dynamic.stopOnce (Dynamic.pool s) = OnceRunning
        /\ Dynamic.step s (Dynamic.Run 3 Case1) = Blocked
        /\ exists acts' s',
            Dynamic.run s acts' = Ok s'
            /\ Dynamic.threads s' !! 3 = Some Dynamic.Stop_ret).
Proof.
  assert (Hnew : Dynamic.NewDynamicThreadPool 1 1
                 = Some Dynamic.pool_1_1) by reflexivity.
  split.
  - eexists.
    match goal with
    | |- ?R /\ _ => assert (Hrun : R) by (vm_compute; reflexivity)
    end.
    split; [exact Hrun|].
    match goal with |- ?R /\ _ => assert (Hd : R) by reflexivity end.
    split; [exact Hd|].
    exact (proj1 (proj2 (proj2 (proj2 (proj2 (proj2
      (proj1 stop_idempotence 1%N 1%N _ _ _ Hnew Hrun)))))) Hd 2).
  - eexists.
    match goal with
    | |- ?R /\ _ => assert (Hrun : R) by (vm_compute; reflexivity)
    end.
    split; [exact Hrun|].
    match goal with |- ?R /\ _ => assert (Hl : R) by reflexivity end.
    split; [exact Hl|].
    match goal with |- ?R /\ _ => assert (Hr : R) by reflexivity end.
    split; [exact Hr|].
    split; [reflexivity|].
    refine (proj2 (proj2 (proj2 (proj2 (proj2 (proj2
      (proj1 stop_idempotence 1%N 1%N _ _ _ Hnew Hrun)))))) 3 Hl _).
    rewrite Hr. discriminate.
Defined.

(** * Further facts *)

(** ** The Elastic pool *)

Module DynamicExtra.
Import Dynamic DynamicFacts.

Lemma queue_inv_step (capacity : bool -> N) (s s' : State) (a : action) :
  queue_inv capacity s -> step s a = Ok s' -> queue_inv capacity s'.
Proof.
  intros Hinv H u. destruct (Hinv u) as (Hfifo & Hlen & Hcap & Hwait).
  destruct a as [c|tid c|i j].
  - apply step_Invoke in H as ->. simpl. rewrite total_app. simpl.
    destruct c; simpl; repeat split; try assumption; lia.
  - apply step_Run in H as (l & t' & l' & ks & sp & Hl & Hstep & ->).
    simpl. rewrite total_app.
    pose proof (total_insert (waiting u) _ _ _ l' Hl) as Hins.
    pose proof (total_lookup_le (waiting u) _ _ _ Hl) as Hle.
    destruct l; dynamic_cases Hstep; to_prop;
      try (destruct urgent); destruct u; unfold tag; simpl in *;
      use_bufs; simpl in *;
      rewrite ?rev_app_distr, ?length_app in *; simpl in *;
      rewrite <- ?app_assoc in *; simpl in *;
      (split; [assumption || congruence|]);
      (split; [lia|]); (split; [assumption|]); lia.
  - apply step_Handoff in H
      as (urgent & item & Hi & Hj & Hne & Hc0 & _ & ->). simpl.
    assert (Hj' : <[i := tryLaunch_load urgent]> (threads s) !! j
                  = Some (worker_select urgent))
      by (rewrite list_lookup_insert_ne by assumption; assumption).
    pose proof (total_insert (waiting u) _ _ _
                  (worker_exec urgent item) Hj') as E1.
    pose proof (total_insert (waiting u) _ _ _
                  (tryLaunch_load urgent) Hi) as E2.
    simpl in E1, E2.
    destruct (Bool.eqb urgent u) eqn:E.
    + apply Bool.eqb_prop in E. subst u.
      assert (Hnil : buf (taskCh urgent (pool s)) = []).
      { destruct (buf (taskCh urgent (pool s))); [reflexivity|].
        simpl in Hlen. lia. }
      rewrite Hnil in *. simpl in *.
      split; [congruence|]. split; [lia|]. split; [assumption|]. lia.
    + split; [assumption|]. split; [assumption|].
      split; [assumption|]. lia.
Qed.

Lemma uint32_succ (n : N) : uint32 (uint32 n + 1) = uint32 (n + 1).
Proof. unfold uint32. apply N.Div0.add_mod_idemp_l. Qed.

Lemma uint32_pred (n : N) :
  uint32 (uint32 (n + 1) + uint32_max) = uint32 n.
Proof.
  unfold uint32, uint32_max, uint32_modulus.
  rewrite N.Div0.add_mod_idemp_l.
  replace (n + 1 + 4294967295)%N with (n + 1 * 4294967296)%N by lia.
  apply N.Div0.mod_add.
Qed.

Lemma count_inv_step (s s' : State) (a : action) :
  count_inv s -> step s a = Ok s' -> count_inv s'.
Proof.
  unfold count_inv. intros Hinv H. destruct a as [c|tid c|i j].
  - apply step_Invoke in H as ->. simpl. rewrite total_app. simpl.
    destruct c; simpl; rewrite Nat.add_0_r; assumption.
  - apply step_Run in H as (l & t' & l' & ks & sp & Hl & Hstep & ->).
    simpl. rewrite total_app.
    pose proof (total_insert counted _ _ _ l' Hl) as Hins.
    destruct l; dynamic_cases Hstep; try (destruct urgent); simpl in *;
      try (rewrite Hinv;
           match goal with
           | |- _ = uint32 (N.of_nat ?n) =>
               replace n with (total counted (threads s)) by lia
           end; reflexivity).
    all: rewrite Hinv.
    all: try (rewrite uint32_succ; f_equal; lia).
    all: match goal with
         | |- _ = uint32 (N.of_nat ?m) =>
             replace (N.of_nat (total counted (threads s)))
               with (N.of_nat m + 1)%N by lia;
             apply uint32_pred
         end.
  - apply step_Handoff in H
      as (urgent & item & Hi & Hj & Hne & _ & _ & ->). simpl.
    assert (Hj' : <[i := tryLaunch_load urgent]> (threads s) !! j
                  = Some (worker_select urgent))
      by (rewrite list_lookup_insert_ne by assumption; assumption).
    pose proof (total_insert counted _ _ _
                  (worker_exec urgent item) Hj') as E1.
    pose proof (total_insert counted _ _ _
                  (tryLaunch_load urgent) Hi) as E2.
    simpl in E1, E2. rewrite Hinv. f_equal. lia.
Qed.

Lemma caller_local (t t' : DynamicThreadPool) (c : choice) (l l' : pc)
  (ks : list kind) (sp : list pc) (h : list kind) :
  thread_step t c l = Ok (t', l', ks, sp) ->
  caller_trace l h ->
  caller_trace l' (h ++ rev ks)
  /\ forall l0, In l0 sp -> caller_trace l0 [].
Proof.
  intros H Hh.
  destruct l; dynamic_cases H; try (destruct urgent).
  all: split; [|intros l0 Hin; simpl in Hin; intuition (subst; done)].
  all: simpl in *; try done; try subst h; simpl; eauto.
  all: destruct Hh as [x ->]; simpl; eauto.
Qed.

Lemma caller_inv_step (s s' : State) (a : action) :
  caller_inv s -> hist_inv s -> step s a = Ok s' -> caller_inv s'.
Proof.
  intros Hinv Hhist H tid0 l0 Hlk. destruct a as [c|tid c|i j].
  - apply step_Invoke in H as ->. simpl in *.
    apply lookup_app_Some in Hlk as [Hlk|[Hge Hlk]]; [eauto|].
    apply list_lookup_singleton_Some in Hlk as [Hz <-].
    pose proof (Hhist tid0) as Hn.
    rewrite lookup_ge_None_2 in Hn by lia. rewrite Hn.
    destruct c; simpl; done.
  - apply step_Run in H as (l & t' & l' & ks & sp & Hl & Hstep & ->).
    simpl in *. rewrite timeline_tag.
    pose proof (lookup_lt_Some _ _ _ Hl) as Hlen.
    destruct (caller_local _ _ _ _ _ _ _ _ Hstep (Hinv _ _ Hl))
      as (Hme & Hsp).
    apply lookup_stepped in Hlk
      as [(-> & ->)|[(Hne & Hold)|(Hge & Hnew)]]; [| | |assumption].
    + rewrite Nat.eqb_refl. assumption.
    + destruct (Nat.eqb_spec tid tid0); [congruence|].
      rewrite app_nil_r. eauto.
    + destruct (Nat.eqb_spec tid tid0); [lia|].
      rewrite app_nil_r.
      pose proof (Hhist tid0) as Hn.
      rewrite lookup_ge_None_2 in Hn by lia. rewrite Hn.
      apply Hsp. apply list_elem_of_In.
      eapply list_elem_of_lookup_2. eassumption.
  - apply step_Handoff in H
      as (urgent & item & Hi & Hj & Hne & _ & _ & ->).
    unfold timeline in *. simpl in *.
    destruct (decide (tid0 = j)) as [->|Hj0].
    + rewrite list_lookup_insert_eq in Hlk
        by (rewrite length_insert; eapply lookup_lt_Some; eassumption).
      injection Hlk as <-. exact I.
    + rewrite list_lookup_insert_ne in Hlk by congruence.
      destruct (Nat.eqb_spec j tid0); [congruence|].
      destruct (decide (tid0 = i)) as [->|Hi0].
      * rewrite list_lookup_insert_eq in Hlk
          by (eapply lookup_lt_Some; eassumption).
        injection Hlk as <-. rewrite Nat.eqb_refl. simpl.
        pose proof (Hinv _ _ Hi) as Hh. simpl in Hh.
        unfold timeline in Hh. rewrite Hh. simpl. eauto.
      * rewrite list_lookup_insert_ne in Hlk by congruence.
        destruct (Nat.eqb_spec i tid0); [congruence|].
        apply (Hinv _ _ Hlk).
Qed.

Lemma gate_local (t t' : DynamicThreadPool) (c : choice) (l l' : pc)
  (ks : list kind) (sp : list pc) :
  thread_step t c l = Ok (t', l', ks, sp) ->
  thread_ok t l ->
  (closed (closeCh t) = true -> isStopped t = true) ->
  (closed (closeCh t') = true -> isStopped t' = true)
  /\ (isStopped t = true -> isStopped t' = true)
  /\ (l' = Schedule_ret false -> isStopped t' = true)
  /\ ~ In (Schedule_ret false) sp.
Proof.
  intros H Hok Hgate.
  destruct l; dynamic_cases H; try (destruct urgent).
  all: split;
    [flags_tac; intros;
     repeat match goal with
       | Hx : ?A -> _, Ha : ?A |- _ => specialize (Hx Ha)
       end; first [congruence | apply Hgate; congruence]|].
  all: split; [intros; simpl in *; congruence|].
  all: split;
    [intros; simplify_eq; simpl in *;
     first [congruence | apply Hgate; congruence]|].
  all: simpl; intuition discriminate.
Qed.

Lemma gate_inv_step (s s' : State) (a : action) :
  gate_inv s -> stop_inv s -> step s a = Ok s' -> gate_inv s'.
Proof.
  intros (Hgate & Hret) (_ & Hok & _) H. destruct a as [c|tid c|i j].
  - apply step_Invoke in H as ->. split; [assumption|]. simpl.
    intros tid Hlk.
    apply lookup_app_Some in Hlk as [Hlk|[_ Hlk]]; [eauto|].
    apply list_lookup_singleton_Some in Hlk as [_ Hlk].
    destruct c; discriminate.
  - apply step_Run in H as (l & t' & l' & ks & sp & Hl & Hstep & ->).
    destruct (gate_local _ _ _ _ _ _ _ Hstep (Hok _ _ Hl) Hgate)
      as (Hgate' & Hmono & Hme & Hsp).
    split; [assumption|]. simpl. intros tid0 Hlk.
    apply lookup_stepped in Hlk
      as [(-> & Heq)|[(Hne & Hold)|(Hge & Hnew)]];
      [auto|eauto| |eapply lookup_lt_Some; eassumption].
    exfalso. apply Hsp. apply list_elem_of_In.
    eapply list_elem_of_lookup_2. eassumption.
  - apply step_Handoff in H
      as (urgent & item & Hi & Hj & Hne & _ & _ & ->).
    split; [assumption|]. simpl. intros k Hlk.
    destruct (decide (k = j)) as [->|Hkj].
    + rewrite list_lookup_insert_eq in Hlk
        by (rewrite length_insert; eapply lookup_lt_Some; eassumption).
      discriminate.
    + rewrite list_lookup_insert_ne in Hlk by congruence.
      destruct (decide (k = i)) as [->|Hki].
      * rewrite list_lookup_insert_eq in Hlk
          by (eapply lookup_lt_Some; eassumption).
        discriminate.
      * rewrite list_lookup_insert_ne in Hlk by congruence. eauto.
Qed.

Lemma more_run (p n : N) (t0 : DynamicThreadPool) (acts : list action)
  (s : State) :
  NewDynamicThreadPool p n = Some t0 ->
  run (initial t0) acts = Ok s ->
  invariant (fun u : bool => if u then p else n) s
  /\ more_inv (fun u : bool => if u then uint32 (p * 2)
                               else uint32 (n * 10)) s.
Proof.
  intros Hnew Hrun.
  eapply (run_preserves (fun s => invariant _ s /\ more_inv _ s));
    [| |exact Hrun].
  - intros s1 s2 a (Hi & Hq & Hc & Hcall & Hg) Hstep.
    pose proof Hi as (_ & _ & _ & Hstop & Hhist).
    split; [eapply invariant_step; eassumption|].
    split; [eapply queue_inv_step; eassumption|].
    split; [eapply count_inv_step; eassumption|].
    split; [eapply caller_inv_step; eassumption|].
    eapply gate_inv_step; eassumption.
  - split; [apply invariant_initial; assumption|].
    unfold NewDynamicThreadPool in Hnew.
    destruct (p =? 0)%N; [discriminate|].
    destruct (n =? 0)%N; [discriminate|].
    injection Hnew as <-.
    split; [|split; [|split]].
    + intros [|]; simpl; repeat split; lia.
    + reflexivity.
    + intros tid l Hl. destruct tid; discriminate.
    + split; [discriminate|]. intros tid Hl. destruct tid; discriminate.
Qed.

(** X1. Elastic pool: each queue is first-in first-out and bounded.  In
    every state of every run, the tasks accepted in a class, in the order
    of their acceptance, are the tasks workers have received, in the order
    they received them, followed by the content of the queue; the queue
    holds at most its capacity, [maxPriorityWorkers * 2] resp.
    [maxNormalWorkers * 10] computed on [uint32]. *)
Theorem elastic_queue_fifo (maxP maxN : N) (t0 : DynamicThreadPool)
  (acts : list action) (s : State) (urgent : bool) :
  NewDynamicThreadPool maxP maxN = Some t0 ->
  run (initial t0) acts = Ok s ->
  rev (accepted_of urgent (events s))
  = rev (dequeued_of urgent (events s)) ++ buf (taskCh urgent (pool s))
  /\ (N.of_nat (length (buf (taskCh urgent (pool s))))
      <= cap (taskCh urgent (pool s)))%N
  /\ cap (taskCh urgent (pool s))
     = (if urgent then uint32 (maxP * 2) else uint32 (maxN * 10)).
Proof.
  intros Hnew Hrun.
  destruct (more_run _ _ _ _ _ Hnew Hrun) as (_ & Hq & _).
  destruct (Hq urgent) as (Hfifo & Hlen & Hcap & _).
  split; [|split; assumption].
  rewrite Hfifo, rev_app_distr, rev_involutive. reflexivity.
Qed.

(** Three normal tasks are accepted and the worker of the first has
    received it. *)
Lemma elastic_queue_fifo_witness :
  exists s,
    run (initial pool_1_1)
      (Invoke (CallSchedule false 1) :: schedule_steps 0
         ++ [Invoke (CallSchedule false 2); Run 2 Case1; Run 2 Case1;
             Invoke (CallSchedule false 3); Run 3 Case1; Run 3 Case1;
             Run 1 Case2]) = Ok s
    /\ rev (accepted_of false (events s)) = [1; 2; 3]
    /\ rev (dequeued_of false (events s)) = [1]
    /\ buf (normalCh (pool s)) = [2; 3]
    /\ rev (accepted_of false (events s))
       = rev (dequeued_of false (events s)) ++ buf (normalCh (pool s)).
Proof.
  eexists.
  assert (Hnew : NewDynamicThreadPool 1 1 = Some pool_1_1) by reflexivity.
  match goal with
  | |- ?R /\ _ => assert (Hrun : R) by (vm_compute; reflexivity)
  end.
  split; [exact Hrun|]. split; [reflexivity|]. split; [reflexivity|].
  split; [reflexivity|].
  exact (proj1 (elastic_queue_fifo 1 1 _ _ _ false Hnew Hrun)).
Defined.

(** X2. Elastic pool: [GetActiveWorkers()] is the number, modulo 2^32,
    of the goroutines between the increment of line 105 / 118 and the
    decrement of line 129 / 155; it is that number when it is below 2^32,
    and 0 when there is no such goroutine. *)
Theorem active_workers_count (maxP maxN : N) (t0 : DynamicThreadPool)
  (acts : list action) (s : State) :
  NewDynamicThreadPool maxP maxN = Some t0 ->
  run (initial t0) acts = Ok s ->
  GetActiveWorkers (pool s) = uint32 (N.of_nat (total counted (threads s)))
  /\ ((N.of_nat (total counted (threads s)) < uint32_modulus)%N ->
      GetActiveWorkers (pool s) = N.of_nat (total counted (threads s)))
  /\ (total counted (threads s) = 0 -> GetActiveWorkers (pool s) = 0%N).
Proof.
  intros Hnew Hrun.
  destruct (more_run _ _ _ _ _ Hnew Hrun) as (_ & _ & Hc & _).
  unfold GetActiveWorkers. split; [assumption|]. split.
  - intros Hlt. rewrite Hc. apply N.mod_small. assumption.
  - intros Hz. rewrite Hc, Hz. reflexivity.
Qed.

(** Two tasks scheduled, both workers run to their exit (the end of
    [TestWorkerCountLifecycle]). *)
Lemma active_workers_count_witness :
  exists s,
    run (initial pool_1_1)
      (Invoke (CallSchedule true 2) :: schedule_steps 0
         ++ Invoke (CallSchedule false 3) :: schedule_steps 2
         ++ [Run 1 Case2; Run 3 Case2;
             Run 1 Case1; Run 1 Case1; Run 1 Case1; Run 1 Case1;
             Run 3 Case1; Run 3 Case1; Run 3 Case1; Run 3 Case1]) = Ok s
    /\ total counted (threads s) = 0
    /\ GetActiveWorkers (pool s) = 0%N.
Proof.
  eexists.
  assert (Hnew : NewDynamicThreadPool 1 1 = Some pool_1_1) by reflexivity.
  match goal with
  | |- ?R /\ _ => assert (Hrun : R) by (vm_compute; reflexivity)
  end.
  split; [exact Hrun|].
  match goal with
  | |- ?R /\ _ => assert (Hz : R) by reflexivity
  end.
  split; [exact Hz|].
  exact (proj2 (proj2 (active_workers_count 1 1 _ _ _ Hnew Hrun)) Hz).
Defined.

(** X3. Elastic pool: a worker never waits.  In every state of every run
    a worker at its select finds a task of its class in the queue, so
    the receive of its select is ready and hands it the oldest task of
    the queue; and a worker at its deferred release finds a slot in the
    semaphore of its class, so the receive of line 128 / 154 takes a
    slot: it neither waits nor gets the zero value of a closed
    semaphore. *)
Theorem worker_never_blocks (maxP maxN : N) (t0 : DynamicThreadPool)
  (acts : list action) (s : State) (tid : nat) (u : bool) (c : choice) :
  NewDynamicThreadPool maxP maxN = Some t0 ->
  run (initial t0) acts = Ok s ->
  (threads s !! tid = Some (worker_select u) ->
   exists x rest,
     buf (taskCh u (pool s)) = x :: rest
     /\ step s (Run tid Case2)
        = Ok (mkState
                (set_taskCh u
                   (mkChan rest (cap (taskCh u (pool s)))
                      (closed (taskCh u (pool s))))
                   (pool s))
                (<[tid := worker_exec u x]> (threads s) ++ [])
                (Ev tid (Dequeue u x) :: events s)))
  /\ (threads s !! tid = Some (worker_release u) ->
      exists rest,
        buf (sem u (pool s)) = () :: rest
        /\ step s (Run tid c)
           = Ok (mkState
                   (set_sem u
                      (mkChan rest (cap (sem u (pool s)))
                         (closed (sem u (pool s))))
                      (pool s))
                   (<[tid := worker_dec u]> (threads s) ++ [])
                   (Ev tid (Release u) :: events s))).
Proof.
  intros Hnew Hrun.
  destruct (more_run _ _ _ _ _ Hnew Hrun) as ((Hsem & _) & Hq & _).
  destruct (Hsem u) as (Hslots & _).
  destruct (Hq u) as (_ & _ & _ & Hwait).
  split; intros Hl.
  - pose proof (total_lookup_le (waiting u) _ _ _ Hl) as Hwa.
    simpl in Hwa. rewrite Bool.eqb_reflx in Hwa.
    destruct (buf (taskCh u (pool s))) as [|x rest] eqn:Hb;
      [simpl in *; lia|].
    exists x, rest. split; [reflexivity|].
    unfold step. rewrite Hl. simpl. unfold chan_recv. rewrite Hb.
    reflexivity.
  - pose proof (total_lookup_le (holds_slot u) _ _ _ Hl) as Hh.
    simpl in Hh. rewrite Bool.eqb_reflx in Hh.
    destruct (buf (sem u (pool s))) as [|[] rest] eqn:Hb;
      [simpl in *; lia|].
    exists rest. split; [reflexivity|].
    unfold step. rewrite Hl. simpl. unfold chan_recv. rewrite Hb.
    reflexivity.
Qed.

(** A worker of the priority class at its select, its task queued, and
    the same worker at its release after it took the shutdown signal. *)
Lemma worker_never_blocks_witness :
  (exists s,
     run (initial pool_1_1)
       (Invoke (CallSchedule true 7) :: schedule_steps 0) = Ok s
     /\ threads s !! 1 = Some (worker_select true)
     /\ exists x rest,
         buf (taskCh true (pool s)) = x :: rest
         /\ step s (Run 1 Case2)
            = Ok (mkState
                    (set_taskCh true
                       (mkChan rest (cap (taskCh true (pool s)))
                          (closed (taskCh true (pool s))))
                       (pool s))
                    (<[1 := worker_exec true x]> (threads s) ++ [])
                    (Ev 1 (Dequeue true x) :: events s)))
  /\ (exists s,
        run (initial pool_1_1)
          (Invoke (CallSchedule true 7) :: schedule_steps 0
             ++ [Invoke CallStop; Run 2 Case1; Run 2 Case1; Run 2 Case1;
                 Run 1 Case1]) = Ok s
        /\ threads s !! 1 = Some (worker_release true)
        /\ exists rest,
            buf (sem true (pool s)) = () :: rest
            /\ step s (Run 1 Case1)
               = Ok (mkState
                       (set_sem true
                          (mkChan rest (cap (sem true (pool s)))
                             (closed (sem true (pool s))))
                          (pool s))
                       (<[1 := worker_dec true]> (threads s) ++ [])
                       (Ev 1 (Release true) :: events s))).
Proof.
  assert (Hnew : NewDynamicThreadPool 1 1 = Some pool_1_1) by reflexivity.
  split; eexists.
  - match goal with
    | |- ?R /\ _ => assert (Hrun : R) by (vm_compute; reflexivity)
    end.
    split; [exact Hrun|].
    match goal with |- ?R /\ _ => assert (Hl : R) by reflexivity end.
    split; [exact Hl|].
    exact (proj1 (worker_never_blocks 1 1 _ _ _ 1 true Case1 Hnew Hrun)
             Hl).
  - match goal with
    | |- ?R /\ _ => assert (Hrun : R) by (vm_compute; reflexivity)
    end.
    split; [exact Hrun|].
    match goal with |- ?R /\ _ => assert (Hl : R) by reflexivity end.
    split; [exact Hl|].
    exact (proj2 (worker_never_blocks 1 1 _ _ _ 1 true Case1 Hnew Hrun)
             Hl).
Defined.

(** X4. Elastic pool: what [Schedule] returns.  A call that returned
    [true] has enqueued exactly one task, which is among the accepted
    ones; a call that returned [false] has enqueued nothing, and the pool
    is marked stopped. *)
Theorem schedule_result (maxP maxN : N) (t0 : DynamicThreadPool)
  (acts : list action) (s : State) (tid : nat) (ok : bool) :
  NewDynamicThreadPool maxP maxN = Some t0 ->
  run (initial t0) acts = Ok s ->
  threads s !! tid = Some (Schedule_ret ok) ->
  if ok
  then exists u x,
      timeline tid (events s) = [Accept u x]
      /\ In x (accepted (events s))
  else timeline tid (events s) = [] /\ isStopped (pool s) = true.
Proof.
  intros Hnew Hrun Hl.
  destruct (more_run _ _ _ _ _ Hnew Hrun) as (_ & _ & _ & Hcall & Hg).
  pose proof (Hcall _ _ Hl) as Ht. destruct ok; simpl in Ht.
  - destruct Ht as (u & x & Ht). exists u, x. split; [assumption|].
    unfold timeline in Ht.
    assert (Hin : In (Accept u x) (history tid (events s))).
    { apply in_rev. rewrite Ht. left. reflexivity. }
    clear - Hin. induction (events s) as [|[i k] evs IH]; simpl in *;
      [contradiction|].
    destruct (Nat.eqb i tid).
    + destruct Hin as [->|Hin]; [left; reflexivity|].
      destruct k; simpl; auto.
    + destruct k; simpl; auto.
  - split; [assumption|]. destruct Hg as (_ & Hret). eauto.
Qed.

(** [Schedule(true, 7)] returns [true] on a running pool and [false]
    after [Stop()]. *)
Lemma schedule_result_witness :
  exists s,
    run (initial pool_1_1)
      (Invoke (CallSchedule true 7) :: schedule_steps 0
         ++ [Run 1 Case2; Run 1 Case1; Run 1 Case1; Run 1 Case1;
             Run 1 Case1]
         ++ Invoke CallStop :: stop_steps 2
         ++ [Invoke (CallSchedule true 8); Run 3 Case1]) = Ok s
    /\ threads s !! 0 = Some (Schedule_ret true)
    /\ threads s !! 3 = Some (Schedule_ret false)
    /\ (exists u x, timeline 0 (events s) = [Accept u x]
                    /\ In x (accepted (events s)))
    /\ timeline 3 (events s) = [] /\ isStopped (pool s) = true.
Proof.
  eexists.
  assert (Hnew : NewDynamicThreadPool 1 1 = Some pool_1_1) by reflexivity.
  match goal with
  | |- ?R /\ _ => assert (Hrun : R) by (vm_compute; reflexivity)
  end.
  split; [exact Hrun|].
  match goal with |- ?R /\ _ => assert (H0 : R) by reflexivity end.
  split; [exact H0|].
  match goal with |- ?R /\ _ => assert (H3 : R) by reflexivity end.
  split; [exact H3|].
  split; [exact (schedule_result 1 1 _ _ _ 0 true Hnew Hrun H0)|].
  exact (schedule_result 1 1 _ _ _ 3 false Hnew Hrun H3).
Defined.

Lemma executing_le_in_wg (u : bool) (l : pc) : executing u l <= in_wg l.
Proof. destruct l; simpl; try lia. destruct (Bool.eqb urgent u); lia. Qed.

(** What a returned [Stop()] leaves behind. *)
Lemma stop_returned_closed (s : State) :
  stop_inv s -> stop_returned s ->
  stopOnce (pool s) = OnceDone
  /\ isStopped (pool s) = true
  /\ closed (closeCh (pool s)) = true
  /\ (total stop_panicked (threads s) = 0 ->
      closed (priorityCh (pool s)) = true
      /\ closed (normalCh (pool s)) = true
      /\ closed (prioritySem (pool s)) = true
      /\ closed (normalSem (pool s)) = true).
Proof.
  intros Hstop Hret.
  destruct (stop_returned_stopped _ Hstop Hret) as (Hd & Hs).
  destruct Hstop as (Honce & _ & _). unfold once_ok in Honce.
  rewrite Hd in Honce.
  destruct Honce as (_ & [(_ & Hf)|(Hp & Hf)]);
    unfold flags, all_closed, waiting_flags in Hf;
    injection Hf as ? ? ? ? ? ?; repeat split; try assumption;
    intros; lia.
Qed.

(** X5. Elastic pool: when [wg.Wait()] of [Stop] returns, at once or
    after it was parked, no worker is left between its start and its
    [wg.Done()], so none is inside [Execute()].  And when a [Stop()] call
    has returned, [stopOnce] is done, the pool is marked stopped and
    [closeCh] is closed; both queues and both semaphores are closed as
    well, unless a [Stop()] call has ended in the panic of
    [wg.Wait()]. *)
Theorem stop_waits_for_workers (maxP maxN : N) (t0 : DynamicThreadPool)
  (acts : list action) (s : State) :
  NewDynamicThreadPool maxP maxN = Some t0 ->
  run (initial t0) acts = Ok s ->
  (forall tid l c s',
      threads s !! tid = Some l ->
      l = Stop_wait \/ l = Stop_parked ->
      step s (Run tid c) = Ok s' ->
      threads s' !! tid = Some Stop_closePriorityCh ->
      total in_wg (threads s') = 0
      /\ (forall u, total (executing u) (threads s') = 0))
  /\ (stop_returned s ->
      stopOnce (pool s) = OnceDone
      /\ isStopped (pool s) = true
      /\ closed (closeCh (pool s)) = true
      /\ (total stop_panicked (threads s) = 0 ->
          closed (priorityCh (pool s)) = true
          /\ closed (normalCh (pool s)) = true
          /\ closed (prioritySem (pool s)) = true
          /\ closed (normalSem (pool s)) = true)).
Proof.
  intros Hnew Hrun.
  destruct (invariant_run _ _ _ _ _ Hnew Hrun)
    as (_ & (Hwc & _) & _ & Hstop & _).
  split.
  - intros tid l c s' Hl Hat Hstep Hnext.
    apply step_Run in Hstep as (l0 & t' & l' & ks & sp & Hl' & Hst & ->).
    rewrite Hl in Hl'. injection Hl' as <-.
    pose proof (lookup_lt_Some _ _ _ Hl) as Hlen.
    pose proof (total_insert in_wg _ _ _ l' Hl) as Hins.
    simpl in Hnext.
    assert (Hl'' : l' = Stop_closePriorityCh).
    { destruct (decide (tid < length (<[tid:=l']> (threads s))))
        as [Hlt|Hge]; [|rewrite length_insert in Hge; lia].
      rewrite lookup_app_l in Hnext by assumption.
      rewrite list_lookup_insert_eq in Hnext by assumption.
      congruence. }
    subst l'. simpl. rewrite total_app.
    assert (Hz : total in_wg (<[tid:=Stop_closePriorityCh]> (threads s))
                 + total in_wg sp = 0).
    { destruct Hat as [-> | ->]; dynamic_cases Hst; wg_facts;
        simpl in *; lia. }
    split; [assumption|].
    intros u. rewrite total_app.
    pose proof (total_le (executing u) in_wg
                  (<[tid:=Stop_closePriorityCh]> (threads s))
                  (executing_le_in_wg u)).
    pose proof (total_le (executing u) in_wg sp (executing_le_in_wg u)).
    lia.
  - intros Hret. apply stop_returned_closed; assumption.
Qed.

(** [Stop()] parks in [wg.Wait()] while the worker of task 7 is inside
    [Execute()], is woken by the worker's [wg.Done()] and returns with
    everything closed. *)
Lemma stop_waits_for_workers_witness :
  exists s,
    run (initial pool_1_1)
      (Invoke (CallSchedule true 7) :: schedule_steps 0
         ++ [Run 1 Case2; Invoke CallStop; Run 2 Case1; Run 2 Case1;
             Run 2 Case1; Run 2 Case1; Run 1 Case1; Run 1 Case1;
             Run 1 Case1; Run 1 Case1; Run 2 Case1; Run 2 Case1;
             Run 2 Case1; Run 2 Case1; Run 2 Case1; Run 2 Case1])
    = Ok s
    /\ stop_returned s
    /\ total stop_panicked (threads s) = 0
    /\ executed (events s) = [7]
    /\ closed (prioritySem (pool s)) = true.
Proof.
  eexists.
  assert (Hnew : NewDynamicThreadPool 1 1 = Some pool_1_1) by reflexivity.
  match goal with
  | |- ?R /\ _ => assert (Hrun : R) by (vm_compute; reflexivity)
  end.
  split; [exact Hrun|].
  match goal with
  | |- ?R /\ _ => assert (Hret : R) by (exists 2; reflexivity)
  end.
  split; [exact Hret|].
  match goal with |- ?R /\ _ => assert (Hp : R) by reflexivity end.
  split; [exact Hp|]. split; [reflexivity|].
  exact (proj1 (proj2 (proj2
           (proj2 (proj2 (proj2
              (proj2 (stop_waits_for_workers 1 1 _ _ _ Hnew Hrun) Hret)))
              Hp)))).
Defined.

(** X6. Elastic pool: [Schedule] is not safe against a [Stop()] that
    returns meanwhile, none having ended in a panic.  A caller that
    passed the stopped check of its launcher sends on the closed
    semaphore and panics; a caller in its select panics if the select
    takes the send on the closed queue, and returns [false] if it takes
    [closeCh]. *)
Theorem schedule_races_with_stop (maxP maxN : N)
  (t0 : DynamicThreadPool) (acts : list action) (s : State) (tid : nat)
  (urgent : bool) (c : choice) :
  NewDynamicThreadPool maxP maxN = Some t0 ->
  run (initial t0) acts = Ok s ->
  stop_returned s ->
  total stop_panicked (threads s) = 0 ->
  (threads s !! tid = Some (tryLaunch_acquire urgent) ->
   step s (Run tid c) = Panic SendOnClosedChannel)
  /\ (forall item,
        threads s !! tid = Some (Schedule_select urgent item) ->
        step s (Run tid Case1) = Panic SendOnClosedChannel
        /\ step s (Run tid Case2)
           = Ok (mkState (pool s)
                   (<[tid := Schedule_ret false]> (threads s) ++ [])
                   (events s))).
Proof.
  intros Hnew Hrun Hret Hnone.
  destruct (invariant_run _ _ _ _ _ Hnew Hrun)
    as (_ & _ & _ & Hstop & _).
  destruct (stop_returned_closed _ Hstop Hret) as (_ & _ & Hc & Hall).
  destruct (Hall Hnone) as (Hp & Hn & Hps & Hns).
  split.
  - intros Hl. unfold step. rewrite Hl. simpl. unfold chan_send.
    destruct urgent; simpl; rewrite ?Hps, ?Hns; reflexivity.
  - intros item Hl. unfold step. rewrite Hl. simpl. unfold chan_send.
    rewrite Hc. destruct urgent; simpl; rewrite ?Hp, ?Hn; auto.
Qed.

(** A [Schedule(true, 7)] call has passed the stopped check of its
    launcher (line 99) when [Stop()] runs to its end; the send on the
    semaphore then panics. *)
Lemma schedule_races_with_stop_witness :
  exists s,
    run (initial pool_1_1)
      ([Invoke (CallSchedule true 7); Run 0 Case1; Run 0 Case1;
        Run 0 Case1]
         ++ Invoke CallStop :: stop_steps 1) = Ok s
    /\ stop_returned s
    /\ total stop_panicked (threads s) = 0
    /\ threads s !! 0 = Some (tryLaunch_acquire true)
    /\ step s (Run 0 Case1) = Panic SendOnClosedChannel.
Proof.
  eexists.
  assert (Hnew : NewDynamicThreadPool 1 1 = Some pool_1_1) by reflexivity.
  match goal with
  | |- ?R /\ _ => assert (Hrun : R) by (vm_compute; reflexivity)
  end.
  split; [exact Hrun|].
  match goal with
  | |- ?R /\ _ => assert (Hret : R) by (exists 1; reflexivity)
  end.
  split; [exact Hret|].
  match goal with |- ?R /\ _ => assert (Hp : R) by reflexivity end.
  split; [exact Hp|].
  match goal with |- ?R /\ _ => assert (Hl : R) by reflexivity end.
  split; [exact Hl|].
  exact (proj1 (schedule_races_with_stop 1 1 _ _ _ 0 true Case1
                  Hnew Hrun Hret Hp) Hl).
Defined.

(** X14. Elastic pool: [Stop()] can panic.  A [Stop] call parked in
    [wg.Wait()] whose wake-up has been posted (the last worker is done)
    resumes in a panic when the counter has been raised again since,
    which the launcher of a [Schedule] call that passed both stopped
    checks does at line 106 / 119.  The panic leaves [stopOnce] done
    with the pool marked stopped and [closeCh] closed, but both queues
    and both semaphores open; further [Stop()] calls return at their
    first statement and leave them open. *)
Theorem stop_wait_panics (maxP maxN : N) (t0 : DynamicThreadPool)
  (acts : list action) (s : State) (tid : nat) (c : choice) :
  NewDynamicThreadPool maxP maxN = Some t0 ->
  run (initial t0) acts = Ok s ->
  threads s !! tid = Some Stop_parked ->
  sema (wg (pool s)) <> 0 ->
  counter (wg (pool s)) <> 0%Z ->
  exists s',
    step s (Run tid c) = Ok s'
    /\ threads s' = <[tid := Stop_panic]> (threads s)
    /\ events s' = events s
    /\ stopOnce (pool s') = OnceDone
    /\ flags (pool s') = [true; true; false; false; false; false]
    /\ forall k, exists s'',
         stop_again k s' = Ok s''
         /\ pool s'' = pool s' /\ events s'' = events s'
         /\ threads s'' = threads s' ++ repeat Stop_ret k.
Proof.
  intros Hnew Hrun Hl Hsema Hcount.
  destruct (invariant_run _ _ _ _ _ Hnew Hrun)
    as (_ & _ & _ & (_ & Hok & _) & _).
  pose proof (Hok _ _ Hl) as (_ & Hf). simpl in Hf.
  assert (Hstep : thread_step (pool s) c Stop_parked
    = Ok (set_stopOnce OnceDone
            (set_wg (mkWaitGroup (counter (wg (pool s)))
                       (waiters (wg (pool s)))
                       (Nat.pred (sema (wg (pool s)))))
               (pool s)),
          Stop_panic, [], [])).
  { simpl. unfold WaitGroup_resume.
    destruct (sema (wg (pool s))) as [|n]; [congruence|]. simpl.
    unfold WaitGroup_at_rest. simpl.
    destruct (Z.eqb_spec (counter (wg (pool s))) 0); [congruence|].
    reflexivity. }
  eexists. split; [eapply step_Run_eq; eassumption|]. simpl.
  split; [apply app_nil_r|]. split; [reflexivity|].
  split; [reflexivity|]. split; [exact Hf|].
  intros k. apply stop_again_done. reflexivity.
Qed.

(** On a pool with ceilings (1, 1): an urgent task has its worker; a
    [Schedule(false, 2)] call has passed both stopped checks; [Stop()]
    parks in [wg.Wait()]; the worker takes the shutdown signal and its
    [wg.Done()] wakes [Stop]; the launcher of the second call takes its
    slot and adds to the WaitGroup; [Stop] resumes in the panic. *)
Lemma stop_wait_panics_witness :
  exists s,
    run (initial pool_1_1)
      (Invoke (CallSchedule true 1) :: schedule_steps 0
         ++ [Invoke (CallSchedule false 2); Run 2 Case1; Run 2 Case1;
             Run 2 Case1;
             Invoke CallStop; Run 3 Case1; Run 3 Case1; Run 3 Case1;
             Run 3 Case1;
             Run 1 Case1; Run 1 Case1; Run 1 Case1; Run 1 Case1;
             Run 2 Case1; Run 2 Case1; Run 2 Case1]) = Ok s
    /\ threads s !! 3 = Some Stop_parked
    /\ sema (wg (pool s)) <> 0
    /\ counter (wg (pool s)) <> 0%Z
    /\ exists s',
        step s (Run 3 Case1) = Ok s'
        /\ threads s' = <[3 := Stop_panic]> (threads s)
        /\ events s' = events s
        /\ stopOnce (pool s') = OnceDone
        /\ flags (pool s') = [true; true; false; false; false; false]
        /\ forall k, exists s'',
             stop_again k s' = Ok s''
             /\ pool s'' = pool s' /\ events s'' = events s'
             /\ threads s'' = threads s' ++ repeat Stop_ret k.
Proof.
  eexists.
  assert (Hnew : NewDynamicThreadPool 1 1 = Some pool_1_1) by reflexivity.
  match goal with
  | |- ?R /\ _ => assert (Hrun : R) by (vm_compute; reflexivity)
  end.
  split; [exact Hrun|].
  match goal with |- ?R /\ _ => assert (Hl : R) by reflexivity end.
  split; [exact Hl|].
  match goal with
  | |- ?R /\ _ => assert (Hs : R) by (vm_compute; discriminate)
  end.
  split; [exact Hs|].
  match goal with
  | |- ?R /\ _ => assert (Hc : R) by (vm_compute; discriminate)
  end.
  split; [exact Hc|].
  exact (stop_wait_panics 1 1 _ _ _ 3 Case1 Hnew Hrun Hl Hs Hc).
Defined.

Lemma launch_inv_step (s s' : State) (a : action) :
  launch_inv s -> step s a = Ok s' -> launch_inv s'.
Proof.
  unfold launch_inv. intros Hinv H. destruct a as [c|tid c|i j].
  - apply step_Invoke in H as ->. simpl. rewrite total_app. simpl.
    destruct c; simpl; lia.
  - apply step_Run in H as (l & t' & l' & ks & sp & Hl & Hstep & ->).
    simpl. rewrite total_app.
    pose proof (total_insert launched _ _ _ l' Hl) as Hins.
    destruct l; dynamic_cases Hstep; try (destruct urgent);
      unfold tag; simpl in *; lia.
  - apply step_Handoff in H
      as (urgent & item & Hi & Hj & Hne & _ & _ & ->). simpl.
    assert (Hj' : <[i := tryLaunch_load urgent]> (threads s) !! j
                  = Some (worker_select urgent))
      by (rewrite list_lookup_insert_ne by assumption; assumption).
    pose proof (total_insert launched _ _ _
                  (worker_exec urgent item) Hj').
    pose proof (total_insert launched _ _ _
                  (tryLaunch_load urgent) Hi).
    simpl in *. lia.
Qed.

Lemma spawned_le_launched (l : pc) : spawned l <= launched l.
Proof. destruct l; simpl; lia. Qed.

(** X7. Elastic pool: workers are started for accepted tasks only, at
    most one for each: in every state of every run the goroutines started
    as workers are at most as many as the tasks accepted so far. *)
Theorem one_worker_per_task (maxP maxN : N) (t0 : DynamicThreadPool)
  (acts : list action) (s : State) :
  NewDynamicThreadPool maxP maxN = Some t0 ->
  run (initial t0) acts = Ok s ->
  total spawned (threads s) <= length (accepted (events s)).
Proof.
  intros Hnew Hrun.
  assert (Hinv : launch_inv s).
  { eapply (run_preserves launch_inv); [|
      |exact Hrun]; eauto using launch_inv_step.
    unfold launch_inv. simpl. lia. }
  pose proof (total_le spawned launched (threads s) spawned_le_launched).
  unfold launch_inv in Hinv. lia.
Qed.

(** Two tasks accepted, two workers started. *)
Lemma one_worker_per_task_witness :
  exists s,
    run (initial pool_1_1)
      (Invoke (CallSchedule true 2) :: schedule_steps 0
         ++ Invoke (CallSchedule false 3) :: schedule_steps 2) = Ok s
    /\ length (accepted (events s)) = 2
    /\ total spawned (threads s) = 2
    /\ total spawned (threads s) <= length (accepted (events s)).
Proof.
  eexists.
  assert (Hnew : NewDynamicThreadPool 1 1 = Some pool_1_1) by reflexivity.
  match goal with
  | |- ?R /\ _ => assert (Hrun : R) by (vm_compute; reflexivity)
  end.
  split; [exact Hrun|]. split; [reflexivity|]. split; [reflexivity|].
  exact (one_worker_per_task 1 1 _ _ _ Hnew Hrun).
Defined.

(** X8. Elastic pool: [tryLaunchPriorityWorker] / [tryLaunchNormalWorker]
    wait for a slot.  While the goroutines holding a slot of the class
    are as many as its ceiling and the semaphore is open, the send of the
    launcher, and with it the [Schedule] call, cannot proceed; below the
    ceiling it proceeds. *)
Theorem schedule_blocks_at_ceiling (maxP maxN : N)
  (t0 : DynamicThreadPool) (acts : list action) (s : State) (tid : nat)
  (urgent : bool) (c : choice) :
  NewDynamicThreadPool maxP maxN = Some t0 ->
  run (initial t0) acts = Ok s ->
  threads s !! tid = Some (tryLaunch_acquire urgent) ->
  closed (sem urgent (pool s)) = false ->
  (N.of_nat (total (holds_slot urgent) (threads s))
   = (if urgent then maxP else maxN) ->
   step s (Run tid c) = Blocked)
  /\ ((N.of_nat (total (holds_slot urgent) (threads s))
       < (if urgent then maxP else maxN))%N ->
      exists s', step s (Run tid c) = Ok s').
Proof.
  intros Hnew Hrun Hl Hopen.
  destruct (invariant_run _ _ _ _ _ Hnew Hrun) as (Hsem & _).
  destruct (Hsem urgent) as (Htot & Hcap & Hceil).
  unfold step. rewrite Hl. simpl. unfold chan_send. rewrite Hopen.
  rewrite <- Htot, Hceil. split; intros Hn.
  - destruct (N.ltb_spec (N.of_nat (total (holds_slot urgent) (threads s)))
                (if urgent then maxP else maxN)); [lia|reflexivity].
  - destruct (N.ltb_spec (N.of_nat (total (holds_slot urgent) (threads s)))
                (if urgent then maxP else maxN)); [|lia].
    simpl. eauto.
Qed.

(** The second urgent [Schedule] call on a pool with ceilings (1, 1)
    waits in its launcher while the first worker holds the only slot. *)
Lemma schedule_blocks_at_ceiling_witness :
  exists s,
    run (initial pool_1_1)
      (Invoke (CallSchedule true 1) :: schedule_steps 0
         ++ [Invoke (CallSchedule true 2); Run 2 Case1; Run 2 Case1;
             Run 2 Case1]) = Ok s
    /\ threads s !! 2 = Some (tryLaunch_acquire true)
    /\ step s (Run 2 Case1) = Blocked.
Proof.
  eexists.
  assert (Hnew : NewDynamicThreadPool 1 1 = Some pool_1_1) by reflexivity.
  match goal with
  | |- ?R /\ _ => assert (Hrun : R) by (vm_compute; reflexivity)
  end.
  split; [exact Hrun|].
  match goal with |- ?R /\ _ => assert (Hl : R) by reflexivity end.
  split; [exact Hl|].
  exact (proj1 (schedule_blocks_at_ceiling 1 1 _ _ _ 2 true Case1
                  Hnew Hrun Hl eq_refl) eq_refl).
Defined.

End DynamicExtra.

(** ** The Fixed pool *)

Module StaticExtra.
Import Static StaticFacts.

Lemma fixed_step_Handoff_cap (s s' : State) (i j : nat) :
  step s (Handoff i j) = Ok s' ->
  exists urgent item priority,
    threads s !! i = Some (Schedule_send urgent item)
    /\ threads s !! j = Some (Do_select priority)
    /\ i <> j
    /\ (priority = true -> urgent = true)
    /\ cap (taskCh urgent (pool s)) = 0%N
    /\ s' = mkState (pool s)
              (<[j := Do_exec priority (Some item)]>
                 (<[i := Schedule_ret]> (threads s)))
              (Ev j (Dequeue urgent item)
                 :: Ev i (Accept urgent item) :: events s).
Proof.
  unfold step.
  destruct (threads s !! i) as [[]|] eqn:Ei; try discriminate.
  destruct (threads s !! j) as [[]|] eqn:Ej; try discriminate.
  destruct (urgent || negb priority) eqn:Em; simpl; [|discriminate].
  destruct (N.eqb_spec (cap (taskCh urgent (pool s))) 0); simpl;
    [|discriminate].
  destruct (closed (taskCh urgent (pool s))); simpl; [discriminate|].
  intros [= <-]. exists urgent, item, priority.
  repeat split; try assumption.
  - intros ->. congruence.
  - intros ->. destruct urgent; [reflexivity|discriminate].
Qed.

Lemma fixed_queue_inv_step (capacity : bool -> N) (s s' : State)
  (a : action) :
  queue_inv capacity s -> step s a = Ok s' -> queue_inv capacity s'.
Proof.
  intros Hinv H u. destruct (Hinv u) as (Hfifo & Hlen & Hcap).
  destruct a as [c|tid c|i j].
  - apply fixed_step_Invoke in H as ->. simpl. auto.
  - apply fixed_step_Run in H as (l & t' & l' & ks & sp & Hl & Hstep & ->).
    simpl.
    destruct l; static_cases Hstep; to_prop;
      try (destruct urgent); destruct u; unfold tag; simpl in *;
      use_bufs; simpl in *;
      rewrite ?rev_app_distr, ?length_app in *; simpl in *;
      rewrite <- ?app_assoc in *; simpl in *;
      (split; [assumption || congruence|]);
      (split; [lia|]); assumption.
  - apply fixed_step_Handoff_cap in H
      as (urgent & item & priority & Hi & Hj & Hne & _ & Hc0 & ->).
    simpl. destruct (Bool.eqb urgent u) eqn:E.
    + apply Bool.eqb_prop in E. subst u.
      assert (Hnil : buf (taskCh urgent (pool s)) = []).
      { destruct (buf (taskCh urgent (pool s))); [reflexivity|].
        simpl in Hlen. lia. }
      rewrite Hnil in *. simpl in *.
      split; [congruence|]. split; [lia|assumption].
    + auto.
Qed.

Lemma fixed_wg_inv_step (s s' : State) (a : action) :
  wg_inv s -> step s a = Ok s' -> wg_inv s'.
Proof.
  unfold wg_inv. intros Hinv H. destruct a as [c|tid c|i j].
  - apply fixed_step_Invoke in H as ->. simpl. rewrite total_app. simpl.
    destruct c; simpl; lia.
  - apply fixed_step_Run in H as (l & t' & l' & ks & sp & Hl & Hstep & ->).
    simpl. rewrite total_app.
    pose proof (total_insert in_wg _ _ _ l' Hl) as Hins.
    destruct l; static_cases Hstep; to_prop;
      try (destruct urgent); simpl in *; lia.
  - apply fixed_step_Handoff in H
      as (urgent & item & priority & Hi & Hj & Hne & ->). simpl.
    assert (Hj' : <[i := Schedule_ret]> (threads s) !! j
                  = Some (Do_select priority))
      by (rewrite list_lookup_insert_ne by assumption; assumption).
    pose proof (total_insert in_wg _ _ _
                  (Do_exec priority (Some item)) Hj').
    pose proof (total_insert in_wg _ _ _ Schedule_ret Hi).
    simpl in *. lia.
Qed.

Lemma fixed_log_local (t t' : StaticThreadPool) (c : choice) (l l' : pc)
  (ks : list kind) (sp : list pc) (h : list kind) :
  thread_step t c l = Ok (t', l', ks, sp) ->
  worker_log l h ->
  worker_log l' (ks ++ h)
  /\ forall l0, In l0 sp -> worker_log l0 [].
Proof.
  intros H Hh.
  destruct l; static_cases H; try (destruct urgent);
    try (destruct priority).
  all: split; [|intros l0 Hin; simpl in Hin; intuition (subst; done)].
  all: simpl in *; try done; eauto 10.
  all: try (destruct Hh as (u & r & -> & Hu & Hr); simpl; auto).
  all: eexists _, _; split; [reflexivity|]; split; [|assumption];
    intros; congruence.
Qed.

Lemma fixed_log_spawn (t t' : StaticThreadPool) (c : choice) (l l' : pc)
  (ks : list kind) (sp : list pc) (l0 : pc) :
  thread_step t c l = Ok (t', l', ks, sp) ->
  In l0 sp -> worker_log l0 [].
Proof.
  intros H Hin.
  destruct l; static_cases H; simpl in Hin; intuition (subst; done).
Qed.

Lemma fixed_log_inv_step (s s' : State) (a : action) :
  log_inv s -> step s a = Ok s' -> log_inv s'.
Proof.
  intros Hinv H tid0. destruct a as [c|tid c|i j].
  - apply fixed_step_Invoke in H as ->. simpl. specialize (Hinv tid0).
    destruct (decide (tid0 < length (threads s))) as [Hlt|Hge].
    + rewrite lookup_app_l by assumption. assumption.
    + rewrite lookup_ge_None_2 in Hinv by lia.
      rewrite lookup_app_r by lia. rewrite Hinv.
      destruct (tid0 - length (threads s)) as [|k]; simpl;
        [destruct c; exact I|reflexivity].
  - apply fixed_step_Run in H as (l & t' & l' & ks & sp & Hl & Hstep & ->).
    simpl. rewrite history_tag.
    pose proof (lookup_lt_Some _ _ _ Hl) as Hlen.
    destruct (Nat.eqb_spec tid tid0) as [<-|Hne].
    + rewrite lookup_app_l by (rewrite length_insert; assumption).
      rewrite list_lookup_insert_eq by assumption.
      pose proof (Hinv tid) as Itid. rewrite Hl in Itid.
      eapply fixed_log_local; eauto.
    + simpl. specialize (Hinv tid0).
      destruct (decide (tid0 < length (threads s))) as [Hlt|Hge].
      * rewrite lookup_app_l by (rewrite length_insert; assumption).
        rewrite list_lookup_insert_ne by assumption. assumption.
      * rewrite lookup_ge_None_2 in Hinv by lia.
        rewrite lookup_app_r by (rewrite length_insert; lia).
        rewrite Hinv.
        destruct (sp !! _) as [l0|] eqn:Hsp; [|reflexivity].
        eapply fixed_log_spawn; [exact Hstep|].
        apply list_elem_of_In. eapply list_elem_of_lookup_2. eassumption.
  - apply fixed_step_Handoff_cap in H
      as (urgent & item & priority & Hi & Hj & Hne & Hm & _ & ->).
    pose proof (Hinv tid0) as It. simpl.
    destruct (Nat.eqb_spec j tid0) as [<-|Hj0].
    + rewrite list_lookup_insert_eq
        by (rewrite length_insert; eapply lookup_lt_Some; eassumption).
      destruct (Nat.eqb_spec i j) as [|_]; [congruence|].
      rewrite Hj in It. simpl in *. eauto.
    + rewrite list_lookup_insert_ne by assumption.
      destruct (Nat.eqb_spec i tid0) as [<-|Hi0].
      * rewrite list_lookup_insert_eq
          by (eapply lookup_lt_Some; eassumption).
        exact I.
      * rewrite list_lookup_insert_ne by assumption. assumption.
Qed.

Lemma fixed_more_run (count : N) (t0 : StaticThreadPool)
  (acts : list action) (s : State) :
  NewStaticThreadPool count = Some t0 ->
  run (initial t0) acts = Ok s ->
  more_inv (fun u : bool => if u then uint32 (count * 2)
                            else uint32 (count * 5000)) s.
Proof.
  intros Hnew Hrun.
  eapply (fixed_run_preserves (more_inv _)); [| |exact Hrun].
  - intros s1 s2 a (Hq & Hw & Hlog) Hstep.
    split; [eapply fixed_queue_inv_step; eassumption|].
    split; [eapply fixed_wg_inv_step; eassumption|].
    eapply fixed_log_inv_step; eassumption.
  - unfold NewStaticThreadPool in Hnew.
    destruct (count =? 0)%N; [discriminate|]. injection Hnew as <-.
    split; [|split].
    + intros [|]; simpl; repeat split; lia.
    + reflexivity.
    + intros tid. reflexivity.
Qed.

(** X9. Fixed pool: each queue is first-in first-out and bounded, with
    the capacities [count * 2] and [count * 5000] computed on
    [uint32]. *)
Theorem fixed_queue_fifo (count : N) (t0 : StaticThreadPool)
  (acts : list action) (s : State) (urgent : bool) :
  NewStaticThreadPool count = Some t0 ->
  run (initial t0) acts = Ok s ->
  rev (accepted_of urgent (events s))
  = rev (dequeued_of urgent (events s)) ++ buf (taskCh urgent (pool s))
  /\ (N.of_nat (length (buf (taskCh urgent (pool s))))
      <= cap (taskCh urgent (pool s)))%N
  /\ cap (taskCh urgent (pool s))
     = (if urgent then uint32 (count * 2) else uint32 (count * 5000)).
Proof.
  intros Hnew Hrun.
  destruct (fixed_more_run _ _ _ _ Hnew Hrun) as (Hq & _).
  destruct (Hq urgent) as (Hfifo & Hlen & Hcap).
  split; [|split; assumption].
  rewrite Hfifo, rev_app_distr, rev_involutive. reflexivity.
Qed.

(** Three normal tasks are accepted and the worker has received the
    first. *)
Lemma fixed_queue_fifo_witness :
  exists s,
    run (initial pool_1)
      (Invoke CallStart :: start_steps 0
         ++ [Invoke (CallSchedule false 1); Run 2 Case1;
             Invoke (CallSchedule false 2); Run 3 Case1;
             Invoke (CallSchedule false 3); Run 4 Case1;
             Run 1 Case2]) = Ok s
    /\ rev (accepted_of false (events s)) = [1; 2; 3]
    /\ rev (dequeued_of false (events s)) = [1]
    /\ buf (normalCh (pool s)) = [2; 3]
    /\ rev (accepted_of false (events s))
       = rev (dequeued_of false (events s)) ++ buf (normalCh (pool s)).
Proof.
  eexists.
  assert (Hnew : NewStaticThreadPool 1 = Some pool_1) by reflexivity.
  match goal with
  | |- ?R /\ _ => assert (Hrun : R) by (vm_compute; reflexivity)
  end.
  split; [exact Hrun|]. split; [reflexivity|]. split; [reflexivity|].
  split; [reflexivity|].
  exact (proj1 (fixed_queue_fifo 1 _ _ _ false Hnew Hrun)).
Defined.

Lemma served_dequeue (p : bool) (h : list kind) :
  (served p h ->
   forall u x, In (Dequeue u x) h -> p = true -> u = true)
  /\ (forall k, served p (k :: h) ->
      forall u x, In (Dequeue u x) (k :: h) -> p = true -> u = true).
Proof.
  induction h as [|a h [IH1 IH2]].
  - split; [intros _ u x []|]. intros k Hs. destruct k; contradiction.
  - split; [apply IH2|].
    intros k Hs u x Hin Hp.
    destruct k; try contradiction. destruct a; try contradiction.
    destruct Hs as (_ & Hu & Hs).
    destruct Hin as [Hin|[Hin|Hin]]; [discriminate| |eauto].
    injection Hin as -> _. auto.
Qed.

(** X10. Fixed pool: a worker executes the tasks it received, each once
    and before it receives the next, and a worker in urgent-only mode
    receives from the priority queue only. *)
Theorem fixed_worker_log (count : N) (t0 : StaticThreadPool)
  (acts : list action) (s : State) (tid : nat) (l : pc) (p : bool) :
  NewStaticThreadPool count = Some t0 ->
  run (initial t0) acts = Ok s ->
  threads s !! tid = Some l ->
  is_do p l = true ->
  worker_log l (history tid (events s))
  /\ (p = true ->
      forall u x, In (Dequeue u x) (history tid (events s)) -> u = true).
Proof.
  intros Hnew Hrun Hl Hdo.
  destruct (fixed_more_run _ _ _ _ Hnew Hrun) as (_ & _ & Hlog).
  pose proof (Hlog tid) as Ht. rewrite Hl in Ht.
  split; [assumption|]. intros Hp u x Hin.
  destruct l; try discriminate Hdo; simpl in Hdo;
    apply Bool.eqb_prop in Hdo; subst; simpl in Ht.
  - eapply (proj1 (served_dequeue true _)); eauto.
  - destruct item as [y|].
    + destruct Ht as (v & r & Hh & Hv & Hr). rewrite Hh in Hin.
      destruct Hin as [Hin|Hin]; [injection Hin as <- _; auto|].
      eapply (proj1 (served_dequeue true _)); eauto.
    + eapply (proj1 (served_dequeue true _)); eauto.
  - eapply (proj1 (served_dequeue true _)); eauto.
  - eapply (proj1 (served_dequeue true _)); eauto.
Qed.

Lemma fixed_run_app (s : State) (acts1 acts2 : list action) :
  run s (acts1 ++ acts2)
  = match run s acts1 with
    | Ok s1 => run s1 acts2
    | Blocked => Blocked
    | Panic f => Panic f
    end.
Proof.
  revert s. induction acts1 as [|a acts1 IH]; intros s; simpl;
    [reflexivity|].
  destruct (step s a); auto.
Qed.

Lemma new_static_fields (count : N) (t0 : StaticThreadPool) :
  NewStaticThreadPool count = Some t0 ->
  worker t0 = count /\ set_wg 0 t0 = t0 /\ count <> 0%N.
Proof.
  unfold NewStaticThreadPool.
  destruct (N.eqb_spec count 0); [discriminate|].
  intros [= <-]. repeat split. assumption.
Qed.

Lemma start_run_iterations (count : N) (t0 : StaticThreadPool) (k : nat) :
  NewStaticThreadPool count = Some t0 ->
  (count < uint32_modulus)%N ->
  (N.of_nat k <= count)%N ->
  run (initial t0) (start_run k)
  = Ok (mkState (set_wg (Z.of_nat k) t0)
          (Start_loop (highPriority t0) (N.of_nat k)
             :: workers_started t0 k) []).
Proof.
  intros Hnew Hlt.
  destruct (new_static_fields _ _ Hnew) as (Hw & Hwg & _).
  induction k as [|k IH]; intros Hk.
  - change (Z.of_nat 0) with 0%Z. rewrite Hwg. reflexivity.
  - simpl start_run. rewrite fixed_run_app, IH by lia. clear IH.
    simpl. rewrite Hw.
    destruct (N.ltb_spec (N.of_nat k) count) as [_|]; [|lia]. simpl.
    unfold wg_add.
    destruct (Z.ltb_spec (Z.of_nat k + 1) 0) as [|_]; [lia|]. simpl.
    unfold workers_started. rewrite seq_S, map_app. simpl.
    unfold set_wg. simpl. rewrite !app_nil_r.
    replace (Z.of_nat k + 1)%Z with (Z.of_nat (S k)) by lia.
    replace (uint32 (N.of_nat k + 1)) with (N.of_nat (S k)); [reflexivity|].
    unfold uint32.
    rewrite N.mod_small by (unfold uint32_modulus in *; lia). lia.
Qed.

(** X12. Fixed pool: [Start()] on a fresh pool, run on its own, ends
    after [count] iterations having started exactly [count] workers, the
    [i]-th of them in urgent-only mode exactly when [i] is below
    [highPriority], and having added [count] to the WaitGroup. *)
Theorem start_spawns_workers (count : N) (t0 : StaticThreadPool) :
  NewStaticThreadPool count = Some t0 ->
  (count < uint32_modulus)%N ->
  run (initial t0) (start_run (N.to_nat count) ++ [Run 0 Case1])
  = Ok (mkState (set_wg (Z.of_N count) t0)
          (Start_ret :: workers_started t0 (N.to_nat count)) [])
  /\ length (workers_started t0 (N.to_nat count)) = N.to_nat count
  /\ forall i : nat,
      i < N.to_nat count ->
      workers_started t0 (N.to_nat count) !! i
      = Some (Do_select (N.of_nat i <? highPriority t0)%N).
Proof.
  intros Hnew Hlt. split; [|split].
  - destruct (new_static_fields _ _ Hnew) as (Hw & _ & _).
    rewrite fixed_run_app.
    rewrite (start_run_iterations count) by (assumption || lia).
    simpl. rewrite Hw, N2Nat.id, N.ltb_irrefl. simpl.
    rewrite N_nat_Z, app_nil_r. reflexivity.
  - unfold workers_started. rewrite length_map, length_seq. reflexivity.
  - intros i Hi. unfold workers_started.
    rewrite list_lookup_fmap, lookup_seq_lt by assumption. reflexivity.
Qed.

(** [Start()] of [TestPrioritySchedule]: ten workers, the first one in
    urgent-only mode. *)
Lemma start_spawns_workers_witness :
  exists s,
    run (initial pool_10) (start_run 10 ++ [Run 0 Case1]) = Ok s
    /\ threads s
       = [Start_ret; Do_select true; Do_select false; Do_select false;
          Do_select false; Do_select false; Do_select false;
          Do_select false; Do_select false; Do_select false;
          Do_select false]
    /\ wg (pool s) = 10%Z.
Proof.
  eexists.
  assert (Hnew : NewStaticThreadPool 10 = Some pool_10) by reflexivity.
  split; [exact (proj1 (start_spawns_workers 10 pool_10 Hnew eq_refl))|].
  split; reflexivity.
Defined.

(** The urgent-only worker of a pool of ten takes an urgent task and
    executes it. *)
Lemma fixed_worker_log_witness :
  exists s,
    run (initial pool_10)
      (start_run 10
         ++ [Run 0 Case1; Invoke (CallSchedule true 5); Run 11 Case1;
             Run 1 Case1; Run 1 Case1]) = Ok s
    /\ threads s !! 1 = Some (Do_select true)
    /\ history 1 (events s) = [Execute 5; Dequeue true 5]
    /\ worker_log (Do_select true) (history 1 (events s)).
Proof.
  eexists.
  assert (Hnew : NewStaticThreadPool 10 = Some pool_10) by reflexivity.
  match goal with
  | |- ?R /\ _ => assert (Hrun : R) by (vm_compute; reflexivity)
  end.
  split; [exact Hrun|].
  match goal with |- ?R /\ _ => assert (Hl : R) by reflexivity end.
  split; [exact Hl|]. split; [reflexivity|].
  exact (proj1 (fixed_worker_log 10 _ _ _ 1 _ true Hnew Hrun Hl eq_refl)).
Defined.

(** X11. Fixed pool: the WaitGroup counter is the number of goroutines
    between line 45 and their deferred [wg.Done()]; a [wg.Done()] never
    panics; and when [wg.Wait()] of [Stop] returns, no worker is left. *)
Theorem fixed_wait_group (count : N) (t0 : StaticThreadPool)
  (acts : list action) (s : State) :
  NewStaticThreadPool count = Some t0 ->
  run (initial t0) acts = Ok s ->
  wg (pool s) = Z.of_nat (total in_wg (threads s))
  /\ (forall tid p c,
        threads s !! tid = Some (Do_wgDone p) ->
        step s (Run tid c)
        = Ok (mkState (set_wg (wg (pool s) - 1) (pool s))
                (<[tid := Do_exit p]> (threads s) ++ []) (events s)))
  /\ (forall tid c s',
        threads s !! tid = Some Stop_wait ->
        step s (Run tid c) = Ok s' ->
        total in_wg (threads s') = 0
        /\ threads s' !! tid = Some Stop_closeClose).
Proof.
  intros Hnew Hrun.
  destruct (fixed_more_run _ _ _ _ Hnew Hrun) as (_ & Hwg & _).
  unfold wg_inv in Hwg. split; [assumption|]. split.
  - intros tid p c Hl.
    pose proof (total_lookup_le in_wg _ _ _ Hl) as Hle. simpl in Hle.
    unfold step. rewrite Hl. simpl. unfold wg_add.
    destruct (Z.ltb_spec (wg (pool s) + -1) 0) as [|_]; [lia|].
    reflexivity.
  - intros tid c s' Hl Hstep.
    apply fixed_step_Run in Hstep
      as (l & t' & l' & ks & sp & Hl' & Hst & ->).
    rewrite Hl in Hl'. injection Hl' as <-.
    pose proof (lookup_lt_Some _ _ _ Hl) as Hlen.
    pose proof (total_insert in_wg _ _ _ Stop_closeClose Hl) as Hins.
    static_cases Hst. to_prop. simpl in *. rewrite app_nil_r.
    split; [lia|]. apply list_lookup_insert_eq. assumption.
Qed.

(** [Stop()] of a started pool of one worker passes [wg.Wait()] only
    after the worker has run its deferred [wg.Done()]. *)
Lemma fixed_wait_group_witness :
  exists s s',
    run (initial pool_1)
      (Invoke CallStart :: start_steps 0
         ++ [Invoke CallStop; Run 2 Case1; Run 2 Case1; Run 2 Case1;
             Run 1 Case3; Run 1 Case1]) = Ok s
    /\ threads s !! 2 = Some Stop_wait
    /\ step s (Run 2 Case1) = Ok s'
    /\ total in_wg (threads s') = 0.
Proof.
  eexists. eexists.
  assert (Hnew : NewStaticThreadPool 1 = Some pool_1) by reflexivity.
  match goal with
  | |- ?R /\ _ => assert (Hrun : R) by (vm_compute; reflexivity)
  end.
  split; [exact Hrun|].
  match goal with |- ?R /\ _ => assert (Hl : R) by reflexivity end.
  split; [exact Hl|].
  match goal with
  | |- ?R /\ _ => assert (Hstep : R) by (vm_compute; reflexivity)
  end.
  split; [exact Hstep|].
  exact (proj1 (proj2 (proj2 (fixed_wait_group 1 _ _ _ Hnew Hrun))
                  2 Case1 _ Hl Hstep)).
Defined.

(** X13. Fixed pool, line 42: for every worker count up to 429496729,
    the largest for which [t.worker * 10] stays within [uint32],
    [highPriority] is the floor of a tenth of the worker count, so that
    the worker of iteration [i] is urgent-only exactly when [i] is below
    that tenth. *)
Theorem high_priority_tenth (t : StaticThreadPool) (i : N) :
  (worker t <= 429496729)%N ->
  highPriority t = (worker t / 10)%N
  /\ (highPriority t * 10 <= worker t < highPriority t * 10 + 10)%N
  /\ spawned_mode t i = (i <? worker t / 10)%N.
Proof.
  intros H. pose proof (highPriority_in_range t H) as Hh.
  split; [assumption|]. split.
  - rewrite Hh.
    pose proof (N.div_mod (worker t) 10 ltac:(lia)) as Hd.
    pose proof (N.mod_upper_bound (worker t) 10 ltac:(lia)) as Hm.
    generalize dependent (worker t / 10)%N.
    generalize dependent (worker t mod 10)%N. intros. lia.
  - unfold spawned_mode. rewrite Hh. reflexivity.
Qed.

(** A pool of ten workers has one urgent-only worker, the first. *)
Lemma high_priority_tenth_witness :
  highPriority pool_10 = 1%N
  /\ spawned_mode pool_10 0 = true
  /\ spawned_mode pool_10 1 = false.
Proof.
  assert (Hw : (worker pool_10 <= 429496729)%N)
    by (vm_compute; discriminate).
  split; [exact (proj1 (high_priority_tenth pool_10 0 Hw))|].
  split.
  - exact (proj2 (proj2 (high_priority_tenth pool_10 0 Hw))).
  - exact (proj2 (proj2 (high_priority_tenth pool_10 1 Hw))).
Defined.

End StaticExtra.
